(** * luci-app-rtorrent: XML-RPC codec, multicall builders and SCGI relay

    A shallow embedding of
      - htdocs/luci-static/resources/tools/rtorrent.js (browser side), and
      - root/usr/libexec/rpcd/luci.rtorrent           (rpcd plugin, Lua),
    together with the properties of the design document that concern them
    (C1 to C10) and further properties of the code itself (X1 to X25): the
    errors and edge cases of the codec, the names and rows that the call
    builders produce, the exchange with the daemon, and the dispatcher.

    Text is [string] (a list of 8-bit code units).  The case mappings and the
    character classes below are the ASCII ones; the documents exchanged with
    the daemon are ASCII command names and markup. *)

From Stdlib Require Import ZArith String Ascii List Lia DecimalString DecimalPos
  DecimalNat.
From stdpp Require Import base option list strings gmap.

Set Warnings "-register-all".

(** ** Text helpers shared by both sides *)

Module Text.

Definition code (c : ascii) : nat := nat_of_ascii c.

Definition between (lo hi : nat) (c : ascii) : bool :=
  (lo <=? code c) && (code c <=? hi).

Definition is_digit : ascii -> bool := between 48 57.
Definition is_upper : ascii -> bool := between 65 90.
Definition is_lower : ascii -> bool := between 97 122.
Definition is_alpha (c : ascii) : bool := is_upper c || is_lower c.

(** C [isspace] in the C locale, which is also the ASCII part of the
    ECMAScript [\s] class: TAB, LF, VT, FF, CR and SPACE. *)
Definition is_space (c : ascii) : bool := between 9 13 c || (code c =? 32).

Definition one_of (set : string) (c : ascii) : bool :=
  existsb (Ascii.eqb c) (list_ascii_of_string set).

Definition to_lower (c : ascii) : ascii :=
  if is_upper c then ascii_of_nat (code c + 32) else c.
Definition to_upper (c : ascii) : ascii :=
  if is_lower c then ascii_of_nat (code c - 32) else c.

Fixpoint map_chars (f : ascii -> ascii) (s : string) : string :=
  match s with
  | EmptyString => EmptyString
  | String c s' => String (f c) (map_chars f s')
  end.

Fixpoint take (n : nat) (s : string) : string :=
  match n, s with
  | S n', String c s' => String c (take n' s')
  | _, _ => EmptyString
  end.

Fixpoint drop (n : nat) (s : string) : string :=
  match n, s with
  | S n', String _ s' => drop n' s'
  | _, _ => s
  end.

Fixpoint contains (c : ascii) (s : string) : bool :=
  match s with
  | EmptyString => false
  | String a s' => Ascii.eqb a c || contains c s'
  end.

Fixpoint all_chars (p : ascii -> bool) (s : string) : bool :=
  match s with
  | EmptyString => true
  | String a s' => p a && all_chars p s'
  end.

Definition reverse (s : string) : string :=
  string_of_list_ascii (rev (list_ascii_of_string s)).

Definition concat_all (l : list string) : string :=
  fold_right String.append EmptyString l.

(** Decimal numerals. *)
Definition decimal (n : nat) : string := NilZero.string_of_uint (Nat.to_uint n).
Definition decimalZ (z : Z) : string := NilZero.string_of_int (Z.to_int z).

Fixpoint digits_value (acc : N) (s : string) : N :=
  match s with
  | EmptyString => acc
  | String c s' => digits_value (acc * 10 + N.of_nat (code c - 48)) s'
  end.

Definition is_digits (s : string) : bool :=
  negb (String.eqb s "") && all_chars is_digit s.

Fixpoint span (p : ascii -> bool) (s : string) : string * string :=
  match s with
  | String a s' =>
      if p a then let '(l, r) := span p s' in (String a l, r) else (EmptyString, s)
  | EmptyString => (EmptyString, EmptyString)
  end.

Definition hex_value (c : ascii) : option N :=
  if is_digit c then Some (N.of_nat (code c - 48))
  else if between 97 102 c then Some (N.of_nat (code c - 87))
  else if between 65 70 c then Some (N.of_nat (code c - 55))
  else None.

Fixpoint radix_value (base : N) (acc : N) (s : string) : option N :=
  match s with
  | EmptyString => Some acc
  | String c s' =>
      match hex_value c with
      | Some d => if (d <? base)%N then radix_value base (acc * base + d) s' else None
      | None => None
      end
  end.

(** The exponent part: nothing, or [e] with a signed run of digits. *)
Definition exponent (s : string) : option Z :=
  match s with
  | EmptyString => Some 0%Z
  | String e ds =>
      if one_of "eE" e then
        match ds with
        | String "-" ds' => if is_digits ds' then Some (- Z.of_N (digits_value 0 ds'))%Z else None
        | String "+" ds' => if is_digits ds' then Some (Z.of_N (digits_value 0 ds')) else None
        | _ => if is_digits ds then Some (Z.of_N (digits_value 0 ds)) else None
        end
      else None
  end.

(** A character that is not white space, and a character of a printed
    integer. *)
Definition inked (c : ascii) : bool := negb (is_space c).
Definition numeral_char (c : ascii) : bool := is_digit c || Ascii.eqb c "-".

End Text.

(** ** Binary64

    What [Number(text)] and [Number::toString] need of IEEE 754 double
    precision: rounding a decimal numeral to the nearest value, and the
    shortest numeral that reads back as a value, laid out as ECMAScript
    prints it. *)

Module Binary64.

(** A positive binary64 is [m * 2 ^ e] with [2 ^ 52 <= m < 2 ^ 53] and
    [emin <= e <= emax], or a subnormal with [m < 2 ^ 52] and [e = emin]. *)
Definition emin : Z := -1074.
Definition emax : Z := 971.

(** [num / (den * 2 ^ e)]: the quotient, the remainder and the divisor. *)
Definition scaled (num den : N) (e : Z) : N * N * N :=
  if (0 <=? e)%Z then
    let d := (den * 2 ^ Z.to_N e)%N in (num / d, num mod d, d)%N
  else
    let n := (num * 2 ^ Z.to_N (- e))%N in (n / den, n mod den, den)%N.

(** The binary64 nearest to [num / den] for positive [num] and [den], ties
    to even; [None] when the magnitude overflows. *)
Definition nearest (num den : N) : option (N * Z) :=
  let l := (Z.of_N (N.log2 num) - Z.of_N (N.log2 den))%Z in
  let e0 := (l - 52)%Z in
  let q0 := fst (fst (scaled num den e0)) in
  let e1 := if (q0 <? 2 ^ 52)%N then (e0 - 1)%Z else e0 in
  let e := Z.max e1 emin in
  let '(q, r, d) := scaled num den e in
  let up := (d <? 2 * r)%N || ((2 * r =? d)%N && N.odd q) in
  let q' := if up then (q + 1)%N else q in
  let '(m, e') := if (q' =? 2 ^ 53)%N then ((2 ^ 52)%N, (e + 1)%Z) else (q', e) in
  if (emax <? e')%Z then None else Some (m, e').

(** The binary64 nearest to [s * 10 ^ t]. *)
Definition nearest_decimal (s : N) (t : Z) : option (N * Z) :=
  if (0 <=? t)%Z then nearest (s * 10 ^ Z.to_N t) 1
  else nearest s (10 ^ Z.to_N (- t)).

(** [m * 2 ^ e] as a fraction. *)
Definition fraction_of (m : N) (e : Z) : N * N :=
  if (0 <=? e)%Z then ((m * 2 ^ Z.to_N e)%N, 1%N) else (m, (2 ^ Z.to_N (- e))%N).

(** Whether [10 ^ n <= vn / vd]. *)
Definition reaches (vn vd : N) (n : Z) : bool :=
  if (0 <=? n)%Z then (vd * 10 ^ Z.to_N n <=? vn)%N
  else (vd <=? vn * 10 ^ Z.to_N (- n))%N.

Fixpoint raise (fuel : nat) (vn vd : N) (n : Z) : Z :=
  match fuel with
  | 0 => n
  | S fuel' => if reaches vn vd n then raise fuel' vn vd (n + 1) else n
  end.

Fixpoint lower (fuel : nat) (vn vd : N) (n : Z) : Z :=
  match fuel with
  | 0 => n
  | S fuel' => if reaches vn vd (n - 1) then n else lower fuel' vn vd (n - 1)
  end.

(** The [n] with [10 ^ (n - 1) <= vn / vd < 10 ^ n]. *)
Definition magnitude (vn vd : N) : Z :=
  let g := (Z.of_N (N.log2 vn) - Z.of_N (N.log2 vd))%Z in
  let n0 := (g * 30103 / 100000)%Z in
  lower 8 vn vd (raise 8 vn vd n0).

(** [vn / (vd * 10 ^ t)]: quotient, remainder, divisor. *)
Definition shifted (vn vd : N) (t : Z) : N * N * N :=
  if (0 <=? t)%Z then
    let d := (vd * 10 ^ Z.to_N t)%N in (vn / d, vn mod d, d)%N
  else
    let n := (vn * 10 ^ Z.to_N (- t))%N in (n / vd, n mod vd, vd)%N.

Definition same (a b : option (N * Z)) : bool :=
  match a, b with
  | Some (m, e), Some (m', e') => (m =? m')%N && (e =? e')%Z
  | _, _ => false
  end.

(** Among the two numerals of [k] digits next to [m * 2 ^ e], one that reads
    back as it, the closer one if both do: its digits [s] and the [n] with
    value [s * 10 ^ (n - k)]. *)
Definition candidate (m : N) (e : Z) (n : Z) (k : nat) : option (N * Z) :=
  let '(vn, vd) := fraction_of m e in
  let t := (n - Z.of_nat k)%Z in
  let '(lo, r, d) := shifted vn vd t in
  let hi := (lo + 1)%N in
  let ok_lo := same (nearest_decimal lo t) (Some (m, e)) in
  let ok_hi := same (nearest_decimal hi t) (Some (m, e)) in
  let pick := fun s : N =>
    if (s =? 10 ^ N.of_nat k)%N then Some ((10 ^ N.of_nat (k - 1))%N, (n + 1)%Z)
    else Some (s, n) in
  match ok_lo, ok_hi with
  | true, true => if (2 * r <=? d)%N then pick lo else pick hi
  | true, false => pick lo
  | false, true => pick hi
  | false, false => None
  end.

(** The shortest numeral that reads back, searched from [k] digits on. *)
Fixpoint shortest_from (fuel : nat) (m : N) (e : Z) (n : Z) (k : nat) : N * Z :=
  match fuel with
  | 0 => (0%N, n)
  | S fuel' =>
      match candidate m e n k with
      | Some r => r
      | None => shortest_from fuel' m e n (S k)
      end
  end.

Definition digits (s : N) : string := NilZero.string_of_uint (N.to_uint s).

Fixpoint zeros (n : nat) : string :=
  match n with
  | 0 => EmptyString
  | S n' => String "0" (zeros n')
  end.

(** [Number::toString] of the positive Number [m * 2 ^ e]. *)
Definition to_text (m : N) (e : Z) : string :=
  let '(vn, vd) := fraction_of m e in
  let n0 := magnitude vn vd in
  let '(s, n) := shortest_from 17 m e n0 1 in
  let ds := digits s in
  let k := Z.of_nat (String.length ds) in
  if ((k <=? n) && (n <=? 21))%Z then ds +:+ zeros (Z.to_nat (n - k))
  else if ((0 <? n) && (n <=? 21))%Z then
    Text.take (Z.to_nat n) ds +:+ "." +:+ Text.drop (Z.to_nat n) ds
  else if ((-6 <? n) && (n <=? 0))%Z then "0." +:+ zeros (Z.to_nat (- n)) +:+ ds
  else
    let x := (n - 1)%Z in
    let ex := (if (x <? 0)%Z then "-" else "+") +:+ Text.decimal (Z.to_nat (Z.abs x)) in
    if (k =? 1)%Z then ds +:+ "e" +:+ ex
    else Text.take 1 ds +:+ "." +:+ Text.drop 1 ds +:+ "e" +:+ ex.

End Binary64.

(** ** Backtracking patterns

    Both sources lean on pattern literals: ECMAScript regular expressions in
    rtorrent.js and Lua patterns in the rpcd plugin.  The literals that occur
    are sequences of single-character classes under a quantifier, with
    capture groups that do not nest, so one small backtracking matcher serves
    both. *)

Module Pat.

Inductive item :=
| One  (cls : ascii -> bool)     (* c      *)
| Star (cls : ascii -> bool)     (* c*  greedy *)
| Plus (cls : ascii -> bool)     (* c+  greedy *)
| Lazy (cls : ascii -> bool)     (* c-  shortest first (Lua) *)
| Opt  (cls : ascii -> bool)     (* c?  greedy *)
| Open                           (* (  *)
| Close.                         (* )  *)

(** Matcher state: closed captures (latest first), the characters of the
    capture being read (latest first), and the number of characters used. *)
Record mstate := MState {
  closed : list string;
  opened : option (list ascii);
  used   : nat
}.

Definition start : mstate := MState [] None 0.

Definition eat (a : ascii) (st : mstate) : mstate :=
  MState (closed st) (cons a <$> opened st) (S (used st)).

Definition open_cap (st : mstate) : mstate :=
  MState (closed st) (Some []) (used st).

Definition close_cap (st : mstate) : mstate :=
  match opened st with
  | Some acc => MState (string_of_list_ascii (rev acc) :: closed st) None (used st)
  | None => st
  end.

Definition cont := string -> mstate -> option mstate.

Fixpoint greedy (cls : ascii -> bool) (k : cont) (s : string) (st : mstate)
  : option mstate :=
  match s with
  | String a s' =>
      if cls a then
        match greedy cls k s' (eat a st) with
        | Some r => Some r
        | None => k s st
        end
      else k s st
  | EmptyString => k s st
  end.

Fixpoint shortest (cls : ascii -> bool) (k : cont) (s : string) (st : mstate)
  : option mstate :=
  match k s st with
  | Some r => Some r
  | None =>
      match s with
      | String a s' => if cls a then shortest cls k s' (eat a st) else None
      | EmptyString => None
      end
  end.

Definition single (cls : ascii -> bool) (k : cont) (s : string) (st : mstate)
  : option mstate :=
  match s with
  | String a s' => if cls a then k s' (eat a st) else None
  | EmptyString => None
  end.

Definition optional (cls : ascii -> bool) (k : cont) (s : string) (st : mstate)
  : option mstate :=
  match single cls k s st with
  | Some r => Some r
  | None => k s st
  end.

Fixpoint run (p : list item) : cont :=
  match p with
  | [] => fun _ st => Some st
  | One c :: p' => single c (run p')
  | Star c :: p' => greedy c (run p')
  | Plus c :: p' => single c (greedy c (run p'))
  | Lazy c :: p' => shortest c (run p')
  | Opt c :: p' => optional c (run p')
  | Open :: p' => fun s st => run p' s (open_cap st)
  | Close :: p' => fun s st => run p' s (close_cap st)
  end.

(** A match at the head of [s]: its length and its captures in order. *)
Definition match_here (p : list item) (s : string) : option (nat * list string) :=
  (fun st => (used st, rev (closed st))) <$> run p s start.

(** The leftmost match anywhere in [s] (an unanchored Lua [string.match]). *)
Fixpoint search (p : list item) (s : string) : option (nat * list string) :=
  match match_here p s with
  | Some r => Some r
  | None =>
      match s with
      | String _ s' => search p s'
      | EmptyString => None
      end
  end.

(** [String.prototype.replace] with a global pattern and a callback that
    receives the matched text and the captures.  [skip] counts the
    characters of the current match that are still to be passed over. *)
Fixpoint replace_from (p : list item) (f : string -> list string -> string)
    (skip : nat) (s : string) : string :=
  match s with
  | EmptyString =>
      match skip, match_here p EmptyString with
      | 0, Some (_, caps) => f EmptyString caps
      | _, _ => EmptyString
      end
  | String a s' =>
      match skip with
      | S k => replace_from p f k s'
      | 0 =>
          match match_here p s with
          | Some (0, caps) =>
              String.append (f EmptyString caps) (String a (replace_from p f 0 s'))
          | Some (S n, caps) =>
              String.append (f (Text.take (S n) s) caps) (replace_from p f n s')
          | None => String a (replace_from p f 0 s')
          end
      end
  end.

Definition replace_all (p : list item) (f : string -> list string -> string)
    (s : string) : string :=
  replace_from p f 0 s.

Definition lit (c : ascii) : item := One (Ascii.eqb c).

Definition lits (s : string) : list item := map lit (list_ascii_of_string s).

Definition any : ascii -> bool := fun _ => true.

End Pat.

(** ** The ECMAScript values and built-ins that rtorrent.js relies on *)

Module Js.

(** Exceptions a built-in can raise on the paths below. *)
Inductive exn := TypeError | RangeError | InvalidCharacterError.

Inductive res (A : Type) :=
| Ok (a : A)
| Throw (e : exn).
Arguments Ok {A} a.
Arguments Throw {A} e.

Definition bind {A B} (m : res A) (f : A -> res B) : res B :=
  match m with
  | Ok a => f a
  | Throw e => Throw e
  end.

Notation "'let*' x ':=' m 'in' k" := (bind m (fun x => k))
  (at level 10, x name, m at level 100, k at level 200).

Fixpoint mapM {A B} (f : A -> res B) (l : list A) : res (list B) :=
  match l with
  | [] => Ok []
  | a :: l' => let* b := f a in let* bs := mapM f l' in Ok (b :: bs)
  end.

(** Numbers.  [NInt z] is the Number nearest to the integer [z]; for a safe
    integer, up to [2 ^ 53 - 1] in magnitude, that is [z] itself.  Any other
    Number is carried by the text that [Number::toString] prints for it:
    the shortest numeral that reads back as it, or [Infinity], [-Infinity]
    or [NaN].  [Number] below returns an [NInt] for the safe integers and
    only for them.  The two zeros are not told apart; both print as [0]. *)
Inductive number :=
| NInt (z : Z)
| NOther (numeral : string).

Inductive jsval :=
| JUndefined
| JNull
| JString (s : string)
| JBool (b : bool)
| JNum (n : number)
| JDate (t : option Z)              (* time value in ms; None is an invalid date *)
| JArray (elems : list jsval)
| JObject (props : list (string * jsval)).   (* own properties, in enumeration order *)

(** *** Strings *)

Definition toLowerCase : string -> string := Text.map_chars Text.to_lower.
Definition toUpperCase : string -> string := Text.map_chars Text.to_upper.

(** [str.includes(c)] for a one-character needle. *)
Definition includes (c : ascii) (str : string) : bool := Text.contains c str.

(** [str.split(c)] for a one-character separator: the pieces between the
    occurrences of [c]; the empty string gives one empty piece. *)
Fixpoint split_acc (c : ascii) (cur : list ascii) (str : string) : list string :=
  match str with
  | EmptyString => [string_of_list_ascii (rev cur)]
  | String a s' =>
      if Ascii.eqb a c
      then string_of_list_ascii (rev cur) :: split_acc c [] s'
      else split_acc c (a :: cur) s'
  end.

Definition split (c : ascii) (str : string) : list string := split_acc c [] str.

Definition bool_text (b : bool) : string := if b then "true" else "false".

Definition max_safe : Z := 9007199254740991.

Definition safe (z : Z) : bool := (Z.abs z <=? max_safe)%Z.

(** The Number nearest to [num / den], negated when [neg], for positive
    [num] and [den]. *)
Definition of_fraction (neg : bool) (num den : N) : number :=
  match Binary64.nearest num den with
  | None => NOther (if neg then "-Infinity" else "Infinity")
  | Some (m, e) =>
      if (m =? 0)%N then NInt 0
      else
        let '(vn, vd) := Binary64.fraction_of m e in
        if ((vn mod vd =? 0) && (vn / vd <=? Z.to_N max_safe))%N
        then NInt ((if neg then -1 else 1) * Z.of_N (vn / vd))
        else NOther ((if neg then "-" else "") +:+ Binary64.to_text m e)
  end.

(** [Number::toString] *)
Definition number_text (n : number) : string :=
  match n with
  | NInt z =>
      if safe z then Text.decimalZ z
      else
        match of_fraction (z <? 0)%Z (Z.to_N (Z.abs z)) 1 with
        | NInt z' => Text.decimalZ z'
        | NOther numeral => numeral
        end
  | NOther numeral => numeral
  end.

Fixpoint trim_left (s : string) : string :=
  match s with
  | String a s' => if Text.is_space a then trim_left s' else s
  | EmptyString => s
  end.

Definition trim (s : string) : string :=
  Text.reverse (trim_left (Text.reverse (trim_left s))).

(** The Number for the integer [v], which is not negative. *)
Definition of_natural (neg : bool) (v : N) : number :=
  if (v <=? Z.to_N max_safe)%N then NInt ((if neg then -1 else 1) * Z.of_N v)
  else of_fraction neg v 1.

Definition radix_literal (base : N) (ds : string) : number :=
  match ds with
  | EmptyString => NOther "NaN"
  | _ =>
      match Text.radix_value base 0 ds with
      | Some v => of_natural false v
      | None => NOther "NaN"
      end
  end.

(** The fraction after the integer digits: the digits behind a point, if
    there is one, and what follows. *)
Definition fraction (r1 : string) : string * string :=
  match r1 with
  | String c r => if Ascii.eqb c "." then Text.span Text.is_digit r else (EmptyString, r1)
  | EmptyString => (EmptyString, r1)
  end.

(** The Number for [m * 10 ^ e], where [m] was written with [len] digits.
    A value of 10 ^ 311 or more is beyond every finite Number, and one below
    10 ^ -400 rounds to zero. *)
Definition settle (neg : bool) (m : N) (e : Z) (len : nat) : number :=
  if (m =? 0)%N then NInt 0
  else if (0 <=? e)%Z then
    if (310 <? e)%Z then NOther (if neg then "-Infinity" else "Infinity")
    else of_natural neg (m * 10 ^ Z.to_N e)
  else if (Z.of_nat len + 400 <? - e)%Z then NInt 0
  else of_fraction neg m (10 ^ Z.to_N (- e)).

(** An unsigned decimal literal [s], negated when [neg]. *)
Definition decimal_literal (neg : bool) (s : string) : number :=
  if String.eqb s "Infinity" then NOther (if neg then "-Infinity" else "Infinity")
  else
    let '(int, r1) := Text.span Text.is_digit s in
    let '(frac, r2) := fraction r1 in
    if String.eqb (int +:+ frac) "" then NOther "NaN"
    else
      match Text.exponent r2 with
      | None => NOther "NaN"
      | Some e =>
          settle neg (Text.digits_value 0 (int +:+ frac))
                 (e - Z.of_nat (String.length frac))
                 (String.length (int +:+ frac))
      end.

(** A literal in another radix: [0x], [0o] or [0b] and its digits. *)
Definition radix_prefix (t : string) : option (N * string) :=
  match t with
  | String z (String x ds) =>
      if Ascii.eqb z "0" then
        if Text.one_of "xX" x then Some (16%N, ds)
        else if Text.one_of "oO" x then Some (8%N, ds)
        else if Text.one_of "bB" x then Some (2%N, ds)
        else None
      else None
  | _ => None
  end.

(** [Number(text)], the StringToNumber conversion: white space is trimmed;
    the empty text is 0; a hexadecimal, octal or binary literal is that
    integer; a signed decimal literal with optional fraction and exponent is
    read exactly; an infinity is itself and any other text is NaN.  What was
    read is rounded to the nearest binary64. *)
Definition Number (text : string) : number :=
  let t := trim text in
  match t with
  | EmptyString => NInt 0
  | String c r =>
      if Ascii.eqb c "-" then decimal_literal true r
      else if Ascii.eqb c "+" then decimal_literal false r
      else
        match radix_prefix t with
        | Some (base, ds) => radix_literal base ds
        | None => decimal_literal false t
        end
  end.

(** [Number.isInteger]: an [NInt] is integral; a printed Number is when its
    numeral has no more digits behind the point than its exponent makes
    up for.  The infinities and NaN are not. *)
Definition integral_text (numeral : string) : bool :=
  let t := match numeral with
           | String c r => if Ascii.eqb c "-" then r else numeral
           | EmptyString => numeral
           end in
  let '(int, r1) := Text.span Text.is_digit t in
  let '(frac, r2) := fraction r1 in
  if String.eqb (int +:+ frac) "" then false
  else
    match Text.exponent r2 with
    | None => false
    | Some e =>
        let e' := (e - Z.of_nat (String.length frac))%Z in
        (0 <=? e')%Z
        || ((- e' <=? Z.of_nat (String.length (int +:+ frac)))%Z
            && (Text.digits_value 0 (int +:+ frac) mod 10 ^ Z.to_N (- e') =? 0)%N)
    end.

Definition isInteger (n : number) : bool :=
  match n with
  | NInt _ => true
  | NOther numeral => integral_text numeral
  end.

(** *** Date.prototype.toISOString *)

Definition pad (width : nat) (n : Z) : string :=
  let d := Text.decimalZ n in
  String.append (string_of_list_ascii (repeat "0"%char (width - String.length d))) d.

(** Civil date of a day number counted from 1970-01-01 (proleptic Gregorian). *)
Definition civil_from_days (days : Z) : Z * Z * Z :=
  let z := (days + 719468)%Z in
  let era := (z / 146097)%Z in
  let doe := (z - era * 146097)%Z in
  let yoe := ((doe - doe / 1460 + doe / 36524 - doe / 146096) / 365)%Z in
  let doy := (doe - (365 * yoe + yoe / 4 - yoe / 100))%Z in
  let mp := ((5 * doy + 2) / 153)%Z in
  let d := (doy - (153 * mp + 2) / 5 + 1)%Z in
  let m := (if (mp <? 10)%Z then mp + 3 else mp - 9)%Z in
  let y := (yoe + era * 400 + (if (m <=? 2)%Z then 1 else 0))%Z in
  (y, m, d).

Definition year_text (y : Z) : string :=
  if ((0 <=? y) && (y <=? 9999))%Z then pad 4 y
  else if (y <? 0)%Z then String.append "-" (pad 6 (- y))
  else String.append "+" (pad 6 y).

Definition toISOString (t : option Z) : res string :=
  match t with
  | None => Throw RangeError
  | Some ms =>
      if (Z.abs ms <=? 8640000000000000)%Z then
        let '(y, m, d) := civil_from_days (ms / 86400000) in
        let r := (ms mod 86400000)%Z in
        Ok (Text.concat_all
              [year_text y; "-"; pad 2 m; "-"; pad 2 d; "T";
               pad 2 (r / 3600000); ":"; pad 2 (r / 60000 mod 60); ":";
               pad 2 (r / 1000 mod 60); "."; pad 3 (r mod 1000); "Z"])
      else Throw RangeError
  end.

(** *** btoa / atob *)

Definition b64_alphabet : string :=
  "ABCDEFGHIJKLMNOPQRSTUVWXYZabcdefghijklmnopqrstuvwxyz0123456789+/".

Definition b64_char (v : nat) : ascii :=
  match String.get v b64_alphabet with
  | Some c => c
  | None => "="%char
  end.

Fixpoint b64_index_from (i : nat) (c : ascii) (alphabet : string) : option nat :=
  match alphabet with
  | EmptyString => None
  | String a rest => if Ascii.eqb a c then Some i else b64_index_from (S i) c rest
  end.

Definition b64_index (c : ascii) : option nat := b64_index_from 0 c b64_alphabet.

Fixpoint btoa_bytes (l : list nat) : list ascii :=
  match l with
  | [] => []
  | [a] =>
      [b64_char (a / 4); b64_char (a mod 4 * 16); "="%char; "="%char]
  | [a; b] =>
      [b64_char (a / 4); b64_char (a mod 4 * 16 + b / 16);
       b64_char (b mod 16 * 4); "="%char]
  | a :: b :: c :: rest =>
      b64_char (a / 4) :: b64_char (a mod 4 * 16 + b / 16)
        :: b64_char (b mod 16 * 4 + c / 64) :: b64_char (c mod 64)
        :: btoa_bytes rest
  end.

(** [btoa] of a binary string; every code unit here is below 256, so the
    InvalidCharacterError of wider code units cannot arise. *)
Definition btoa (s : string) : string :=
  string_of_list_ascii (btoa_bytes (map Text.code (list_ascii_of_string s))).

Fixpoint atob_sextets (l : list nat) : list ascii :=
  match l with
  | a :: b :: c :: d :: rest =>
      ascii_of_nat (a * 4 + b / 16) :: ascii_of_nat (b mod 16 * 16 + c / 4)
        :: ascii_of_nat (c mod 4 * 64 + d) :: atob_sextets rest
  | [a; b; c] =>
      [ascii_of_nat (a * 4 + b / 16); ascii_of_nat (b mod 16 * 16 + c / 4)]
  | [a; b] => [ascii_of_nat (a * 4 + b / 16)]
  | _ => []
  end.

Definition strip_padding (l : list ascii) : list ascii :=
  if (length l mod 4 =? 0) then
    match rev l with
    | "="%char :: "="%char :: r => rev r
    | "="%char :: r => rev r
    | _ => l
    end
  else l.

Definition html_space (c : ascii) : bool :=
  Text.one_of (String "009" (String "010" (String "012" (String "013" " ")))) c.

(** [atob] (forgiving base64 decode): ASCII white space is dropped, up to
    two padding characters are removed from a text whose length is a
    multiple of four, and the rest must be alphabet characters whose number
    is not 1 modulo 4. *)
Definition atob (s : string) : res string :=
  let l := strip_padding (filter (fun c => negb (html_space c)) (list_ascii_of_string s)) in
  if length l mod 4 =? 1 then Throw InvalidCharacterError
  else
    match mapM (fun c => match b64_index c with
                         | Some v => Ok v
                         | None => Throw InvalidCharacterError
                         end) l with
    | Ok vs => Ok (string_of_list_ascii (atob_sextets vs))
    | Throw e => Throw e
    end.

End Js.

(** ** The document tree and the parser behind [DOMParser]

    Only what [decodeXmlRpc] reads of a DOM node is kept: the tag name, the
    child nodes, and the character data of text nodes. *)

Module Dom.

Inductive node :=
| Element (tagName : string) (childNodes : list node)
| TextNode (data : string).

Definition is_element (n : node) : bool :=
  match n with
  | Element _ _ => true
  | TextNode _ => false
  end.

Definition tagName (n : node) : option string :=
  match n with
  | Element t _ => Some t
  | TextNode _ => None
  end.

Fixpoint textContent (n : node) : string :=
  match n with
  | Element _ kids => Text.concat_all (map textContent kids)
  | TextNode d => d
  end.

Definition children (kids : list node) : list node := List.filter is_element kids.

Definition childElementCount (kids : list node) : nat := length (children kids).

Definition firstElementChild (kids : list node) : option node := head (children kids).

(** [querySelector(tag)] with a type selector: the first element among the
    descendants, in document order, whose tag name is [tag]. *)
Fixpoint first_in (tag : string) (n : node) : option node :=
  match n with
  | Element t kids =>
      if String.eqb t tag then Some n
      else
        (fix among (l : list node) : option node :=
           match l with
           | [] => None
           | k :: l' =>
               match first_in tag k with
               | Some r => Some r
               | None => among l'
               end
           end) kids
  | TextNode _ => None
  end.

Fixpoint querySelector (tag : string) (kids : list node) : option node :=
  match kids with
  | [] => None
  | k :: kids' =>
      match first_in tag k with
      | Some r => Some r
      | None => querySelector tag kids'
      end
  end.

(** *** Parsing

    The fragment of XML that the encoder below and the daemon's XML-RPC
    library produce: elements without attributes, empty-element tags,
    character data with the five predefined entities, and processing
    instructions (the XML declaration), which are skipped.  Any other text is
    reported as not well-formed, also one that a full parser reads: character
    references, attributes, comments, CDATA sections and document type
    declarations are not described.  Where a property below rests on a text
    not being read, the text is one that no XML parser reads: an element left
    open, or no element at all. *)

Inductive token :=
| TOpen (tag : string)
| TClose (tag : string)
| TEmpty (tag : string)
| TChars (text : string).

Inductive mode :=
| MText (acc : list ascii)
| MEntity (acc ent : list ascii)
| MTagStart
| MOpenName (name : list ascii)
| MOpenSpace (name : list ascii)
| MSlash (name : list ascii)
| MCloseName (name : list ascii)
| MCloseSpace (name : list ascii)
| MInstruction (question : bool).

Definition name_start (c : ascii) : bool :=
  Text.is_alpha c || Text.one_of "_:" c || (128 <=? Text.code c).

Definition name_char (c : ascii) : bool :=
  name_start c || Text.is_digit c || Text.one_of "-." c.

Definition xml_space (c : ascii) : bool :=
  Text.one_of (String "009" (String "010" (String "013" " "))) c.

Definition entity (ent : string) : option ascii :=
  if String.eqb ent "lt" then Some "<"%char
  else if String.eqb ent "gt" then Some ">"%char
  else if String.eqb ent "amp" then Some "&"%char
  else if String.eqb ent "apos" then Some "'"%char
  else if String.eqb ent "quot" then Some "034"%char
  else None.

Definition str (acc : list ascii) : string := string_of_list_ascii (rev acc).

Definition flush (acc : list ascii) (ts : list token) : list token :=
  match acc with
  | [] => ts
  | _ => TChars (str acc) :: ts
  end.

Fixpoint lex (m : mode) (s : string) : option (list token) :=
  match s with
  | EmptyString =>
      match m with
      | MText acc => Some (flush acc [])
      | _ => None
      end
  | String c s' =>
      match m with
      | MText acc =>
          if Ascii.eqb c "<" then flush acc <$> lex MTagStart s'
          else if Ascii.eqb c "&" then lex (MEntity acc []) s'
          else lex (MText (c :: acc)) s'
      | MEntity acc ent =>
          if Ascii.eqb c ";" then
            match entity (str ent) with
            | Some e => lex (MText (e :: acc)) s'
            | None => None
            end
          else lex (MEntity acc (c :: ent)) s'
      | MTagStart =>
          if Ascii.eqb c "/" then lex (MCloseName []) s'
          else if Ascii.eqb c "?" then lex (MInstruction false) s'
          else if name_start c then lex (MOpenName [c]) s'
          else None
      | MOpenName name =>
          if Ascii.eqb c ">" then cons (TOpen (str name)) <$> lex (MText []) s'
          else if Ascii.eqb c "/" then lex (MSlash name) s'
          else if xml_space c then lex (MOpenSpace name) s'
          else if name_char c then lex (MOpenName (c :: name)) s'
          else None
      | MOpenSpace name =>
          if Ascii.eqb c ">" then cons (TOpen (str name)) <$> lex (MText []) s'
          else if Ascii.eqb c "/" then lex (MSlash name) s'
          else if xml_space c then lex (MOpenSpace name) s'
          else None
      | MSlash name =>
          if Ascii.eqb c ">" then cons (TEmpty (str name)) <$> lex (MText []) s'
          else None
      | MCloseName name =>
          match name with
          | [] => if name_start c then lex (MCloseName [c]) s' else None
          | _ =>
              if Ascii.eqb c ">" then cons (TClose (str name)) <$> lex (MText []) s'
              else if xml_space c then lex (MCloseSpace name) s'
              else if name_char c then lex (MCloseName (c :: name)) s'
              else None
          end
      | MCloseSpace name =>
          if Ascii.eqb c ">" then cons (TClose (str name)) <$> lex (MText []) s'
          else if xml_space c then lex (MCloseSpace name) s'
          else None
      | MInstruction question =>
          if Ascii.eqb c ">" && question then lex (MText []) s'
          else lex (MInstruction (Ascii.eqb c "?")) s'
      end
  end.

(** The open elements, innermost first, each with the children read so far
    (latest first). *)
Definition frames := list (string * list node).

Definition attach (n : node) (open : frames) (root : option node)
  : option (frames * option node) :=
  match open, root with
  | (t, kids) :: open', _ => Some ((t, n :: kids) :: open', root)
  | [], None => Some ([], Some n)
  | [], Some _ => None
  end.

Fixpoint build (open : frames) (root : option node) (ts : list token) : option node :=
  match ts with
  | [] =>
      match open with
      | [] => root
      | _ => None
      end
  | TOpen t :: ts' =>
      match open, root with
      | [], Some _ => None
      | _, _ => build ((t, []) :: open) root ts'
      end
  | TEmpty t :: ts' =>
      match attach (Element t []) open root with
      | Some (open', root') => build open' root' ts'
      | None => None
      end
  | TClose t :: ts' =>
      match open with
      | (t', kids) :: open' =>
          if String.eqb t t' then
            match attach (Element t (rev kids)) open' root with
            | Some (open'', root') => build open'' root' ts'
            | None => None
            end
          else None
      | [] => None
      end
  | TChars text :: ts' =>
      match open with
      | (t, kids) :: open' => build ((t, TextNode text :: kids) :: open') root ts'
      | [] => if Text.all_chars xml_space text then build [] root ts' else None
      end
  end.

(** Characters a document may hold, and the end-of-line handling that
    precedes parsing: CR LF and a lone CR both become LF. *)
Definition xml_char (c : ascii) : bool := (32 <=? Text.code c) || xml_space c.

Fixpoint normalize_newlines (s : string) : string :=
  match s with
  | EmptyString => EmptyString
  | String c s' =>
      if Ascii.eqb c "013" then
        match s' with
        | String c' s'' =>
            if Ascii.eqb c' "010" then String "010" (normalize_newlines s'')
            else String "010" (normalize_newlines s')
        | EmptyString => String "010" EmptyString
        end
      else String c (normalize_newlines s')
  end.

Definition parse (text : string) : option node :=
  if Text.all_chars xml_char text then
    match lex (MText []) (normalize_newlines text) with
    | Some ts => build [] None ts
    | None => None
    end
  else None.

(** [domParser.parseFromString(text, 'text/xml').documentElement]: on a
    well-formedness error the document holds a single [parsererror] element
    that describes the error. *)
Definition parsererror : node :=
  Element "parsererror" [TextNode "XML Parsing Error: not well-formed"].

Definition parseFromString (text : string) : node :=
  match parse text with
  | Some root => root
  | None => parsererror
  end.

(** *** Writing a tree out

    The text that parses back to a tree, and the trees for which it does:
    tags are names, character data is not empty, holds no carriage return or
    control character, and no two text nodes are neighbours. *)

Definition escape_char (c : ascii) : string :=
  if Ascii.eqb c "<" then "&lt;"
  else if Ascii.eqb c ">" then "&gt;"
  else if Ascii.eqb c "&" then "&amp;"
  else if Ascii.eqb c "'" then "&apos;"
  else if Ascii.eqb c "034" then "&quot;"
  else String c EmptyString.

Fixpoint escape (s : string) : string :=
  match s with
  | EmptyString => EmptyString
  | String c s' => escape_char c +:+ escape s'
  end.

Fixpoint text_of (n : node) : string :=
  match n with
  | Element t kids =>
      "<" +:+ t +:+ ">" +:+ Text.concat_all (map text_of kids) +:+ "</" +:+ t +:+ ">"
  | TextNode d => escape d
  end.

Fixpoint tokens (n : node) : list token :=
  match n with
  | Element t kids => TOpen t :: concat (map tokens kids) ++ [TClose t]
  | TextNode d => [TChars d]
  end.

Definition safe_char (c : ascii) : bool := xml_char c && negb (Ascii.eqb c "013").

Definition safe_text (s : string) : bool := Text.all_chars safe_char s.

Definition valid_name (t : string) : bool :=
  match t with
  | String c r => name_start c && Text.all_chars name_char r
  | EmptyString => false
  end.

Fixpoint apart (kids : list node) : bool :=
  match kids with
  | TextNode _ :: (TextNode _ :: _) => false
  | _ :: kids' => apart kids'
  | [] => true
  end.

Fixpoint clean (n : node) : bool :=
  match n with
  | Element t kids => valid_name t && forallb clean kids && apart kids
  | TextNode d => negb (String.eqb d "") && safe_text d
  end.

(** The text and the tokens of a list of children, and what it means for
    one node to pass the lexer and the tree builder (stated for use under an
    induction on the tree). *)
Definition wrap_text (tag body : string) : string :=
  "<" +:+ tag +:+ ">" +:+ body +:+ "</" +:+ tag +:+ ">".

Definition forest_text (kids : list node) : string := Text.concat_all (map text_of kids).
Definition forest_tokens (kids : list node) : list token := concat (map tokens kids).

Definition starts_with_text (kids : list node) : bool :=
  match kids with
  | TextNode _ :: _ => true
  | _ => false
  end.

Definition lexes (n : node) : Prop :=
  match n with
  | Element t kids =>
      forall rest,
        lex MTagStart (t +:+ ">" +:+ forest_text kids +:+ "</" +:+ t +:+ ">" +:+ rest)
        = app (tokens n) <$> lex (MText []) rest
  | TextNode _ => True
  end.

Definition builds (n : node) : Prop :=
  forall t0 k0 open root ts,
    build ((t0, k0) :: open) root (tokens n ++ ts)
    = build ((t0, n :: k0) :: open) root ts.

End Dom.

(** ** Own properties of ordinary objects

    [JObject props] lists the own enumerable properties in the order in
    which [Object.entries], [Object.keys] and [Object.assign] visit them:
    array-index keys first, ascending, then the other keys in creation order.
    Prototype chains are not modelled. *)

Module Props.
Import Js.

Definition props := list (string * jsval).

(** A canonical numeric string below 2^32 - 1. *)
Definition array_index (k : string) : option N :=
  if Text.is_digits k
     && (String.eqb k "0" || negb (String.prefix "0" k))
  then
    let v := Text.digits_value 0 k in
    if (String.length k <=? 10) && (v <=? 4294967294)%N then Some v else None
  else None.

Definition has (k : string) (o : props) : bool :=
  existsb (fun kv => String.eqb (fst kv) k) o.

Fixpoint get (k : string) (o : props) : option jsval :=
  match o with
  | [] => None
  | (k', v) :: o' => if String.eqb k' k then Some v else get k o'
  end.

Fixpoint update (k : string) (v : jsval) (o : props) : props :=
  match o with
  | [] => []
  | (k', v') :: o' =>
      if String.eqb k' k then (k', v) :: o' else (k', v') :: update k v o'
  end.

(** Where a new key goes: an array index before the first key that is not
    one or is a larger one; any other key at the end. *)
Fixpoint add (k : string) (v : jsval) (o : props) : props :=
  match o with
  | [] => [(k, v)]
  | (k', v') :: o' =>
      match array_index k, array_index k' with
      | Some i, Some i' =>
          if (i <? i')%N then (k, v) :: o else (k', v') :: add k v o'
      | Some _, None => (k, v) :: o
      | None, _ => (k', v') :: add k v o'
      end
  end.

(** [object[k] = v] on an ordinary object.  The key [__proto__] reaches the
    accessor inherited from [Object.prototype] and creates no own property. *)
Definition set (k : string) (v : jsval) (o : props) : props :=
  if String.eqb k "__proto__" then o
  else if has k o then update k v o
  else add k v o.

(** [{ [k]: v }] *)
Definition singleton (k : string) (v : jsval) : props := [(k, v)].

Fixpoint indexed {A} (f : A -> jsval) (i : nat) (l : list A) : props :=
  match l with
  | [] => []
  | a :: l' => (Text.decimal i, f a) :: indexed f (S i) l'
  end.

(** The own enumerable string-keyed properties of [ToObject(v)]. *)
Definition own (v : jsval) : props :=
  match v with
  | JObject o => o
  | JArray l => indexed (fun e => e) 0 l
  | JString s => indexed (fun c => JString (String c EmptyString)) 0 (list_ascii_of_string s)
  | _ => []
  end.

(** [Object.assign(target, source)] on an ordinary target; a source that is
    undefined or null is skipped. *)
Definition assign (target : props) (source : jsval) : props :=
  fold_left (fun o kv => set (fst kv) (snd kv) o) (own source) target.

(** [v[i]] for a non-negative integer [i]: an element, a character, or the
    property named by the numeral; undefined when there is none.  Reading a
    property of undefined or null is a TypeError. *)
Definition at_index (v : jsval) (i : nat) : res jsval :=
  match v with
  | JUndefined | JNull => Throw TypeError
  | JArray l => Ok (default JUndefined (l !! i))
  | JString s =>
      Ok (match String.get i s with
          | Some c => JString (String c EmptyString)
          | None => JUndefined
          end)
  | JObject o => Ok (default JUndefined (get (Text.decimal i) o))
  | _ => Ok JUndefined
  end.

(** [v.length] *)
Definition length_of (v : jsval) : res jsval :=
  match v with
  | JUndefined | JNull => Throw TypeError
  | JArray l => Ok (JNum (NInt (Z.of_nat (length l))))
  | JString s => Ok (JNum (NInt (Z.of_nat (String.length s))))
  | JObject o => Ok (default JUndefined (get "length" o))
  | _ => Ok JUndefined
  end.

End Props.

(** ** The XML-RPC value codec (rtorrent.js, lines 15-123) *)

Module XmlRpc.
Import Js Dom.

Definition dquote : ascii := "034"%char.

(** [escapeXml]: the pattern is the class of the five reserved characters;
    a callback that falls out of its switch returns undefined, which
    [replace] renders as text. *)
Definition reserved : ascii -> bool :=
  Text.one_of (String "<" (String ">" (String "&" (String "'" (String dquote ""))))).

Definition entity_of : string -> list string -> string :=
  fun chr _ =>
    if String.eqb chr "<" then "&lt;"
    else if String.eqb chr ">" then "&gt;"
    else if String.eqb chr "&" then "&amp;"
    else if String.eqb chr "'" then "&apos;"
    else if String.eqb chr (String dquote "") then "&quot;"
    else "undefined".

Definition escapeXml (str : string) : string :=
  Pat.replace_all [Pat.One reserved] entity_of str.

Definition wrap_value (x : string) : string := "<value>" +:+ x +:+ "</value>".

Definition wrap_member (key x : string) : string :=
  "<member>" +:+ "<name>" +:+ escapeXml key +:+ "</name>"
    +:+ "<value>" +:+ x +:+ "</value>" +:+ "</member>".

Fixpoint encodeXmlRpcParam (param : jsval) : res string :=
  match param with
  | JString s => Ok ("<string>" +:+ escapeXml s +:+ "</string>")
  | JBool b => Ok ("<boolean>" +:+ bool_text b +:+ "<boolean>")
  | JNum n =>
      if isInteger n
      then Ok ("<int>" +:+ number_text n +:+ "</int>")
      else Ok ("<double>" +:+ number_text n +:+ "</double>")
  | JDate t =>
      let* iso := toISOString t in
      Ok ("<dateTime.iso8601>" +:+ iso +:+ "</dateTime.iso8601>")
  | JArray elems =>
      let* parts := mapM (fun element =>
                            let* x := encodeXmlRpcParam element in
                            Ok (wrap_value x)) elems in
      Ok ("<array>" +:+ "<data>" +:+ Text.concat_all parts +:+ "</data>" +:+ "</array>")
  | JObject props =>
      let* parts := mapM (fun entry =>
                            let* x := encodeXmlRpcParam (snd entry) in
                            Ok (wrap_member (fst entry) x)) props in
      Ok ("<struct>" +:+ Text.concat_all parts +:+ "</struct>")
  | JNull => Throw TypeError                 (* Object.entries(null) *)
  | JUndefined => Ok ("<base64>" +:+ btoa "undefined" +:+ "</base64>")
  end.

Definition wrap_param (x : string) : string :=
  "<param>" +:+ "<value>" +:+ x +:+ "</value>" +:+ "</param>".

Definition xml_declaration : string :=
  "<?xml version=" +:+ String dquote "1.0" +:+ String dquote "?>".

Definition encodeXmlRpc (method : string) (params : list jsval) : res string :=
  let* parts := mapM (fun param =>
                        let* x := encodeXmlRpcParam param in
                        Ok (wrap_param x)) params in
  Ok (xml_declaration +:+ "<methodCall>"
        +:+ "<methodName>" +:+ method +:+ "</methodName>"
        +:+ "<params>" +:+ Text.concat_all parts +:+ "</params>"
        +:+ "</methodCall>").

(** The ways [decodeXmlRpc] reaches the nodes it recurses into.  Each takes
    the decoder as [f] and applies it where the source calls itself:
      - [on_first_element f kids]   is [f(xml.firstElementChild)],
      - [each_element f kids]       is the loop pushing [f(xml.children[i])],
      - [assign_each f object kids] is the loop of [Object.assign(object, f(xml.children[i]))],
      - [select tag f kids]         is [f(xml.querySelector(tag))],
    where applying [f] to null fails on reading [null.tagName]. *)
Fixpoint on_first_element {A} (f : node -> res A) (kids : list node) : res A :=
  match kids with
  | [] => Throw TypeError
  | n :: kids' => if is_element n then f n else on_first_element f kids'
  end.

Fixpoint each_element (f : node -> res jsval) (kids : list node) : res (list jsval) :=
  match kids with
  | [] => Ok []
  | n :: kids' =>
      if is_element n then
        let* v := f n in
        let* vs := each_element f kids' in
        Ok (v :: vs)
      else each_element f kids'
  end.

Fixpoint assign_each (f : node -> res jsval) (object : Props.props) (kids : list node)
  : res Props.props :=
  match kids with
  | [] => Ok object
  | n :: kids' =>
      if is_element n then
        let* v := f n in
        assign_each f (Props.assign object v) kids'
      else assign_each f object kids'
  end.

Fixpoint select_in {A} (tag : string) (f : node -> A) (n : node) : option A :=
  match n with
  | Element t kids =>
      if String.eqb t tag then Some (f n)
      else
        (fix among (l : list node) : option A :=
           match l with
           | [] => None
           | k :: l' =>
               match select_in tag f k with
               | Some r => Some r
               | None => among l'
               end
           end) kids
  | TextNode _ => None
  end.

Fixpoint select {A} (tag : string) (f : node -> A) (kids : list node) : option A :=
  match kids with
  | [] => None
  | k :: kids' =>
      match select_in tag f k with
      | Some r => Some r
      | None => select tag f kids'
      end
  end.

Definition or_null {A} (o : option (res A)) : res A :=
  match o with
  | Some r => r
  | None => Throw TypeError
  end.

Definition tag_in (tag : string) (tags : list string) : bool :=
  existsb (String.eqb tag) tags.

(** The tags that [decodeXmlRpc] has a case for. *)
Definition scalar_tags : list string := ["int"; "i4"; "i8"; "double"].
Definition wrapper_tags : list string :=
  ["methodResponse"; "params"; "param"; "value"; "fault"; "array"].
Definition recognized_tags : list string :=
  ["string"; "boolean"] ++ scalar_tags ++ wrapper_tags
    ++ ["data"; "struct"; "member"; "base64"].

(** [decodeXmlRpc].  The default case reads [xml.textContext], a property
    that no DOM node has, so its value is undefined. *)
Fixpoint decodeXmlRpc (xml : node) : res jsval :=
  match xml with
  | TextNode _ => Ok JUndefined
  | Element tag kids =>
      if String.eqb tag "string" then Ok (JString (textContent xml))
      else if String.eqb tag "boolean" then Ok (JBool (String.eqb (textContent xml) "true"))
      else if tag_in tag scalar_tags then Ok (JNum (Number (textContent xml)))
      else if tag_in tag wrapper_tags then on_first_element decodeXmlRpc kids
      else if String.eqb tag "data" then
        let* array := each_element decodeXmlRpc kids in
        Ok (JArray array)
      else if String.eqb tag "struct" then
        let* object := assign_each decodeXmlRpc [] kids in
        Ok (JObject object)
      else if String.eqb tag "member" then
        match querySelector "name" kids with
        | None => Throw TypeError
        | Some name =>
            let* value := or_null (select "value" decodeXmlRpc kids) in
            Ok (JObject (Props.singleton (textContent name) value))
        end
      else if String.eqb tag "base64" then
        let* bytes := atob (textContent xml) in
        Ok (JString bytes)
      else Ok JUndefined
  end.

(** *** Values that make the round trip

    The values whose encoding decodes to themselves: texts without carriage
    return or control characters, safe integers, and arrays and structs of
    such values, where the member names of a struct are such texts too, differ
    from each other, and are neither array indices nor [__proto__].
    [node_of] is the document tree of such a value. *)

Definition text_kids (s : string) : list node :=
  if String.eqb s "" then [] else [TextNode s].

Definition plain_key (k : string) : bool :=
  safe_text k && negb (String.eqb k "__proto__")
  && match Props.array_index k with
     | None => true
     | Some _ => false
     end.

Fixpoint distinct (ks : list string) : bool :=
  match ks with
  | [] => true
  | k :: ks' => negb (existsb (String.eqb k) ks') && distinct ks'
  end.

Fixpoint plain (v : jsval) : bool :=
  match v with
  | JString s => safe_text s
  | JNum (NInt z) => safe z
  | JArray elems => forallb plain elems
  | JObject props =>
      forallb (fun kv => plain_key (fst kv) && plain (snd kv)) props
      && distinct (map fst props)
  | _ => false
  end.

Definition value_node (n : node) : node := Element "value" [n].

Definition member_node (key : string) (n : node) : node :=
  Element "member" [Element "name" (text_kids key); value_node n].

Fixpoint node_of (v : jsval) : node :=
  match v with
  | JString s => Element "string" (text_kids s)
  | JNum n => Element (if isInteger n then "int" else "double") (text_kids (number_text n))
  | JArray elems =>
      Element "array" [Element "data" (map (fun e => value_node (node_of e)) elems)]
  | JObject props =>
      Element "struct" (map (fun kv => member_node (fst kv) (node_of (snd kv))) props)
  | _ => TextNode EmptyString
  end.

End XmlRpc.

(** ** Calls, multicalls and batchcalls (rtorrent.js, lines 125-163) *)

Module Rtorrent.
Import Js Dom XmlRpc.

Definition separator (c : ascii) : bool := Text.one_of ".,_=" c || Text.is_space c.

(** The [.] of a regular expression matches anything but a line terminator. *)
Definition dot (c : ascii) : bool := negb (Text.one_of (String "010" (String "013" "")) c).

(** [toCamelCase]: the pattern is a run of separators followed by an
    optional captured character.  A group that took no part in the match
    is given to the callback as the empty text here and as undefined in the
    source; the callback's test treats the two alike. *)
Definition camel_pattern : list Pat.item :=
  [Pat.Plus separator; Pat.Open; Pat.Opt dot; Pat.Close].

Definition camel_callback : string -> list string -> string :=
  fun _ caps =>
    match caps with
    | chr :: _ => if String.eqb chr "" then "" else toUpperCase chr
    | [] => ""
    end.

Definition toCamelCase (str : string) : string :=
  Pat.replace_all camel_pattern camel_callback (toLowerCase str).

(** Camel-casing as the design document words it: every run of separators
    is dropped and the character that follows a run is capitalized.
    [after_run] tells whether the previous character was a separator. *)
Fixpoint camel_spec (after_run : bool) (s : string) : string :=
  match s with
  | EmptyString => EmptyString
  | String c s' =>
      if separator c then camel_spec true s'
      else String (if after_run then Text.to_upper c else c) (camel_spec false s')
  end.

(** The part of the pattern behind the run, and the replacement from a
    given position, named for the proofs. *)
Definition tail_pattern : list Pat.item := [Pat.Open; Pat.Opt dot; Pat.Close].

Definition replace_camel : nat -> string -> string :=
  Pat.replace_from camel_pattern camel_callback.

(** What the pattern takes after a first separator: the captured character
    and the number of characters, for the rest of the run and one more
    character if there is one. *)
Fixpoint scan (s : string) : string * nat :=
  match s with
  | EmptyString => (EmptyString, 0)
  | String b t =>
      if separator b then (fst (scan t), S (snd (scan t)))
      else if dot b then (String b EmptyString, 1)
      else (EmptyString, 0)
  end.

(** What the [rtorrent_rpc] method of the rpcd plugin answers: an object
    with an [error] text, an [xml] text, or neither. *)
Record reply := Reply {
  error : option string;
  xml : option string
}.

(** An asynchronous method is a computation that may call the transport;
    the documents handed to it are logged in order. *)
Definition async (A : Type) : Type := list string -> res A * list string.

Definition ret {A} (a : A) : async A := fun log => (Ok a, log).

Definition lift {A} (r : res A) : async A := fun log => (r, log).

Definition await {A B} (m : async A) (k : A -> async B) : async B :=
  fun log =>
    match m log with
    | (Ok a, log') => k a log'
    | (Throw e, log') => (Throw e, log')
    end.

Definition result_of {A} (m : async A) : res A := fst (m []).
Definition requests_of {A} (m : async A) : list string := snd (m []).

Section Methods.

(** [rtorrentRpc], the declared ubus call. *)
Variable rtorrentRpc : string -> reply.

Definition call_rpc (doc : string) : async reply :=
  fun log => (Ok (rtorrentRpc doc), log ++ [doc]).

Definition rtorrentCall (method : string) (params : list jsval) : async jsval :=
  await (lift (encodeXmlRpc method params)) (fun doc =>
  await (call_rpc doc) (fun response =>
    match error response with
    | Some _ => ret (JArray [JArray []])
    | None =>
        (* an absent [xml] reaches the parser as the text of undefined *)
        lift (decodeXmlRpc (parseFromString (default "undefined" (xml response))))
    end)).

Definition multicall_method (methodType : string) : string :=
  if String.eqb methodType "d." then "d.multicall2" else methodType +:+ "multicall".

Definition complete_command (methodType cmd : string) : string :=
  methodType +:+ cmd +:+ (if includes "=" cmd then "" else "=").

(** [commands.forEach((key, i) => object[toCamelCase(key)] = result[i])],
    from position [i] on. *)
Fixpoint fill_row (result : jsval) (i : nat) (commands : list string)
    (object : Props.props) : res Props.props :=
  match commands with
  | [] => Ok object
  | key :: commands' =>
      let* v := Props.at_index result i in
      fill_row result (S i) commands' (Props.set (toCamelCase key) v object)
  end.

(** [results.map(f)] where [results] came out of the decoder: only an array
    has a [map] to call. *)
Definition array_map (results : jsval) (f : jsval -> res jsval) : res jsval :=
  match results with
  | JArray rows => let* rows' := mapM f rows in Ok (JArray rows')
  | _ => Throw TypeError
  end.

Definition rtorrentMulticall (methodType hash filter : string) (commands : list string)
  : async jsval :=
  let method := multicall_method methodType in
  let completeCommands := map (complete_command methodType) commands in
  await (rtorrentCall method
           (JString hash :: JString filter :: map JString completeCommands))
    (fun results =>
       lift (array_map results (fun result =>
               let* object := fill_row result 0 commands [] in
               Ok (JObject object)))).

(** One entry of the [methods] array of [rtorrentBatchcall]. *)
Definition batch_params (hash cmd : string) : res (list string) :=
  if includes "=" cmd then
    match split "=" cmd !! 1 with
    | Some value => Ok (hash :: split "," value)
    | None => Throw TypeError
    end
  else Ok [hash].

Definition batch_method (methodType hash cmd : string) : res jsval :=
  let* params := batch_params hash cmd in
  Ok (JObject [("methodName", JString (methodType +:+ default "undefined" (split "=" cmd !! 0)));
               ("params", JArray (map JString params))]).

(** [(result.length === 1) ? result[0] : result] *)
Definition unwrap_single (result : jsval) : res jsval :=
  let* len := Props.length_of result in
  match len with
  | JNum (NInt 1) => Props.at_index result 0
  | _ => Ok result
  end.

(** [results.forEach((result, i) => object[toCamelCase(commands[i])] = ...)],
    from position [i] on; [commands[i]] past the end is undefined, which
    [toCamelCase] cannot lower-case. *)
Fixpoint remap (commands : list string) (i : nat) (results : list jsval)
    (object : Props.props) : res Props.props :=
  match results with
  | [] => Ok object
  | result :: results' =>
      match commands !! i with
      | None => Throw TypeError
      | Some cmd =>
          let* v := unwrap_single result in
          remap commands (S i) results' (Props.set (toCamelCase cmd) v object)
      end
  end.

Definition remap_results (commands : list string) (results : jsval) : res jsval :=
  match results with
  | JArray rs => let* object := remap commands 0 rs [] in Ok (JObject object)
  | _ => Throw TypeError
  end.

Definition rtorrentBatchcall (methodType hash : string) (commands : list string)
  : async jsval :=
  await (lift (mapM (batch_method methodType hash) commands)) (fun methods =>
  await (rtorrentCall "system.multicall" [JArray methods]) (fun results =>
    lift (remap_results commands results))).

End Methods.

(** *** Auxiliary notions for the properties below *)

(** One string parameter of a call document. *)
Definition string_param (s : string) : string :=
  wrap_param ("<string>" +:+ escapeXml s +:+ "</string>").

(** The row that [fill_row] builds from a result without elements. *)
Definition blank_row (commands : list string) (object : Props.props) : Props.props :=
  fold_left (fun o key => Props.set (toCamelCase key) JUndefined o) commands object.

(** The remapping as the design document words it: a one-element sequence
    stands for its single bare element, any other result for itself, and
    each result is stored under the camel-cased name of its command. *)
Definition bare (result : jsval) : jsval :=
  match result with
  | JArray [x] => x
  | _ => result
  end.

Definition store (object : Props.props) (entry : string * jsval) : Props.props :=
  Props.set (toCamelCase (fst entry)) (bare (snd entry)) object.

Definition is_sequence (v : jsval) : Prop := exists elems, v = JArray elems.

(** A value whose properties can be read. *)
Definition present (v : jsval) : Prop := v <> JUndefined /\ v <> JNull.

(** A transport that fails every call the way the relay does without a
    configured port. *)
Definition refusing : string -> reply := fun _ => Reply (Some "No scgi port") None.

End Rtorrent.

(** ** The SCGI relay (luci.rtorrent, [methods.rtorrent_rpc.call]) *)

Module Relay.

Definition LF : ascii := "010"%char.
Definition CR : ascii := "013"%char.

(** The surroundings of one call: the text of [/root/.rtorrent.rc] ([None]
    when it cannot be read), and for each address and port either a refused
    connection or the bytes that the peer writes.  What the peer does after
    its last byte is not part of the surroundings but an argument of the
    functions below: it closes its end, or it stays silent with the
    connection open.  No timeout is set on the socket, so on a silent peer a
    read that runs out of bytes never returns.  A peer that never stops
    writing is not described. *)
Record world := World {
  config : option string;
  peer : string -> string -> option string
}.

(** What [call] hands back: a table and an optional exit code, or a Lua
    error raised out of the function; or nothing, when it waits in a read
    for bytes that never come. *)
Inductive outcome :=
| Returned (result : gmap string string) (code : option nat)
| Raised (message : string)
| Blocked.

Record trace := Trace {
  outcome_of : outcome;
  sent : list string          (* the arguments of [sock:send], in order *)
}.

(** *** Lua built-ins *)

(** [tostring] of the result of [fs.readfile]. *)
Definition tostring (v : option string) : string := default "nil" v.

(** A whole number under [..]: Lua prints numbers with [%.14g], which for
    the length of a string that fits in memory is its decimal digits. *)
Definition length_text (n : nat) : string := Text.decimal n.

Definition lower : string -> string := Text.map_chars Text.to_lower.

(** The patterns of the source.  [%s] is [isspace], [%d] is [isdigit] and
    [.] is any character. *)
Definition scgi_port_pattern : list Pat.item :=
  [Pat.lit LF; Pat.Star Text.is_space] ++ Pat.lits "scgi_port"
    ++ [Pat.Star Text.is_space; Pat.lit "="; Pat.Star Text.is_space;
        Pat.Open; Pat.Plus (fun c => negb (Ascii.eqb c ":")); Pat.Close;
        Pat.lit ":"; Pat.Open; Pat.Plus Text.is_digit; Pat.Close].

Definition header_pattern : list Pat.item :=
  [Pat.Open; Pat.Lazy Pat.any; Pat.Close; Pat.lit ":"; Pat.Star Text.is_space;
   Pat.Open; Pat.Star Pat.any; Pat.Close].

Definition status_pattern : list Pat.item :=
  [Pat.Open; Pat.One Text.is_digit; Pat.One Text.is_digit; Pat.One Text.is_digit;
   Pat.Close].

(** [s:match(p)] without anchor, and [socket.skip(2, s:find(p))] with one:
    the captures, or nothing when there is no match. *)
Definition lua_match (p : list Pat.item) (s : string) : option (list string) :=
  snd <$> Pat.search p s.

Definition find_anchored (p : list Pat.item) (s : string) : option (list string) :=
  snd <$> Pat.match_here p s.

(** A text as a number ([lua_isnumber] on a string): optional white space
    around a signed decimal literal with optional fraction and exponent, or
    around an unsigned hexadecimal integer.  The value is
    [mantissa * 10 ^ exp10], negated when the flag is set.  Signed
    hexadecimal literals and the spellings of infinity and NaN that some C
    libraries read are left out. *)
Definition decimal_number (neg : bool) (u : string) : option (bool * N * Z) :=
  let '(int, r1) := Text.span Text.is_digit u in
  let '(frac, r2) :=
    match r1 with
    | String "." r => Text.span Text.is_digit r
    | _ => (EmptyString, r1)
    end in
  if String.eqb (int +:+ frac) "" then None
  else
    (fun e => (neg, Text.digits_value 0 (int +:+ frac),
               (e - Z.of_nat (String.length frac))%Z)) <$> Text.exponent r2.

Definition str2number (s : string) : option (bool * N * Z) :=
  let t := Js.trim s in
  match t with
  | String "0" (String x ds) =>
      if Text.one_of "xX" x then
        if String.eqb ds "" then None
        else (fun v => (false, v, 0%Z)) <$> Text.radix_value 16 0 ds
      else decimal_number false t
  | String "-" u => decimal_number true u
  | String "+" u => decimal_number false u
  | _ => decimal_number false t
  end.

(** The whole part of a number that is not negative. *)
Definition whole_part (n : bool * N * Z) : option N :=
  let '(neg, m, e) := n in
  if neg && negb (m =? 0)%N then None
  else if (0 <=? e)%Z then Some (m * 10 ^ Z.to_N e)%N
  else Some (m / 10 ^ Z.to_N (- e))%N.

(** [tonumber(code) ~= 200] for a text [code]. *)
Definition is_200 (code : string) : bool :=
  match str2number code with
  | Some (false, m, e) =>
      if (0 <=? e)%Z then (m * 10 ^ Z.to_N e =? 200)%N
      else (m =? 200 * 10 ^ Z.to_N (- e))%N
  | _ => false
  end.

(** *** The socket *)

Inductive received :=
| Data (data : string) (rest : string)
| Failed (err : string)
| Waits.

(** A read on a stream without bytes left: the error ["closed"] when the
    peer has closed its end, and no return when it has not. *)
Definition drained (closes : bool) : received :=
  if closes then Failed "closed" else Waits.

(** [sock:receive("*l")]: the bytes up to the next LF, every CR dropped. *)
Fixpoint receive_line (closes : bool) (acc : list ascii) (inbound : string) : received :=
  match inbound with
  | EmptyString => drained closes
  | String c rest =>
      if Ascii.eqb c LF then Data (string_of_list_ascii (rev acc)) rest
      else if Ascii.eqb c CR then receive_line closes acc rest
      else receive_line closes (c :: acc) rest
  end.

(** [sock:receive(n)]: the read asks the stream for bytes before it looks
    at how many it still needs, so on a stream without bytes left it does not
    return the empty text even for [n = 0]. *)
Definition receive_bytes (closes : bool) (n : N) (inbound : string) : received :=
  match inbound with
  | EmptyString => drained closes
  | _ =>
      if (n <=? N.of_nat (String.length inbound))%N
      then Data (Text.take (N.to_nat n) inbound) (Text.drop (N.to_nat n) inbound)
      else drained closes
  end.

(** [sock:receive("*a")]: everything up to the close. *)
Definition receive_all (closes : bool) (inbound : string) : received :=
  if closes then
    match inbound with
    | EmptyString => Failed "closed"
    | _ => Data inbound EmptyString
    end
  else Waits.

(** [sock:receive(pattern)]: no pattern reads a line; a number, or a text
    that reads as one, asks for that many bytes and must not be negative;
    ["*l"] and ["*a"] read a line and everything; anything else is refused
    with an argument error ([None]). *)
Definition receive (closes : bool) (pattern : option string) (inbound : string)
  : option received :=
  match pattern with
  | None => Some (receive_line closes [] inbound)
  | Some p =>
      match str2number p with
      | Some n => (fun wanted => receive_bytes closes wanted inbound) <$> whole_part n
      | None =>
          if String.prefix "*l" p then Some (receive_line closes [] inbound)
          else if String.prefix "*a" p then Some (receive_all closes inbound)
          else None
      end
  end.

(** *** The call *)

Definition null : string := String "000" EmptyString.

Definition content_length (xml : string) : string :=
  "CONTENT_LENGTH" +:+ null +:+ length_text (String.length xml) +:+ null.
Definition scgi_enable : string := "SCGI" +:+ null +:+ "1" +:+ null.
Definition request_method : string := "REQUEST_METHOD" +:+ null +:+ "POST" +:+ null.
Definition server_protocol : string := "SERVER_PROTOCOL" +:+ null +:+ "HTTP/1.1" +:+ null.

Definition header (xml : string) : string :=
  content_length xml +:+ scgi_enable +:+ request_method +:+ server_protocol.

Definition request (xml : string) : string :=
  length_text (String.length (header xml)) +:+ ":" +:+ header xml +:+ "," +:+ xml.

Definition failure (message : string) : outcome :=
  Returned {[ "error" := message ]} (Some 1).

(** [{ xml = body }]: a field set to nil is no field. *)
Definition success (body : option string) : outcome :=
  Returned (match body with
            | Some b => {[ "xml" := b ]}
            | None => ∅
            end) None.

(** The loop that reads the response headers, entered with the first line
    already read.  Every turn takes at least the line feed of the next line
    off the stream; [fuel] bounds the turns. *)
Fixpoint read_headers (fuel : nat) (closes : bool) (headers : gmap string string)
    (line : string) (inbound : string)
  : option (outcome + gmap string string * string) :=
  match fuel with
  | 0 => None
  | S fuel' =>
      if String.eqb line "" then Some (inr (headers, inbound))
      else
        match find_anchored header_pattern line with
        | Some [name; value] =>
            let headers' := <[ lower name := value ]> headers in
            match receive_line closes [] inbound with
            | Data line' inbound' => read_headers fuel' closes headers' line' inbound'
            | Failed err => Some (inl (failure err))
            | Waits => Some (inl Blocked)
            end
        | _ => Some (inl (failure ("Malformed reponse header: " +:+ line)))
        end
  end.

(** Lines 43-46: the body is read before the status is looked at. *)
Definition finish (closes : bool) (headers : gmap string string) (inbound : string)
  : outcome :=
  match receive closes (headers !! "content-length") inbound with
  | None => Raised "bad argument #1 to 'receive' (invalid receive pattern)"
  | Some Waits => Blocked
  | Some r =>
      let body := match r with Data b _ => Some b | _ => None end in
      match headers !! "status" with
      | None => Raised "attempt to index field 'status' (a nil value)"
      | Some status =>
          match find_anchored status_pattern status with
          | Some [code] =>
              if is_200 code then success body
              else failure ("Wrong response code: " +:+ code)
          | _ => Raised "attempt to concatenate local 'code' (a nil value)"
          end
      end
  end.

Definition resolve (w : world) : option (string * string) :=
  match lua_match scgi_port_pattern (String LF (tostring (config w))) with
  | Some [address; port] => Some (address, port)
  | _ => None
  end.

(** [call(args)] with [fuel] turns for the header loop, on a peer that
    closes its end after its bytes ([closes]) or stays silent; [args_xml] is
    [args.xml], which the dispatcher lets be absent. *)
Definition call_with (fuel : nat) (closes : bool) (w : world) (args_xml : option string)
  : option trace :=
  match resolve w with
  | None => Some (Trace (failure "No scgi port") [])
  | Some (address, port) =>
      match peer w address port with
      | None => Some (Trace (failure "Socket connect failed") [])
      | Some inbound =>
          match args_xml with
          | None => Some (Trace (Raised "attempt to index field 'xml' (a nil value)") [])
          | Some xml =>
              let out := [request xml] in
              match receive_line closes [] inbound with
              | Failed err => Some (Trace (failure err) out)
              | Waits => Some (Trace Blocked out)
              | Data line inbound' =>
                  match read_headers fuel closes ∅ line inbound' with
                  | None => None
                  | Some (inl stop) => Some (Trace stop out)
                  | Some (inr (headers, rest)) =>
                      Some (Trace (finish closes headers rest) out)
                  end
              end
          end
      end
  end.

(** Enough turns for any response: one per byte the peer can send, and one
    more. *)
Definition turns (w : world) : nat :=
  match resolve w with
  | Some (address, port) => S (String.length (default "" (peer w address port)))
  | None => 1
  end.

(** The call on a peer that stays silent after its bytes, and on one that
    closes its end. *)
Definition call_on (closes : bool) (w : world) (args_xml : option string) : option trace :=
  call_with (turns w) closes w args_xml.

Definition call (w : world) (args_xml : option string) : option trace :=
  call_on true w args_xml.

(** *** Sample surroundings

    A configuration that names the daemon at 127.0.0.1:5000, and a daemon
    there that answers every connection with [response]. *)
Definition newline : string := String LF EmptyString.
Definition crlf : string := String CR (String LF EmptyString).

Definition sample_config : string :=
  "directory = /mnt/torrents" +:+ newline +:+ "scgi_port = 127.0.0.1:5000" +:+ newline.

Definition daemon (response : string) : world :=
  World (Some sample_config)
        (fun address port =>
           if String.eqb address "127.0.0.1" && String.eqb port "5000"
           then Some response else None).

(** The header block and the message as the design document spells them,
    with [NUL] for the byte of value 0 that it writes between and behind the
    names and the values. *)
Definition NUL : string := String (ascii_of_nat 0) EmptyString.

Definition spec_header_block (body : string) : string :=
  "CONTENT_LENGTH" +:+ NUL +:+ Text.decimal (String.length body) +:+ NUL
    +:+ "SCGI" +:+ NUL +:+ "1" +:+ NUL
    +:+ "REQUEST_METHOD" +:+ NUL +:+ "POST" +:+ NUL
    +:+ "SERVER_PROTOCOL" +:+ NUL +:+ "HTTP/1.1" +:+ NUL.

Definition spec_message (body : string) : string :=
  Text.decimal (String.length (spec_header_block body)) +:+ ":"
    +:+ spec_header_block body +:+ "," +:+ body.

End Relay.

(** ** Shapes of values and documents

    Notions that the properties of the codec speak about: the values that
    the encoder can write, the tree of a call document, and a tree without
    the text that the decoder never reads. *)

Module Shapes.
Import Js Dom XmlRpc.

(** The error that stops [encodeXmlRpcParam] on a value: that of the first
    part, in the order in which the encoder goes through the value, that it
    cannot write.  Null is a TypeError (from [Object.entries(null)]) and a
    date without a time value in range a RangeError (from [toISOString]). *)
Definition first_error {A} (g : A -> option exn) : list A -> option exn :=
  fix go (l : list A) : option exn :=
    match l with
    | [] => None
    | a :: l' =>
        match g a with
        | Some e => Some e
        | None => go l'
        end
    end.

Fixpoint failure_of (v : jsval) : option exn :=
  match v with
  | JNull => Some TypeError
  | JDate None => Some RangeError
  | JDate (Some ms) =>
      if (Z.abs ms <=? 8640000000000000)%Z then None else Some RangeError
  | JArray elems => first_error failure_of elems
  | JObject props => first_error (fun kv => failure_of (snd kv)) props
  | _ => None
  end.

(** A text that can stand in a document as it is: no reserved character,
    no carriage return, no control character. *)
Definition verbatim (s : string) : bool :=
  Text.all_chars (fun c => safe_char c && negb (reserved c)) s.

(** The tree of the document that [encodeXmlRpc] writes for plain
    parameters. *)
Definition param_node (v : jsval) : node := Element "param" [value_node (node_of v)].

Definition call_tree (method : string) (params : list jsval) : node :=
  Element "methodCall"
    [Element "methodName" (text_kids method); Element "params" (map param_node params)].

(** The tags whose text children [decodeXmlRpc] never reads, and a tree
    without the text children of such elements. *)
Definition container_tags : list string := wrapper_tags ++ ["data"; "struct"; "member"].

Fixpoint prune (n : node) : node :=
  match n with
  | Element t kids =>
      if tag_in t container_tags then
        Element t
          ((fix go (l : list node) : list node :=
              match l with
              | [] => []
              | k :: l' => if is_element k then prune k :: go l' else go l'
              end) kids)
      else n
  | TextNode _ => n
  end.

Fixpoint prune_kids (kids : list node) : list node :=
  match kids with
  | [] => []
  | k :: kids' => if is_element k then prune k :: prune_kids kids' else prune_kids kids'
  end.

(** The characters that delimit tags and attribute values. *)
Definition markup (c : ascii) : bool :=
  Text.one_of (String "<" (String ">" (String "'" (String dquote "")))) c.

(** A member of a [struct] as a triple: its name, the node in its [value],
    and what that node decodes to. *)
Definition entry_of (m : string * node * jsval) : string * jsval := (fst (fst m), snd m).

Definition member_of (m : string * node * jsval) : node := member_node (fst (fst m)) (snd (fst m)).

Definition store_entry (o : Props.props) (kv : string * jsval) : Props.props :=
  Props.set (fst kv) (snd kv) o.

(** What pruning keeps of a node, as the induction over the tree needs it. *)
Definition keeps (n : node) : Prop :=
  decodeXmlRpc (prune n) = decodeXmlRpc n
  /\ (forall tag, select_in tag decodeXmlRpc (prune n) = select_in tag decodeXmlRpc n)
  /\ first_in "name" (prune n) = first_in "name" n.

End Shapes.

(** ** Transports, commands and response documents *)

Module Calls.
Import Js Dom XmlRpc Rtorrent.

(** A transport that answers every document with an empty object. *)
Definition silent : string -> reply := fun _ => Reply None None.

(** A transport that answers every document with the same text. *)
Definition answering (text : string) : string -> reply := fun _ => Reply None (Some text).

(** The text up to the first occurrence of [c]. *)
Fixpoint before (c : ascii) (s : string) : string :=
  match s with
  | EmptyString => EmptyString
  | String a s' => if Ascii.eqb a c then EmptyString else String a (before c s')
  end.

(** The text behind the first occurrence of [c]. *)
Fixpoint behind (c : ascii) (s : string) : string :=
  match s with
  | EmptyString => EmptyString
  | String a s' => if Ascii.eqb a c then s' else behind c s'
  end.

(** One entry of the [methods] array, by the parts of its command. *)
Definition batch_entry (methodType hash cmd : string) : jsval :=
  JObject [("methodName", JString (methodType +:+ before "=" cmd));
           ("params",
            JArray (map JString
                      (hash :: (if includes "=" cmd
                                then split "," (before "=" (behind "=" cmd))
                                else []))))].

(** The arguments that [rtorrentMulticall] hands to [rtorrentCall]. *)
Definition multicall_params (methodType hash filter : string) (commands : list string)
  : list jsval :=
  JString hash :: JString filter :: map JString (map (complete_command methodType) commands).

(** Command [i] is the last one with its name. *)
Definition last_of_name (commands : list string) (i : nat) (cmd : string) : Prop :=
  forall i' cmd', i < i' -> commands !! i' = Some cmd' -> toCamelCase cmd' <> toCamelCase cmd.

(** The document of a response that carries one value, as a text around
    the encoding of the value and as a tree around its node. *)
Definition response_text (x : string) : string :=
  "<methodResponse><params><param><value>" +:+ x
    +:+ "</value></param></params></methodResponse>".

Definition response_tree (n : node) : node :=
  Element "methodResponse" [Element "params" [Element "param" [value_node n]]].

(** The state of [camel_spec] after [s]: whether [s] ends in a separator. *)
Fixpoint ends_in_run (b : bool) (s : string) : bool :=
  match s with
  | EmptyString => b
  | String c s' => ends_in_run (separator c) s'
  end.

End Calls.

(** ** Responses on the wire and states of the matcher *)

Module Wire.
Import Relay.

(** The matcher state after the characters of [s] went by. *)
Fixpoint eats (s : string) (st : Pat.mstate) : Pat.mstate :=
  match s with
  | EmptyString => st
  | String a s' => eats s' (Pat.eat a st)
  end.

(** Whether a text starts with a character of a class. *)
Definition starts_with (cls : ascii -> bool) (s : string) : bool :=
  match s with
  | String c _ => cls c
  | EmptyString => false
  end.

(** A character that is no part of a line end. *)
Definition in_line (c : ascii) : bool := negb (Ascii.eqb c LF) && negb (Ascii.eqb c CR).

(** A response header as the daemon writes it: a name without colon, a
    value that does not start with white space, neither with a line end in
    it. *)
Definition field_ok (f : string * string) : bool :=
  negb (Text.contains ":" (fst f))
    && Text.all_chars in_line (fst f)
    && Text.all_chars in_line (snd f)
    && negb (starts_with Text.is_space (snd f)).

Definition field_line (f : string * string) : string :=
  fst f +:+ ": " +:+ snd f +:+ crlf.

Definition header_block (fields : list (string * string)) : string :=
  Text.concat_all (map field_line fields).

(** A response: the header lines, an empty line, and the bytes behind. *)
Definition response (fields : list (string * string)) (payload : string) : string :=
  header_block fields +:+ crlf +:+ payload.

(** The table that the header loop builds: a later field of the same
    lower-cased name replaces an earlier one. *)
Definition table_into (headers : gmap string string) (fields : list (string * string))
  : gmap string string :=
  fold_left (fun m f => <[ lower (fst f) := snd f ]> m) fields headers.

Definition table_of (fields : list (string * string)) : gmap string string :=
  table_into ∅ fields.

(** Whether a read of [n] bytes finds them: the stream still holds a byte,
    and at least [n]. *)
Definition holds (n : nat) (payload : string) : bool :=
  negb (String.eqb payload "") && (n <=? String.length payload).

(** The answers that [call] returns: an error text with the exit code 1,
    or a table with the document or with nothing and no exit code. *)
Definition answer (o : outcome) : Prop :=
  match o with
  | Returned result code =>
      (code = Some 1 /\ exists message, result = {[ "error" := message ]})
      \/ (code = None /\ (result = ∅ \/ exists body, result = {[ "xml" := body ]}))
  | Raised _ | Blocked => True
  end.

(** The class of the colon, and the rest of the header pattern behind the
    name. *)
Definition colon (c : ascii) : bool := Ascii.eqb ":" c.

Definition after_name : Pat.cont :=
  Pat.run [Pat.Close; Pat.lit ":"; Pat.Star Text.is_space;
           Pat.Open; Pat.Star Pat.any; Pat.Close].

(** The items in front of the first capture: single characters and greedy
    runs. *)
Definition plain_item (i : Pat.item) : bool :=
  match i with
  | Pat.One _ | Pat.Star _ => true
  | _ => false
  end.

(** The class [[^:]], and the two halves of the pattern of the setting. *)
Definition no_colon_char (c : ascii) : bool := negb (Ascii.eqb c ":").

Definition setting_prefix : list Pat.item :=
  [Pat.lit LF; Pat.Star Text.is_space] ++ Pat.lits "scgi_port"
    ++ [Pat.Star Text.is_space; Pat.lit "="; Pat.Star Text.is_space].

Definition setting_captures : list Pat.item :=
  [Pat.Open; Pat.Plus no_colon_char; Pat.Close;
   Pat.lit ":"; Pat.Open; Pat.Plus Text.is_digit; Pat.Close].

(** A state with no capture closed or open. *)
Definition idle (st : Pat.mstate) : Prop := Pat.closed st = [] /\ Pat.opened st = None.

End Wire.

(** ** The dispatcher (luci.rtorrent, [validate_args] and the [call] branch) *)

Module Dispatch.
Import Relay.

(** What the dispatcher looks at in a value of the parsed input: its type,
    and the text of a string. *)
Inductive lval :=
| VBoolean
| VNumber
| VString (text : string)
| VTable.

Inductive lua_type := TBoolean | TNumber | TString | TTable.

Definition type_of (v : lval) : lua_type :=
  match v with
  | VBoolean => TBoolean
  | VNumber => TNumber
  | VString _ => TString
  | VTable => TTable
  end.

Definition type_eqb (a b : lua_type) : bool :=
  match a, b with
  | TBoolean, TBoolean | TNumber, TNumber | TString, TString | TTable, TTable => true
  | _, _ => false
  end.

(** A key of a table that came out of the JSON parser: the name of an
    object member, or the position of an array element. *)
Definition key : Type := string + positive.

(** The parsed input: a table, or anything else (nil, a boolean, a number,
    a string). *)
Inductive input :=
| Table (fields : gmap key lval)
| Scalar.

(** [methods[func].args] for the one method there is: [{ xml = "xml" }]. *)
Definition method_args (func : option string) : option (gmap key lval) :=
  match func with
  | Some name =>
      if String.eqb name "rtorrent_rpc" then Some {[ inl "xml" := VString "xml" ]} else None
  | None => None
  end.

(** The test of the loop over [pairs(uargs)]:
    [margs[k] == nil or (v ~= nil and type(v) ~= type(margs[k]))], for a
    value that is there. *)
Definition refused (margs : gmap key lval) (k : key) (v : lval) : bool :=
  match margs !! k with
  | None => true
  | Some m => negb (type_eqb (type_of v) (type_of m))
  end.

(** [validate_args]: the text of the error that it prints before it exits
    with 1, or the arguments as it leaves them for the method. *)
Definition validate_args (func : option string) (uargs : input)
  : string + gmap key lval :=
  match method_args func with
  | None => inl "Method not found"
  | Some margs =>
      match uargs with
      | Scalar => inl "Invalid arguments"
      | Table fields =>
          let fields' := delete (inl "ubus_rpc_session") fields in
          if existsb (fun kv => refused margs (fst kv) (snd kv)) (map_to_list fields')
          then inl "Invalid arguments"
          else inr fields'
      end
  end.

(** How the program ends: a table printed as JSON with an exit status, or a
    Lua error that nothing catches; or not at all, when the call waits for
    bytes that never come. *)
Inductive ending :=
| Printed (table : gmap string string) (status : nat)
| Uncaught (message : string)
| Hangs.

(** [args.xml] as [call] reads it. *)
Definition xml_of (args : gmap key lval) : option string :=
  match args !! inl "xml" with
  | Some (VString text) => Some text
  | _ => None
  end.

(** The [call] branch of the program, from the parsed input on
    ([parse_input], which reads the standard input to its end, comes before
    it), on a peer that closes its end after its bytes or stays silent. *)
Definition run_call_on (closes : bool) (w : world) (func : option string) (uargs : input)
  : option ending :=
  match validate_args func uargs with
  | inl message => Some (Printed {[ "error" := message ]} 1)
  | inr args =>
      match call_on closes w (xml_of args) with
      | Some (Trace (Returned result code) _) => Some (Printed result (default 0 code))
      | Some (Trace (Raised message) _) => Some (Uncaught message)
      | Some (Trace Blocked _) => Some Hangs
      | None => None
      end
  end.

Definition run_call (w : world) (func : option string) (uargs : input) : option ending :=
  run_call_on true w func uargs.

End Dispatch.

(** * Properties *)

(** ** Splitting and joining text *)

Module TextFacts.
Import Js.

(** A property of characters that holds for all 256 of them. *)
Lemma ascii_forall (P : ascii -> bool) :
  forallb (fun n => P (ascii_of_nat n)) (seq 0 256) = true -> forall c, P c = true.
Proof.
  intros H c. rewrite forallb_forall in H.
  rewrite <- (ascii_nat_embedding c). apply H, in_seq.
  pose proof (nat_ascii_bounded c). lia.
Qed.

Lemma append_cons a (s t : string) : String a s +:+ t = String a (s +:+ t).
Proof. reflexivity. Qed.

Lemma append_nil (t : string) : "" +:+ t = t.
Proof. reflexivity. Qed.

Lemma append_empty (s : string) : s +:+ "" = s.
Proof.
  induction s as [| a s IH]; [reflexivity |]. now rewrite append_cons, IH.
Qed.

Lemma append_assoc (a b c : string) : (a +:+ b) +:+ c = a +:+ (b +:+ c).
Proof.
  induction a as [| x a IH]; [reflexivity |].
  rewrite !append_cons. now rewrite IH.
Qed.

Ltac norm_append :=
  repeat (rewrite append_cons || rewrite append_nil).
Ltac norm_append_in H :=
  repeat (rewrite append_cons in H || rewrite append_nil in H).
Ltac same_text := rewrite ?append_assoc; norm_append; reflexivity.

Lemma contains_append c s t :
  Text.contains c (s +:+ t) = Text.contains c s || Text.contains c t.
Proof.
  induction s as [| a s IH]; [reflexivity |].
  rewrite append_cons. cbn. now rewrite IH, orb_assoc.
Qed.

Lemma split_acc_plain c s : forall cur,
  Text.contains c s = false ->
  split_acc c cur s = [string_of_list_ascii (rev cur ++ list_ascii_of_string s)].
Proof.
  induction s as [| a s IH]; intros cur H; cbn in *.
  - now rewrite app_nil_r.
  - apply orb_false_iff in H as [Ha Hs]. rewrite Ha, IH by assumption.
    cbn. now rewrite <- app_assoc.
Qed.

Lemma split_acc_first c s rest : forall cur,
  Text.contains c s = false ->
  split_acc c cur (s +:+ String c rest)
  = string_of_list_ascii (rev cur ++ list_ascii_of_string s) :: split_acc c [] rest.
Proof.
  induction s as [| a s IH]; intros cur H.
  - rewrite append_nil. cbn. now rewrite Ascii.eqb_refl, app_nil_r.
  - rewrite append_cons. cbn in *.
    apply orb_false_iff in H as [Ha Hs]. rewrite Ha, IH by assumption.
    cbn. now rewrite <- app_assoc.
Qed.

Lemma split_plain c s : Text.contains c s = false -> split c s = [s].
Proof.
  intros H. unfold split. rewrite split_acc_plain by assumption.
  cbn. now rewrite string_of_list_ascii_of_string.
Qed.

Lemma split_first c s rest :
  Text.contains c s = false -> split c (s +:+ String c rest) = s :: split c rest.
Proof.
  intros H. unfold split. rewrite split_acc_first by assumption.
  cbn. now rewrite string_of_list_ascii_of_string.
Qed.

End TextFacts.

(** ** Camel-casing *)

Module CamelFacts.
Import Js Rtorrent.

Lemma separator_of_terminator c : dot c = false -> separator c = true.
Proof.
  unfold dot, separator. rewrite negb_false_iff. cbn [Text.one_of existsb list_ascii_of_string].
  rewrite !orb_false_r. intros H. apply orb_true_iff in H as [H | H];
    apply Ascii.eqb_eq in H; subst c; reflexivity.
Qed.

Lemma tail_run s st :
  Pat.opened st = None ->
  Pat.run tail_pattern s st
  = Some (Pat.MState
            ((match s with
              | String b _ => if dot b then String b EmptyString else EmptyString
              | EmptyString => EmptyString
              end) :: Pat.closed st)
            None
            (match s with
             | String b _ => if dot b then S (Pat.used st) else Pat.used st
             | EmptyString => Pat.used st
             end)).
Proof.
  intros Hop. destruct st as [cl op us]. cbn in Hop. subst op.
  destruct s as [| b t]; cbn; [reflexivity |].
  unfold Pat.optional, Pat.single. destruct (dot b); reflexivity.
Qed.

Lemma greedy_run s : forall st,
  Pat.opened st = None ->
  Pat.greedy separator (Pat.run tail_pattern) s st
  = Some (Pat.MState (fst (scan s) :: Pat.closed st) None (snd (scan s) + Pat.used st)).
Proof.
  induction s as [| b t IH]; intros st Hop.
  - cbn [Pat.greedy scan fst snd]. rewrite tail_run by assumption. reflexivity.
  - cbn [Pat.greedy scan]. destruct (separator b) eqn:Hb.
    + rewrite IH by (destruct st; cbn in *; subst; reflexivity).
      destruct st as [cl op us]; cbn in *. subst op.
      do 2 f_equal. lia.
    + rewrite tail_run by assumption.
      destruct (dot b) eqn:Hd; cbn [fst snd].
      * reflexivity.
      * apply separator_of_terminator in Hd. congruence.
Qed.

Lemma run_camel_pattern s st :
  Pat.run camel_pattern s st
  = Pat.single separator (Pat.greedy separator (Pat.run tail_pattern)) s st.
Proof. reflexivity. Qed.

Lemma match_camel a t :
  Pat.match_here camel_pattern (String a t)
  = if separator a then Some (S (snd (scan t)), [fst (scan t)]) else None.
Proof.
  unfold Pat.match_here. rewrite run_camel_pattern. unfold Pat.single.
  destruct (separator a); [| reflexivity].
  rewrite greedy_run by reflexivity. cbn. do 3 f_equal. lia.
Qed.

Lemma match_camel_empty : Pat.match_here camel_pattern EmptyString = None.
Proof. reflexivity. Qed.

Lemma replace_camel_cons a t :
  replace_camel 0 (String a t)
  = if separator a
    then camel_callback "" [fst (scan t)] +:+ replace_camel (snd (scan t)) t
    else String a (replace_camel 0 t).
Proof.
  unfold replace_camel at 1. cbn [Pat.replace_from]. rewrite match_camel.
  destruct (separator a); reflexivity.
Qed.

Lemma replace_camel_skip k a t : replace_camel (S k) (String a t) = replace_camel k t.
Proof. reflexivity. Qed.

(** The replacement computes the camel-casing of the design document. *)
Lemma replace_camel_spec s :
  replace_camel 0 s = camel_spec false s
  /\ forall a, separator a = true -> replace_camel 0 (String a s) = camel_spec true s.
Proof.
  induction s as [| b t [IHF IHG]].
  - split; [reflexivity |]. intros a Ha. rewrite replace_camel_cons, Ha. reflexivity.
  - split.
    + rewrite replace_camel_cons. cbn [camel_spec]. destruct (separator b) eqn:Hb.
      * rewrite <- (IHG b Hb), replace_camel_cons, Hb. reflexivity.
      * now rewrite IHF.
    + intros a Ha. rewrite replace_camel_cons, Ha. cbn [scan camel_spec].
      destruct (separator b) eqn:Hb; cbn [fst snd].
      * rewrite replace_camel_skip, <- (IHG b Hb), replace_camel_cons, Hb. reflexivity.
      * destruct (dot b) eqn:Hd.
        -- cbn [fst snd]. rewrite replace_camel_skip, IHF. reflexivity.
        -- apply separator_of_terminator in Hd. congruence.
Qed.

Lemma toCamelCase_spec str : toCamelCase str = camel_spec false (toLowerCase str).
Proof. exact (proj1 (replace_camel_spec (toLowerCase str))). Qed.

(** Capitalizing never produces a separator, so no separator survives. *)
Lemma to_upper_plain_codes :
  forallb (fun n => let c := ascii_of_nat n in
                    separator c || negb (separator (Text.to_upper c))) (seq 0 256) = true.
Proof. vm_compute. reflexivity. Qed.

Lemma to_upper_plain c : separator c = false -> separator (Text.to_upper c) = false.
Proof.
  intros Hc. pose proof to_upper_plain_codes as H.
  rewrite forallb_forall in H.
  specialize (H (nat_of_ascii c)). rewrite ascii_nat_embedding in H.
  cbn zeta in H. rewrite Hc in H. cbn [orb] in H.
  apply negb_true_iff, H, in_seq. pose proof (nat_ascii_bounded c). lia.
Qed.

Lemma camel_spec_plain s : forall b,
  Text.all_chars (fun c => negb (separator c)) (camel_spec b s) = true.
Proof.
  induction s as [| c s IH]; intros b; cbn; [reflexivity |].
  destruct (separator c) eqn:Hc; [apply IH |].
  cbn. rewrite IH, andb_true_r.
  destruct b; [now rewrite to_upper_plain | now rewrite Hc].
Qed.

Lemma toCamelCase_not_proto str : toCamelCase str <> "__proto__".
Proof.
  rewrite toCamelCase_spec. intros E.
  pose proof (camel_spec_plain (toLowerCase str) false) as H.
  rewrite E in H. discriminate H.
Qed.

End CamelFacts.

(** ** Own properties *)

Module PropsFacts.
Import Js Props.

Lemma eqb_neq (a b : string) : a <> b -> String.eqb a b = false.
Proof. intros H. now apply String.eqb_neq. Qed.

Lemma get_update_same k v o : has k o = true -> get k (update k v o) = Some v.
Proof.
  induction o as [| [k' v'] o IH]; cbn; [discriminate |].
  destruct (String.eqb k' k) eqn:E; cbn; rewrite E; [reflexivity | exact IH].
Qed.

Lemma get_update_other k k' v o : k' <> k -> get k' (update k v o) = get k' o.
Proof.
  intros Hne. induction o as [| [k0 v0] o IH]; cbn; [reflexivity |].
  destruct (String.eqb k0 k) eqn:E; cbn.
  - apply String.eqb_eq in E. subst k0.
    now rewrite (eqb_neq k k') by congruence.
  - now rewrite IH.
Qed.

Lemma get_add_same k v o : has k o = false -> get k (add k v o) = Some v.
Proof.
  induction o as [| [k' v'] o IH]; cbn; intros H.
  - now rewrite String.eqb_refl.
  - apply orb_false_iff in H as [Hk Ho].
    destruct (array_index k) as [i |];
      [destruct (array_index k') as [i' |]; [destruct (i <? i')%N |] |];
      cbn; rewrite ?String.eqb_refl, ?Hk; auto.
Qed.

Lemma get_add_other k k' v o : k' <> k -> get k' (add k v o) = get k' o.
Proof.
  intros Hne. pose proof (eqb_neq k k' ltac:(congruence)) as E.
  induction o as [| [k0 v0] o IH]; cbn.
  - now rewrite E.
  - destruct (array_index k) as [i |];
      [destruct (array_index k0) as [i' |]; [destruct (i <? i')%N |] |];
      cbn; rewrite ?E, ?IH; reflexivity.
Qed.

Lemma get_set_same k v o : k <> "__proto__" -> get k (set k v o) = Some v.
Proof.
  intros Hk. unfold set. rewrite (eqb_neq _ _ Hk).
  destruct (has k o) eqn:H; [now apply get_update_same | now apply get_add_same].
Qed.

Lemma get_set_other k k' v o : k' <> k -> get k' (set k v o) = get k' o.
Proof.
  intros Hne. unfold set. destruct (String.eqb k "__proto__"); [reflexivity |].
  destruct (has k o); [now apply get_update_other | now apply get_add_other].
Qed.

End PropsFacts.

(** ** Calls, multicalls and batchcalls *)

Module RtorrentFacts.
Import Js Dom XmlRpc Rtorrent Calls TextFacts.

Lemma encode_strings l :
  mapM (fun param => let* x := encodeXmlRpcParam param in Ok (wrap_param x))
       (map JString l)
  = Ok (map string_param l).
Proof. induction l as [| s l IH]; cbn; [reflexivity | now rewrite IH]. Qed.

Lemma encodeXmlRpc_strings method l :
  exists doc, encodeXmlRpc method (map JString l) = Ok doc.
Proof. unfold encodeXmlRpc. rewrite encode_strings. cbn. eauto. Qed.

(** One call: the document goes to the transport once, and the answer is
    the sentinel on an error reply and the decoded document otherwise. *)
Lemma rtorrentCall_run rpc method params doc log :
  encodeXmlRpc method params = Ok doc ->
  rtorrentCall rpc method params log
  = (match error (rpc doc) with
     | Some _ => Ok (JArray [JArray []])
     | None => decodeXmlRpc (parseFromString (default "undefined" (xml (rpc doc))))
     end, log ++ [doc]).
Proof.
  intros E. unfold rtorrentCall, await, lift, call_rpc, ret. rewrite E.
  destruct (error (rpc doc)); [reflexivity |].
  destruct (decodeXmlRpc _); reflexivity.
Qed.

(** C3 (as amended).  [toCamelCase("d.complete=")] is ["dComplete"] and
    [toCamelCase("t.get_url=")] is ["tGetUrl"]: the text is lower-cased, every
    run of the separators [.], [,], [_], [=] and white space is dropped and
    the character after a run is capitalized, so the namespace letter before
    the first separator stays.  Without the namespace the names of the design
    document come out: ["complete="] gives ["complete"] and ["get_url="]
    gives ["getUrl"]. *)
Theorem toCamelCase_examples :
  toCamelCase "d.complete=" = "dComplete"
  /\ toCamelCase "t.get_url=" = "tGetUrl"
  /\ toCamelCase "complete=" = "complete"
  /\ toCamelCase "get_url=" = "getUrl"
  /\ forall str, toCamelCase str = camel_spec false (toLowerCase str).
Proof.
  repeat split; try reflexivity. apply CamelFacts.toCamelCase_spec.
Qed.

(** C3 as stated fails: the two results are not ["complete"] and ["getUrl"]. *)
Lemma toCamelCase_keeps_namespace :
  toCamelCase "d.complete=" <> "complete" /\ toCamelCase "t.get_url=" <> "getUrl".
Proof. split; vm_compute; discriminate. Qed.

(** C7.  [rtorrentMulticall] sends exactly one document: the call of
    [d.multicall2] when [methodType] is ["d."] and of [methodType] followed
    by ["multicall"] otherwise, with the hash, the filter, and each command
    prefixed with [methodType] and followed by ["="] exactly when it holds no
    ["="] itself. *)
Theorem rtorrentMulticall_request rpc methodType hash filter commands :
  exists doc,
    encodeXmlRpc
      (if decide (methodType = "d.") then "d.multicall2" else methodType +:+ "multicall")
      (JString hash :: JString filter
         :: map (fun cmd => JString (if Text.contains "=" cmd
                                     then methodType +:+ cmd
                                     else methodType +:+ cmd +:+ "="))
              commands)
    = Ok doc
    /\ requests_of (rtorrentMulticall rpc methodType hash filter commands) = [doc].
Proof.
  set (params := JString hash :: JString filter :: map _ commands).
  assert (Hp : params
               = map JString (hash :: filter
                                :: map (complete_command methodType) commands)).
  { subst params. cbn. do 2 f_equal. rewrite map_map. apply map_ext.
    intros cmd. unfold complete_command, includes.
    destruct (Text.contains "=" cmd); [| reflexivity].
    now rewrite TextFacts.append_empty. }
  assert (Hm : (if decide (methodType = "d.") then "d.multicall2"
                else methodType +:+ "multicall") = multicall_method methodType).
  { unfold multicall_method. destruct (decide (methodType = "d.")) as [-> | Hne];
      [reflexivity |]. now rewrite PropsFacts.eqb_neq. }
  rewrite Hm, Hp.
  destruct (encodeXmlRpc_strings (multicall_method methodType)
              (hash :: filter :: map (complete_command methodType) commands))
    as [doc Hdoc].
  exists doc. split; [exact Hdoc |].
  unfold requests_of, rtorrentMulticall, await.
  rewrite (rtorrentCall_run rpc _ _ doc []) by exact Hdoc.
  destruct (match error (rpc doc) with Some _ => _ | None => _ end); reflexivity.
Qed.

(** *** Rows of a multicall over a failed transport *)

Lemma fill_row_empty commands : forall i object,
  fill_row (JArray []) i commands object = Ok (blank_row commands object).
Proof.
  induction commands as [| key commands IH]; intros i object; [reflexivity |].
  cbn [fill_row Props.at_index bind]. rewrite lookup_nil. cbn. apply IH.
Qed.

Lemma blank_row_get commands : forall object,
  (forall cmd, In cmd commands ->
     Props.get (toCamelCase cmd) (blank_row commands object) = Some JUndefined)
  /\ (forall k, Props.get k (blank_row commands object) = Props.get k object
                \/ (Props.get k (blank_row commands object) = Some JUndefined
                    /\ exists cmd, In cmd commands /\ k = toCamelCase cmd)).
Proof.
  induction commands as [| key commands IH]; intros object.
  - split; [intros cmd [] | intros k; now left].
  - cbn [blank_row fold_left].
    destruct (IH (Props.set (toCamelCase key) JUndefined object)) as [IH1 IH2].
    fold (blank_row commands (Props.set (toCamelCase key) JUndefined object)) in *.
    assert (Hk : forall k,
               Props.get k (blank_row commands
                              (Props.set (toCamelCase key) JUndefined object))
               = Props.get k object
               \/ (Props.get k (blank_row commands
                                  (Props.set (toCamelCase key) JUndefined object))
                   = Some JUndefined
                   /\ exists cmd, In cmd (key :: commands) /\ k = toCamelCase cmd)).
    { intros k. destruct (IH2 k) as [E | [E [cmd [Hin ->]]]].
      - destruct (decide (k = toCamelCase key)) as [-> | Hne].
        + right. split; [| exists key; split; [now left | reflexivity]].
          rewrite E. apply PropsFacts.get_set_same, CamelFacts.toCamelCase_not_proto.
        + left. rewrite E. now apply PropsFacts.get_set_other.
      - right. split; [exact E |]. exists cmd. split; [now right | reflexivity]. }
    split; [| exact Hk].
    intros cmd [<- | Hin]; [| now apply IH1].
    destruct (IH2 (toCamelCase key)) as [E | [E _]]; [| exact E].
    rewrite E. apply PropsFacts.get_set_same, CamelFacts.toCamelCase_not_proto.
Qed.

(** C9.  When the transport answers every document with an error object,
    [rtorrentCall] returns the sentinel [[[]]], a list holding one empty
    list; [rtorrentMulticall] then returns one row, not an empty list of
    rows, and that row maps the camel-cased name of every command to
    undefined and has no other entry. *)
Theorem failed_transport_sentinel rpc :
  (forall doc, is_Some (error (rpc doc))) ->
  (forall method params doc,
     encodeXmlRpc method params = Ok doc ->
     result_of (rtorrentCall rpc method params) = Ok (JArray [JArray []]))
  /\ forall methodType hash filter commands,
      exists row,
        result_of (rtorrentMulticall rpc methodType hash filter commands)
        = Ok (JArray [JObject row])
        /\ (forall cmd, In cmd commands ->
               Props.get (toCamelCase cmd) row = Some JUndefined)
        /\ (forall k v, Props.get k row = Some v ->
               v = JUndefined /\ exists cmd, In cmd commands /\ k = toCamelCase cmd).
Proof.
  intros Herr. split.
  - intros method params doc E. unfold result_of.
    rewrite (rtorrentCall_run rpc _ _ doc []) by exact E.
    destruct (Herr doc) as [msg ->]. reflexivity.
  - intros methodType hash filter commands. exists (blank_row commands []).
    destruct (encodeXmlRpc_strings (multicall_method methodType)
                (hash :: filter :: map (complete_command methodType) commands))
      as [doc Hdoc].
    split; [| split].
    + unfold result_of, rtorrentMulticall, await.
      rewrite (rtorrentCall_run rpc _ _ doc []) by exact Hdoc.
      destruct (Herr doc) as [msg ->].
      unfold lift, array_map. cbn [mapM bind fst]. now rewrite fill_row_empty.
    + apply blank_row_get.
    + intros k v Hget. destruct (proj2 (blank_row_get commands []) k) as [E | [E Hcmd]].
      * rewrite E in Hget. discriminate Hget.
      * rewrite E in Hget. injection Hget as <-. split; [reflexivity | exact Hcmd].
Qed.

Lemma failed_transport_sentinel_witness :
  (forall doc, is_Some (error (refusing doc)))
  /\ result_of (rtorrentCall refusing "system.listMethods" []) = Ok (JArray [JArray []])
  /\ exists row,
       result_of (rtorrentMulticall refusing "d." "" "main" ["name"; "size_bytes"])
       = Ok (JArray [JObject row])
       /\ Props.get "name" row = Some JUndefined
       /\ Props.get "sizeBytes" row = Some JUndefined.
Proof.
  assert (H : forall doc, is_Some (error (refusing doc))) by (intros doc; now eexists).
  split; [exact H |].
  destruct (failed_transport_sentinel refusing H) as [Hcall Hmulti].
  split.
  - exact (Hcall "system.listMethods" [] _ eq_refl).
  - destruct (Hmulti "d." "" "main" ["name"; "size_bytes"]) as [row [Hrow [Hget _]]].
    exists row. split; [exact Hrow |]. split.
    + exact (Hget "name" (or_introl eq_refl)).
    + exact (Hget "size_bytes" (or_intror (or_introl eq_refl))).
Defined.

(** *** The remapping of a batchcall *)

Lemma unwrap_single_present v : present v -> exists u, unwrap_single v = Ok u.
Proof.
  intros [Hu Hn]. unfold unwrap_single.
  destruct v as [| | s | b | n | t | l | o]; try congruence; cbn [Props.length_of bind].
  - destruct (Z.of_nat (String.length s)) as [| [] |]; cbn; eauto.
  - eauto.
  - eauto.
  - eauto.
  - destruct (Z.of_nat (length l)) as [| [] |]; cbn; eauto.
  - destruct (default JUndefined (Props.get "length" o)) as [| | | | [[| [] |] |] | | |];
      cbn; eauto.
Qed.

Lemma unwrap_single_one x : unwrap_single (JArray [x]) = Ok x.
Proof. reflexivity. Qed.

Lemma unwrap_single_many l : 1 < length l -> unwrap_single (JArray l) = Ok (JArray l).
Proof.
  intros H. destruct l as [| x [| y l]]; cbn in H; try lia.
  unfold unwrap_single. cbn [Props.length_of bind length].
  destruct (Z.of_nat (S (S (length l)))) as [| [] |] eqn:E; try reflexivity. lia.
Qed.

(** Names that no position writes keep their value. *)
Lemma remap_frame commands k results : forall i object object',
  remap commands i results object = Ok object' ->
  (forall j cmd, j < length results -> commands !! (i + j) = Some cmd ->
                 toCamelCase cmd <> k) ->
  Props.get k object' = Props.get k object.
Proof.
  induction results as [| r results IH]; intros i object object' Hrun Hfree.
  - cbn in Hrun. now injection Hrun as <-.
  - cbn [remap] in Hrun. destruct (commands !! i) as [cmd |] eqn:Hcmd; [| discriminate].
    destruct (unwrap_single r) as [v | e]; [| discriminate]. cbn [bind] in Hrun.
    rewrite (IH _ _ _ Hrun).
    + apply PropsFacts.get_set_other. intros ->.
      apply (Hfree 0 cmd); [cbn; lia | now rewrite Nat.add_0_r | reflexivity].
    + intros j cmd' Hj Hc. apply (Hfree (S j) cmd'); [cbn; lia |].
      now replace (i + S j) with (S i + j) by lia.
Qed.

Lemma remap_runs commands results : forall i object,
  i + length results <= length commands ->
  Forall present results ->
  exists object',
    remap commands i results object = Ok object'
    /\ forall j cmd r v,
        results !! j = Some r -> commands !! (i + j) = Some cmd ->
        unwrap_single r = Ok v ->
        (forall j' cmd', j < j' -> j' < length results ->
                         commands !! (i + j') = Some cmd' ->
                         toCamelCase cmd' <> toCamelCase cmd) ->
        Props.get (toCamelCase cmd) object' = Some v.
Proof.
  induction results as [| r results IH]; intros i object Hlen Hall.
  - exists object. split; [reflexivity |]. intros j cmd r v Hj. now rewrite lookup_nil in Hj.
  - cbn [length] in Hlen. apply Forall_cons in Hall as [Hr Hall].
    destruct (lookup_lt_is_Some_2 commands i ltac:(lia)) as [cmd0 Hcmd0].
    destruct (unwrap_single_present r Hr) as [v0 Hv0].
    destruct (IH (S i) (Props.set (toCamelCase cmd0) v0 object) ltac:(lia) Hall)
      as [object' [Hrun Hget]].
    exists object'. split.
    { cbn [remap]. rewrite Hcmd0, Hv0. exact Hrun. }
    intros j cmd r' v Hj Hcmd Hv Hlast. destruct j as [| j].
    + cbn in Hj. injection Hj as <-. rewrite Nat.add_0_r in Hcmd.
      assert (cmd = cmd0) as -> by congruence. assert (v = v0) as -> by congruence.
      rewrite (remap_frame commands (toCamelCase cmd0) results _ _ _ Hrun).
      * apply PropsFacts.get_set_same, CamelFacts.toCamelCase_not_proto.
      * intros j cmd' Hj' Hc'. apply (Hlast (S j) cmd'); [lia | cbn; lia |].
        now replace (i + S j) with (S i + j) by lia.
    + cbn in Hj.
      apply (Hget j cmd r' v Hj);
        [now replace (S i + j) with (i + S j) by lia | exact Hv |].
      intros j' cmd' Hlt Hj' Hc'. apply (Hlast (S j') cmd'); [lia | cbn; lia |].
      now replace (i + S j') with (S i + j') by lia.
Qed.

Lemma unwrap_single_sequence elems :
  unwrap_single (JArray elems) = Ok (bare (JArray elems)).
Proof.
  destruct elems as [| x [| y elems]]; try reflexivity.
  apply unwrap_single_many. cbn. lia.
Qed.

(** On sequences the loop is the fold of [store] over the commands paired
    with their results. *)
Lemma remap_stores commands results : forall i object,
  i + length results <= length commands ->
  Forall is_sequence results ->
  remap commands i results object
  = Ok (fold_left store (zip (drop i commands) results) object).
Proof.
  induction results as [| r results IH]; intros i object Hlen Hall.
  - now rewrite zip_with_nil_r.
  - cbn [length] in Hlen. apply Forall_cons in Hall as [[elems ->] Hall].
    destruct (lookup_lt_is_Some_2 commands i ltac:(lia)) as [cmd Hcmd].
    cbn [remap]. rewrite Hcmd, unwrap_single_sequence. cbn [Js.bind].
    rewrite IH by (assumption || lia).
    now rewrite (drop_S _ _ _ Hcmd).
Qed.

(** On results that have a command each and are neither undefined nor
    null, the remapping returns an object; a one-element sequence is stored as
    its single element and a longer one unchanged, read back from the object
    unless a later position writes the same name. *)
Lemma remap_results_unwraps commands results :
  length results <= length commands ->
  Forall present results ->
  exists object,
    remap_results commands (JArray results) = Ok (JObject object)
    /\ (forall i cmd elems,
          commands !! i = Some cmd ->
          results !! i = Some (JArray elems) ->
          (forall j cmd', i < j -> j < length results -> commands !! j = Some cmd' ->
                          toCamelCase cmd' <> toCamelCase cmd) ->
          (forall x, elems = [x] -> Props.get (toCamelCase cmd) object = Some x)
          /\ (1 < length elems ->
              Props.get (toCamelCase cmd) object = Some (JArray elems)))
    /\ (Forall is_sequence results ->
        object = fold_left store (zip commands results) []).
Proof.
  intros Hlen Hall.
  destruct (remap_runs commands results 0 [] Hlen Hall) as [object [Hrun Hget]].
  exists object. split; [cbn; now rewrite Hrun |]. split.
  - intros i cmd elems Hcmd Hres Hlast. split.
    + intros x ->. apply (Hget i cmd (JArray [x]) x Hres Hcmd (unwrap_single_one x)).
      exact Hlast.
    + intros Hmany.
      apply (Hget i cmd (JArray elems) (JArray elems) Hres Hcmd
               (unwrap_single_many elems Hmany)).
      exact Hlast.
  - intros Hseq. rewrite (remap_stores commands results 0 [] Hlen Hseq) in Hrun.
    now injection Hrun as <-.
Qed.

(** *** The entries and the one document of a batchcall *)

Lemma split_acc_parts c s : forall cur,
  split_acc c cur s
  = string_of_list_ascii (rev cur ++ list_ascii_of_string (before c s))
      :: (if Text.contains c s then split c (behind c s) else []).
Proof.
  induction s as [| a s IH]; intros cur; cbn [split_acc before behind Text.contains].
  - now rewrite app_nil_r.
  - destruct (Ascii.eqb a c); cbn [orb].
    + now rewrite app_nil_r.
    + rewrite IH. cbn [rev list_ascii_of_string]. now rewrite <- app_assoc.
Qed.

Lemma split_parts c s :
  split c s = before c s :: (if Text.contains c s then split c (behind c s) else []).
Proof.
  unfold split at 1. rewrite split_acc_parts. cbn [rev app].
  now rewrite string_of_list_ascii_of_string.
Qed.

Lemma batch_method_entry methodType hash cmd :
  batch_method methodType hash cmd = Ok (batch_entry methodType hash cmd).
Proof.
  unfold batch_method, batch_params, batch_entry, includes.
  rewrite (split_parts "=" cmd).
  destruct (Text.contains "=" cmd) eqn:E; [| reflexivity].
  rewrite (split_parts "=" (behind "=" cmd)). reflexivity.
Qed.

Lemma batch_methods methodType hash commands :
  mapM (batch_method methodType hash) commands
  = Ok (map (batch_entry methodType hash) commands).
Proof.
  induction commands as [| cmd commands IH]; [reflexivity |].
  cbn [mapM map]. rewrite batch_method_entry. cbn [bind]. now rewrite IH.
Qed.

Lemma encode_texts l :
  exists x, encodeXmlRpcParam (JArray (map JString l)) = Ok x.
Proof.
  cbn [encodeXmlRpcParam].
  assert (H : exists parts,
             mapM (fun element => let* x := encodeXmlRpcParam element in Ok (wrap_value x))
                  (map JString l) = Ok parts).
  { induction l as [| s l [parts IH]]; cbn; [eauto |]. rewrite IH. cbn. eauto. }
  destruct H as [parts ->]. cbn. eauto.
Qed.

Lemma encode_entries methodType hash commands :
  exists x,
    encodeXmlRpcParam (JArray (map (batch_entry methodType hash) commands)) = Ok x.
Proof.
  cbn [encodeXmlRpcParam].
  assert (H : exists parts,
             mapM (fun element => let* x := encodeXmlRpcParam element in Ok (wrap_value x))
                  (map (batch_entry methodType hash) commands) = Ok parts).
  { induction commands as [| cmd commands [parts IH]]; cbn [map mapM]; [eauto |].
    rewrite IH. unfold batch_entry at 1.
    cbn [encodeXmlRpcParam mapM fst snd bind].
    destruct (encode_texts (hash :: (if includes "=" cmd
                                     then split "," (before "=" (behind "=" cmd))
                                     else []))) as [x Hx].
    cbn [encodeXmlRpcParam] in Hx. 
    destruct (mapM _ (map JString _)) as [ps | e] eqn:E; [| discriminate Hx].
    cbn. eauto. }
  destruct H as [parts ->]. cbn. eauto.
Qed.

Lemma batch_document methodType hash commands :
  exists doc,
    encodeXmlRpc "system.multicall"
      [JArray (map (batch_entry methodType hash) commands)] = Ok doc.
Proof.
  destruct (encode_entries methodType hash commands) as [x Hx].
  unfold encodeXmlRpc. cbn [mapM]. rewrite Hx. cbn. eauto.
Qed.

(** What [rtorrentBatchcall] does: the entries are built, one document
    with them goes to the transport, and what [rtorrentCall] makes of the
    reply is remapped. *)
Lemma batchcall_run rpc methodType hash commands doc :
  encodeXmlRpc "system.multicall" [JArray (map (batch_entry methodType hash) commands)]
  = Ok doc ->
  rtorrentBatchcall rpc methodType hash commands []
  = (let* results := fst (rtorrentCall rpc "system.multicall"
                            [JArray (map (batch_entry methodType hash) commands)] []) in
     remap_results commands results,
     [doc]).
Proof.
  intros Hdoc. unfold rtorrentBatchcall, await, lift. rewrite batch_methods.
  rewrite (rtorrentCall_run rpc _ _ doc []) by exact Hdoc. cbn [fst app].
  destruct (match error (rpc doc) with Some _ => _ | None => _ end) as [v | e];
    cbn [bind]; [| reflexivity].
  now destruct (remap_results commands v).
Qed.

(** C8.  When the call that [rtorrentBatchcall] makes returns a list of
    results, with a command for every result and no result undefined or null,
    [rtorrentBatchcall] returns an object, and for every position [i] whose
    result is a sequence: a one-element sequence is stored under the
    camel-cased name of command [i] as its single bare element, and a
    sequence of more than one element is stored unchanged.  The object holds
    what position [i] stored unless a later position writes the same name;
    when all results are sequences the object is exactly what storing each
    result in turn, bare or unchanged, builds. *)
Theorem batchcall_unwraps_singletons rpc methodType hash commands results :
  (forall methods,
     mapM (batch_method methodType hash) commands = Ok methods ->
     result_of (rtorrentCall rpc "system.multicall" [JArray methods])
     = Ok (JArray results)) ->
  length results <= length commands ->
  Forall present results ->
  exists object,
    result_of (rtorrentBatchcall rpc methodType hash commands) = Ok (JObject object)
    /\ (forall i cmd elems,
          commands !! i = Some cmd ->
          results !! i = Some (JArray elems) ->
          (forall j cmd', i < j -> j < length results -> commands !! j = Some cmd' ->
                          toCamelCase cmd' <> toCamelCase cmd) ->
          (forall x, elems = [x] -> Props.get (toCamelCase cmd) object = Some x)
          /\ (1 < length elems ->
              Props.get (toCamelCase cmd) object = Some (JArray elems)))
    /\ (Forall is_sequence results ->
        object = fold_left store (zip commands results) []).
Proof.
  intros Hcall Hlen Hall.
  destruct (remap_results_unwraps commands results Hlen Hall) as [object [Hrun Hrest]].
  exists object. split; [| exact Hrest].
  destruct (batch_document methodType hash commands) as [doc Hdoc].
  specialize (Hcall _ (batch_methods methodType hash commands)).
  unfold result_of in *. rewrite (batchcall_run rpc methodType hash commands doc Hdoc).
  cbn [fst]. rewrite Hcall. exact Hrun.
Qed.

Lemma batchcall_unwraps_singletons_witness :
  exists object,
    result_of (rtorrentBatchcall
                 (answering (response_text
                    "<array><data><value><array><data><value><string>active</string></value></data></array></value><value><array><data><value><string>a</string></value><value><string>b</string></value></data></array></value></data></array>"))
                 "d." "HASH" ["state"; "peers"])
    = Ok (JObject object)
    /\ Props.get "state" object = Some (JString "active")
    /\ Props.get "peers" object = Some (JArray [JString "a"; JString "b"]).
Proof.
  destruct (batchcall_unwraps_singletons
              (answering (response_text
                 "<array><data><value><array><data><value><string>active</string></value></data></array></value><value><array><data><value><string>a</string></value><value><string>b</string></value></data></array></value></data></array>"))
              "d." "HASH" ["state"; "peers"]
              [JArray [JString "active"]; JArray [JString "a"; JString "b"]])
    as [object [Hrun [Hget _]]].
  - intros methods H. vm_compute in H. injection H as <-. vm_compute. reflexivity.
  - cbn. lia.
  - repeat constructor; discriminate.
  - exists object. split; [exact Hrun |]. split.
    + refine (proj1 (Hget 0 "state" [JString "active"] eq_refl eq_refl _) _ eq_refl).
      intros j cmd' Hlt Hj Hc. destruct j as [| [| j]]; cbn in *; try lia.
      injection Hc as <-. vm_compute. discriminate.
    + refine (proj2 (Hget 1 "peers" [JString "a"; JString "b"] eq_refl eq_refl _) _).
      * intros j cmd' Hlt Hj Hc. cbn in Hj. lia.
      * cbn. lia.
Defined.

Lemma Ok_inj {A} (a b : A) : Ok a = Ok b -> a = b.
Proof. intros H. now injection H. Qed.

Lemma lookup_entries methodType hash commands i cmd :
  commands !! i = Some cmd ->
  map (batch_entry methodType hash) commands !! i = Some (batch_entry methodType hash cmd).
Proof. intros H. now rewrite list_lookup_fmap, H. Qed.

(** C10 (as amended).  [rtorrentBatchcall] builds one entry per command and
    sends them in one [system.multicall] document.  The entry of a command in
    which nothing stands between the first ["="] and the next one or the end,
    such as ["start="] or ["start=="], has the parameter list [[hash, ""]]:
    the empty value splits on [","] into one empty text.  The entry of a
    command with no ["="] at all has [[hash]]. *)
Theorem batchcall_bare_equals rpc methodType hash commands i name tail :
  Text.contains "=" name = false ->
  tail = "" \/ (exists rest, tail = "=" +:+ rest) ->
  exists methods doc,
    mapM (batch_method methodType hash) commands = Ok methods
    /\ encodeXmlRpc "system.multicall" [JArray methods] = Ok doc
    /\ requests_of (rtorrentBatchcall rpc methodType hash commands) = [doc]
    /\ (commands !! i = Some (name +:+ "=" +:+ tail) ->
        methods !! i
        = Some (JObject [("methodName", JString (methodType +:+ name));
                         ("params", JArray [JString hash; JString ""])]))
    /\ (commands !! i = Some name ->
        methods !! i
        = Some (JObject [("methodName", JString (methodType +:+ name));
                         ("params", JArray [JString hash])])).
Proof.
  intros Hname Htail.
  destruct (batch_document methodType hash commands) as [doc Hdoc].
  exists (map (batch_entry methodType hash) commands), doc.
  split; [apply batch_methods |]. split; [exact Hdoc |]. split.
  { unfold requests_of. now rewrite (batchcall_run rpc methodType hash commands doc Hdoc). }
  split; intros Hcmd; rewrite (lookup_entries _ _ _ _ _ Hcmd); f_equal;
    pose proof (batch_method_entry methodType hash) as He.
  - specialize (He (name +:+ "=" +:+ tail)).
    unfold batch_method, batch_params, includes in He.
    assert (Hc : Text.contains "=" (name +:+ "=" +:+ tail) = true).
    { rewrite contains_append. cbn. now rewrite orb_true_r. }
    rewrite Hc in He.
    change (name +:+ "=" +:+ tail) with (name +:+ String "=" tail) in He.
    rewrite (split_first "=" name tail Hname) in He.
    assert (Hs : exists more, split "=" tail = "" :: more).
    { destruct Htail as [-> | [rest ->]]; [exists []; reflexivity |].
      exists (split "=" rest). exact (split_first "=" "" rest eq_refl). }
    destruct Hs as [more Hs]. rewrite Hs in He. cbn [lookup list_lookup bind] in He.
    symmetry. exact (Ok_inj _ _ He).
  - specialize (He name). unfold batch_method, batch_params, includes in He.
    rewrite Hname, (split_plain "=" name Hname) in He. cbn [lookup list_lookup bind] in He.
    symmetry. exact (Ok_inj _ _ He).
Qed.

Lemma batchcall_bare_equals_witness :
  exists doc,
    requests_of (rtorrentBatchcall refusing "d." "HASH" ["start="; "stop"]) = [doc]
    /\ encodeXmlRpc "system.multicall"
         [JArray [JObject [("methodName", JString "d.start");
                           ("params", JArray [JString "HASH"; JString ""])];
                  JObject [("methodName", JString "d.stop");
                           ("params", JArray [JString "HASH"])]]]
       = Ok doc.
Proof.
  destruct (batchcall_bare_equals refusing "d." "HASH" ["start="; "stop"] 0 "start" ""
              eq_refl (or_introl eq_refl))
    as (methods & doc & Hm & Hdoc & Hsent & _).
  exists doc. split; [exact Hsent |].
  vm_compute in Hm. injection Hm as <-. exact Hdoc.
Defined.

(** C10 as stated fails: a command can end with ["="] and still carry a
    value.  For ["a=b="] the value is the text between the first two ["="],
    so the entry that [rtorrentBatchcall] sends has the parameters
    [[hash, "b"]], not [[hash, ""]]. *)
Lemma batchcall_trailing_equals_keeps_value :
  batch_method "d." "HASH" "a=b="
  = Ok (JObject [("methodName", JString "d.a");
                 ("params", JArray [JString "HASH"; JString "b"])])
  /\ batch_method "d." "HASH" "a=b="
     <> Ok (JObject [("methodName", JString "d.a");
                     ("params", JArray [JString "HASH"; JString ""])])
  /\ exists doc,
       requests_of (rtorrentBatchcall refusing "d." "HASH" ["a=b="]) = [doc]
       /\ encodeXmlRpc "system.multicall"
            [JArray [JObject [("methodName", JString "d.a");
                              ("params", JArray [JString "HASH"; JString "b"])]]]
          = Ok doc
       /\ encodeXmlRpc "system.multicall"
            [JArray [JObject [("methodName", JString "d.a");
                              ("params", JArray [JString "HASH"; JString ""])]]]
          <> Ok doc.
Proof.
  split; [reflexivity |]. split; [vm_compute; discriminate |].
  eexists. split; [vm_compute; reflexivity |].
  split; [vm_compute; reflexivity | vm_compute; discriminate].
Qed.

End RtorrentFacts.

(** ** The parser reads back what is written out *)

Module DomFacts.
Import Dom TextFacts.

Lemma name_char_plain c :
  name_char c = true ->
  Ascii.eqb c ">" = false /\ Ascii.eqb c "/" = false /\ xml_space c = false
  /\ safe_char c = true.
Proof.
  pose proof (ascii_forall
                (fun c => implb (name_char c)
                            (negb (Ascii.eqb c ">") && negb (Ascii.eqb c "/")
                             && negb (xml_space c) && safe_char c))
                ltac:(vm_compute; reflexivity) c) as H.
  cbn beta in H. intros Hc. rewrite Hc in H. cbn [implb] in H.
  repeat (apply andb_prop in H as [H ?]).
  repeat split; try (now apply negb_true_iff); assumption.
Qed.

Lemma name_start_plain c :
  name_start c = true ->
  name_char c = true /\ Ascii.eqb c "/" = false /\ Ascii.eqb c "?" = false.
Proof.
  pose proof (ascii_forall
                (fun c => implb (name_start c)
                            (name_char c && negb (Ascii.eqb c "/")
                             && negb (Ascii.eqb c "?")))
                ltac:(vm_compute; reflexivity) c) as H.
  cbn beta in H. intros Hc. rewrite Hc in H. cbn [implb] in H.
  repeat (apply andb_prop in H as [H ?]).
  repeat split; try (now apply negb_true_iff); assumption.
Qed.

Lemma str_rev (s : string) : str (rev (list_ascii_of_string s)) = s.
Proof. unfold str. now rewrite rev_involutive, string_of_list_ascii_of_string. Qed.

Lemma str_rev_cons c (s : string) : str (rev (list_ascii_of_string s) ++ [c]) = String c s.
Proof.
  unfold str. rewrite rev_app_distr, rev_involutive. cbn.
  now rewrite string_of_list_ascii_of_string.
Qed.

(** *** Lexing what [text_of] writes *)

Lemma lex_escape_char c acc rest :
  lex (MText acc) (escape_char c +:+ rest) = lex (MText (c :: acc)) rest.
Proof.
  unfold escape_char.
  destruct (Ascii.eqb c "<") eqn:E1; [apply Ascii.eqb_eq in E1 as ->; reflexivity |].
  destruct (Ascii.eqb c ">") eqn:E2; [apply Ascii.eqb_eq in E2 as ->; reflexivity |].
  destruct (Ascii.eqb c "&") eqn:E3; [apply Ascii.eqb_eq in E3 as ->; reflexivity |].
  destruct (Ascii.eqb c "'") eqn:E4; [apply Ascii.eqb_eq in E4 as ->; reflexivity |].
  destruct (Ascii.eqb c "034") eqn:E5; [apply Ascii.eqb_eq in E5 as ->; reflexivity |].
  norm_append. cbn [lex]. now rewrite E1, E3.
Qed.

Lemma lex_escape d : forall acc rest,
  lex (MText acc) (escape d +:+ rest)
  = lex (MText (rev (list_ascii_of_string d) ++ acc)) rest.
Proof.
  induction d as [| c d IH]; intros acc rest; [reflexivity |].
  cbn [escape]. rewrite TextFacts.append_assoc, lex_escape_char, IH.
  cbn [list_ascii_of_string rev]. now rewrite <- app_assoc.
Qed.

Lemma lex_open_chars r : forall acc rest,
  Text.all_chars name_char r = true ->
  lex (MOpenName acc) (r +:+ String ">" rest)
  = cons (TOpen (str (rev (list_ascii_of_string r) ++ acc))) <$> lex (MText []) rest.
Proof.
  induction r as [| c r IH]; intros acc rest H; [reflexivity |].
  cbn in H. apply andb_prop in H as [Hc Hr].
  destruct (name_char_plain c Hc) as (E1 & E2 & E3 & _).
  norm_append. cbn [lex]. rewrite E1, E2, E3, Hc, IH by assumption.
  cbn [list_ascii_of_string rev]. now rewrite <- app_assoc.
Qed.

Lemma lex_open t rest :
  valid_name t = true ->
  lex MTagStart (t +:+ String ">" rest) = cons (TOpen t) <$> lex (MText []) rest.
Proof.
  destruct t as [| c r]; [discriminate |]. cbn [valid_name]. intros H.
  apply andb_prop in H as [Hc Hr].
  destruct (name_start_plain c Hc) as (_ & E1 & E2).
  norm_append. cbn [lex]. rewrite E1, E2, Hc, lex_open_chars by assumption.
  now rewrite str_rev_cons.
Qed.

Lemma lex_close_chars r : forall c0 acc rest,
  Text.all_chars name_char r = true ->
  lex (MCloseName (c0 :: acc)) (r +:+ String ">" rest)
  = cons (TClose (str (rev (list_ascii_of_string r) ++ c0 :: acc))) <$> lex (MText []) rest.
Proof.
  induction r as [| c r IH]; intros c0 acc rest H; [reflexivity |].
  cbn in H. apply andb_prop in H as [Hc Hr].
  destruct (name_char_plain c Hc) as (E1 & _ & E3 & _).
  norm_append. cbn [lex]. rewrite E1, E3, Hc, IH by assumption.
  cbn [list_ascii_of_string rev]. now rewrite <- app_assoc.
Qed.

Lemma lex_close t rest :
  valid_name t = true ->
  lex MTagStart (String "/" (t +:+ String ">" rest))
  = cons (TClose t) <$> lex (MText []) rest.
Proof.
  destruct t as [| c r]; [discriminate |]. cbn [valid_name]. intros H.
  apply andb_prop in H as [Hc Hr].
  norm_append. cbn [lex]. change (Ascii.eqb "/" "/") with true. cbn match.
  rewrite Hc, lex_close_chars by assumption.
  now rewrite str_rev_cons.
Qed.


Lemma node_induction (P : node -> Prop) :
  (forall t kids, Forall P kids -> P (Element t kids)) ->
  (forall d, P (TextNode d)) ->
  forall n, P n.
Proof.
  intros HE HT. fix IH 1. intros [t kids | d]; [| apply HT].
  apply HE. induction kids as [| k kids IHk]; constructor; [apply IH | exact IHk].
Qed.

Lemma flush_rev d ts :
  d <> EmptyString -> flush (rev (list_ascii_of_string d)) ts = TChars d :: ts.
Proof.
  intros Hd. unfold flush.
  destruct (rev (list_ascii_of_string d)) as [| a l] eqn:E.
  - apply (f_equal (@rev ascii)) in E. rewrite rev_involutive in E. cbn in E.
    destruct d; [congruence | discriminate E].
  - rewrite <- E. now rewrite str_rev.
Qed.

Lemma forest_text_cons k kids : forest_text (k :: kids) = text_of k +:+ forest_text kids.
Proof. reflexivity. Qed.

Lemma forest_tokens_cons k kids :
  forest_tokens (k :: kids) = tokens k ++ forest_tokens kids.
Proof. reflexivity. Qed.

Lemma text_of_element t kids :
  text_of (Element t kids)
  = String "<" (t +:+ ">" +:+ forest_text kids +:+ "</" +:+ t +:+ ">").
Proof. reflexivity. Qed.

Lemma lex_less acc rest :
  lex (MText acc) (String "<" rest) = flush acc <$> lex MTagStart rest.
Proof. reflexivity. Qed.

Lemma lex_forest kids :
  Forall (fun n => clean n = true -> lexes n) kids ->
  forallb clean kids = true ->
  apart kids = true ->
  forall acc tail,
    (acc = [] \/ starts_with_text kids = false) ->
    lex (MText acc) (forest_text kids +:+ String "<" (String "/" tail))
    = (fun ts => flush acc (forest_tokens kids ++ ts))
        <$> lex MTagStart (String "/" tail).
Proof.
  induction kids as [| k kids IH]; intros HL Hclean Hapart acc tail Hacc.
  - change (forest_text []) with EmptyString. rewrite TextFacts.append_nil, lex_less.
    reflexivity.
  - apply Forall_cons in HL as [Hk HL]. cbn [forallb] in Hclean.
    apply andb_prop in Hclean as [Hck Hclean].
    rewrite forest_text_cons, forest_tokens_cons, TextFacts.append_assoc.
    destruct k as [t kk | d].
    + assert (Hap : apart kids = true) by (destruct kids; exact Hapart).
      specialize (Hk Hck). cbn [lexes] in Hk.
      rewrite text_of_element, TextFacts.append_cons, lex_less.
      rewrite !TextFacts.append_assoc, Hk.
      rewrite (IH HL Hclean Hap [] tail (or_introl eq_refl)).
      destruct (lex MTagStart (String "/" tail)); cbn [fmap option_fmap option_map flush];
        [| reflexivity].
      now rewrite <- app_assoc.
    + destruct Hacc as [-> | Hacc]; [| discriminate Hacc].
      cbn [clean] in Hck. apply andb_prop in Hck as [Hd _].
      apply negb_true_iff, String.eqb_neq in Hd.
      assert (Hap : apart kids = true /\ starts_with_text kids = false).
      { destruct kids as [| [] ?]; cbn in *; auto; discriminate. }
      cbn [text_of]. rewrite lex_escape, app_nil_r.
      rewrite (IH HL Hclean (proj1 Hap) _ tail (or_intror (proj2 Hap))).
      destruct (lex MTagStart (String "/" tail)); cbn [fmap option_fmap option_map flush];
        [| reflexivity].
      now rewrite flush_rev.
Qed.

(** Every clean element lexes to its tokens. *)
Lemma lex_element n : clean n = true -> lexes n.
Proof.
  induction n as [t kids IH | d] using node_induction; [| exact (fun _ => I)].
  intros Hclean. cbn [clean] in Hclean.
  apply andb_prop in Hclean as [Hclean Hapart].
  apply andb_prop in Hclean as [Hname Hkids].
  cbn [lexes]. intros rest.
  rewrite (TextFacts.append_cons ">"), TextFacts.append_nil.
  rewrite lex_open by assumption.
  change ("</" +:+ t +:+ ">" +:+ rest) with (String "<" (String "/" (t +:+ String ">" rest))).
  rewrite (lex_forest kids IH Hkids Hapart [] _ (or_introl eq_refl)).
  rewrite lex_close by assumption.
  destruct (lex (MText []) rest); cbn; [| reflexivity].
  fold (forest_tokens kids). now rewrite <- app_assoc.
Qed.

Lemma lex_text_of n :
  clean n = true -> is_element n = true ->
  lex (MText []) (text_of n) = Some (tokens n).
Proof.
  destruct n as [t kids | d]; [| discriminate]. intros Hclean _.
  pose proof (lex_element _ Hclean EmptyString) as H. cbn [lexes] in H.
  rewrite text_of_element, lex_less.
  rewrite !TextFacts.append_empty in H. rewrite H. cbn. now rewrite app_nil_r.
Qed.

(** *** Building the tree from the tokens *)

Lemma build_forest kids :
  Forall builds kids ->
  forall t0 k0 open root ts,
    build ((t0, k0) :: open) root (forest_tokens kids ++ ts)
    = build ((t0, rev kids ++ k0) :: open) root ts.
Proof.
  induction kids as [| k kids IH]; intros HB t0 k0 open root ts; [reflexivity |].
  apply Forall_cons in HB as [Hk HB].
  rewrite forest_tokens_cons, <- app_assoc, Hk, IH by assumption.
  cbn [rev]. now rewrite <- app_assoc.
Qed.

Lemma tokens_element t kids :
  tokens (Element t kids) = TOpen t :: forest_tokens kids ++ [TClose t].
Proof. reflexivity. Qed.

Lemma build_close t kids t0 k0 open root ts :
  build ((t, kids) :: (t0, k0) :: open) root (TClose t :: ts)
  = build ((t0, Element t (rev kids) :: k0) :: open) root ts.
Proof. cbn [build]. now rewrite String.eqb_refl. Qed.

Lemma build_node n : builds n.
Proof.
  induction n as [t kids IH | d] using node_induction; intros t0 k0 open root ts.
  - rewrite tokens_element. cbn [app build].
    rewrite <- app_assoc, build_forest by assumption.
    cbn [app]. now rewrite build_close, app_nil_r, rev_involutive.
  - reflexivity.
Qed.

Lemma build_tokens n :
  is_element n = true -> build [] None (tokens n) = Some n.
Proof.
  destruct n as [t kids | d]; [| discriminate]. intros _.
  rewrite tokens_element. cbn [build].
  rewrite build_forest by (apply Forall_forall; intros; apply build_node).
  cbn [build attach]. now rewrite String.eqb_refl, app_nil_r, rev_involutive.
Qed.


(** *** The checks before lexing *)

Lemma all_chars_append p s t :
  Text.all_chars p (s +:+ t) = Text.all_chars p s && Text.all_chars p t.
Proof.
  induction s as [| c s IH]; [reflexivity |].
  rewrite TextFacts.append_cons. cbn. now rewrite IH, andb_assoc.
Qed.

Lemma safe_escape_char c :
  safe_char c = true -> Text.all_chars safe_char (escape_char c) = true.
Proof.
  pose proof (ascii_forall
                (fun c => implb (safe_char c) (Text.all_chars safe_char (escape_char c)))
                ltac:(vm_compute; reflexivity) c) as H.
  cbn beta in H. intros Hc. now rewrite Hc in H.
Qed.

Lemma safe_escape d : safe_text d = true -> Text.all_chars safe_char (escape d) = true.
Proof.
  induction d as [| c d IH]; [reflexivity |]. unfold safe_text. cbn. intros H.
  apply andb_prop in H as [Hc Hd].
  now rewrite all_chars_append, safe_escape_char, IH.
Qed.

Lemma safe_chars_name r :
  Text.all_chars name_char r = true -> Text.all_chars safe_char r = true.
Proof.
  induction r as [| c r IH]; [reflexivity |]. cbn. intros H.
  apply andb_prop in H as [Hc Hr].
  destruct (name_char_plain c Hc) as (_ & _ & _ & ->). now apply IH.
Qed.

Lemma safe_name t : valid_name t = true -> Text.all_chars safe_char t = true.
Proof.
  destruct t as [| c r]; [discriminate |]. cbn [valid_name]. intros H.
  apply andb_prop in H as [Hc Hr].
  apply (safe_chars_name (String c r)). cbn.
  now rewrite (proj1 (name_start_plain c Hc)).
Qed.

Lemma safe_text_of n : clean n = true -> Text.all_chars safe_char (text_of n) = true.
Proof.
  induction n as [t kids IH | d] using node_induction; intros Hclean.
  - cbn [clean] in Hclean. apply andb_prop in Hclean as [Hclean _].
    apply andb_prop in Hclean as [Hname Hkids].
    rewrite text_of_element. cbn [Text.all_chars].
    rewrite !all_chars_append, (safe_name t Hname). cbn.
    rewrite andb_true_r.
    clear Hname. induction kids as [| k kids IHk]; [reflexivity |].
    apply Forall_cons in IH as [Hk IH]. cbn [forallb] in Hkids.
    apply andb_prop in Hkids as [Hck Hkids].
    rewrite forest_text_cons, all_chars_append, (Hk Hck). now apply IHk.
  - cbn [clean] in Hclean. apply andb_prop in Hclean as [_ Hd]. now apply safe_escape.
Qed.

Lemma safe_passes s :
  Text.all_chars safe_char s = true ->
  Text.all_chars xml_char s = true /\ normalize_newlines s = s.
Proof.
  induction s as [| c s IH]; [now split |]. cbn. intros H.
  apply andb_prop in H as [Hc Hs]. destruct (IH Hs) as [IH1 IH2].
  unfold safe_char in Hc. apply andb_prop in Hc as [Hx Hcr].
  apply negb_true_iff in Hcr. rewrite Hx, IH1, Hcr, IH2. now split.
Qed.

(** A clean element parses back from the text written for it. *)
Lemma parse_text_of n :
  clean n = true -> is_element n = true -> parse (text_of n) = Some n.
Proof.
  intros Hclean Helem. unfold parse.
  destruct (safe_passes _ (safe_text_of n Hclean)) as [-> ->].
  rewrite lex_text_of by assumption. now apply build_tokens.
Qed.

(** *** A text without markup

    A text that holds no [<] opens no element, so it is no document: the
    lexer gives at most one run of character data, and the tree builder finds
    no root. *)

Lemma normalize_newlines_markup s :
  Text.contains "<" s = false -> Text.contains "<" (normalize_newlines s) = false.
Proof.
  remember (String.length s) as n eqn:Hn. revert s Hn.
  induction n as [n IH] using lt_wf_ind. intros s Hn H.
  destruct s as [| c s]; [reflexivity |].
  cbn [Text.contains] in H. apply orb_false_iff in H as [Hc Hs].
  cbn [normalize_newlines String.length] in *.
  destruct (Ascii.eqb c "013").
  - destruct s as [| c' s]; [reflexivity |].
    cbn [Text.contains] in Hs. apply orb_false_iff in Hs as [Hc' Hs'].
    cbn [String.length] in Hn.
    destruct (Ascii.eqb c' "010").
    + change (Text.contains "<" (normalize_newlines s) = false).
      apply (IH (String.length s)); [lia | reflexivity | exact Hs'].
    + change (Text.contains "<" (normalize_newlines (String c' s)) = false).
      apply (IH (S (String.length s))); [lia | reflexivity |].
      cbn [Text.contains]. now rewrite Hc', Hs'.
  - cbn [Text.contains]. rewrite Hc.
    change (Text.contains "<" (normalize_newlines s) = false).
    apply (IH (String.length s)); [lia | reflexivity | exact Hs].
Qed.

Lemma lex_without_markup s :
  Text.contains "<" s = false ->
  (forall acc, lex (MText acc) s = None \/ exists acc', lex (MText acc) s = Some (flush acc' []))
  /\ (forall acc ent,
        lex (MEntity acc ent) s = None
        \/ exists acc', lex (MEntity acc ent) s = Some (flush acc' [])).
Proof.
  induction s as [| c s IH]; intros H.
  - split; [intros acc; right; now exists acc | intros acc ent; now left].
  - cbn [Text.contains] in H. apply orb_false_iff in H as [Hc Hs].
    destruct (IH Hs) as [IHt IHe]. split.
    + intros acc. cbn [lex]. rewrite Hc.
      destruct (Ascii.eqb c "&"); [apply IHe | apply IHt].
    + intros acc ent. cbn [lex].
      destruct (Ascii.eqb c ";"); [| apply IHe].
      destruct (entity (str ent)); [apply IHt | now left].
Qed.

Lemma build_flush acc : build [] None (flush acc []) = None.
Proof.
  destruct acc as [| a acc]; [reflexivity |]. cbn [flush build].
  now destruct (Text.all_chars xml_space (str (a :: acc))).
Qed.

Lemma parse_without_markup text : Text.contains "<" text = false -> parse text = None.
Proof.
  intros H. unfold parse.
  destruct (Text.all_chars xml_char text); [| reflexivity].
  destruct (proj1 (lex_without_markup _ (normalize_newlines_markup _ H)) [])
    as [-> | [acc' ->]]; [reflexivity | apply build_flush].
Qed.

End DomFacts.

(** ** Numerals *)

Module NumberFacts.
Import Js.

(** *** Reading back a printed integer *)

Lemma digits_of_uint_acc d : forall acc,
  Text.digits_value (N.pos acc) (NilEmpty.string_of_uint d)
  = N.pos (Pos.of_uint_acc d acc).
Proof.
  induction d; intros acc; cbn [NilEmpty.string_of_uint Text.digits_value Pos.of_uint_acc];
    [reflexivity | ..]; rewrite <- IHd; f_equal;
    match goal with
    | |- context [N.of_nat ?n] =>
        let v := eval vm_compute in (N.of_nat n) in change (N.of_nat n) with v
    end; lia.
Qed.

Lemma digits_of_uint d :
  Text.digits_value 0 (NilEmpty.string_of_uint d) = Pos.of_uint d.
Proof.
  induction d; cbn [NilEmpty.string_of_uint Text.digits_value Pos.of_uint];
    [reflexivity | exact IHd | ..]; apply digits_of_uint_acc.
Qed.

Lemma digits_of_pos p :
  Text.digits_value 0 (NilEmpty.string_of_uint (Pos.to_uint p)) = N.pos p.
Proof. now rewrite digits_of_uint, DecimalPos.Unsigned.of_to. Qed.

Lemma uint_all_digits d :
  Text.all_chars Text.is_digit (NilEmpty.string_of_uint d) = true.
Proof. induction d; cbn; auto. Qed.

Lemma uint_is_digits d :
  d <> Decimal.Nil -> Text.is_digits (NilEmpty.string_of_uint d) = true.
Proof.
  intros Hd. unfold Text.is_digits. rewrite uint_all_digits, andb_true_r.
  destruct d; [congruence | reflexivity ..].
Qed.


Lemma all_chars_forallb p s :
  Text.all_chars p s = forallb p (list_ascii_of_string s).
Proof. induction s as [| c s IH]; cbn; [reflexivity | now rewrite IH]. Qed.

Lemma all_chars_reverse p s : Text.all_chars p (Text.reverse s) = Text.all_chars p s.
Proof.
  unfold Text.reverse.
  rewrite !all_chars_forallb, list_ascii_of_string_of_list_ascii.
  induction (list_ascii_of_string s) as [| c l IH]; [reflexivity |].
  cbn. rewrite forallb_app, IH. cbn. rewrite andb_true_r. apply andb_comm.
Qed.

Lemma reverse_reverse s : Text.reverse (Text.reverse s) = s.
Proof.
  unfold Text.reverse.
  now rewrite list_ascii_of_string_of_list_ascii, rev_involutive,
    string_of_list_ascii_of_string.
Qed.

Lemma trim_left_inked s : Text.all_chars Text.inked s = true -> trim_left s = s.
Proof.
  destruct s as [| c s]; [reflexivity |]. cbn. intros H.
  apply andb_prop in H as [Hc _]. apply negb_true_iff in Hc. now rewrite Hc.
Qed.

Lemma trim_inked s : Text.all_chars Text.inked s = true -> trim s = s.
Proof.
  intros H. unfold trim. rewrite (trim_left_inked s H).
  rewrite trim_left_inked by now rewrite all_chars_reverse.
  apply reverse_reverse.
Qed.

Lemma all_chars_weaken (p q : ascii -> bool) s :
  (forall c, p c = true -> q c = true) ->
  Text.all_chars p s = true -> Text.all_chars q s = true.
Proof.
  intros Hpq. induction s as [| c s IH]; [reflexivity |]. cbn. intros H.
  apply andb_prop in H as [Hc Hs]. now rewrite (Hpq c Hc), IH.
Qed.

(** What a digit is not. *)
Lemma digit_plain c :
  Text.is_digit c = true ->
  Text.inked c = true /\ Ascii.eqb c "-" = false /\ Ascii.eqb c "+" = false
  /\ Ascii.eqb c "I" = false
  /\ Text.one_of "xX" c = false /\ Text.one_of "oO" c = false
  /\ Text.one_of "bB" c = false.
Proof.
  pose proof (TextFacts.ascii_forall
                (fun c => implb (Text.is_digit c)
                            (Text.inked c && negb (Ascii.eqb c "-") && negb (Ascii.eqb c "+")
                             && negb (Ascii.eqb c "I")
                             && negb (Text.one_of "xX" c) && negb (Text.one_of "oO" c)
                             && negb (Text.one_of "bB" c)))
                ltac:(vm_compute; reflexivity) c) as H.
  cbn beta in H. intros Hc. rewrite Hc in H. cbn [implb] in H.
  repeat (apply andb_prop in H as [H ?]).
  repeat split; try (now apply negb_true_iff); assumption.
Qed.

Lemma span_digits s :
  Text.all_chars Text.is_digit s = true -> Text.span Text.is_digit s = (s, EmptyString).
Proof.
  induction s as [| c s IH]; [reflexivity |]. cbn. intros H.
  apply andb_prop in H as [Hc Hs]. now rewrite Hc, IH.
Qed.

Lemma decimal_literal_digits neg s :
  Text.is_digits s = true ->
  (Text.digits_value 0 s <=? Z.to_N max_safe)%N = true ->
  decimal_literal neg s
  = NInt ((if neg then -1 else 1) * Z.of_N (Text.digits_value 0 s)).
Proof.
  unfold Text.is_digits. intros H Hsafe. apply andb_prop in H as [Hne Hall].
  apply negb_true_iff in Hne. unfold decimal_literal.
  assert (String.eqb s "Infinity" = false) as ->.
  { destruct s as [| c s]; [reflexivity |]. cbn in Hall.
    apply andb_prop in Hall as [Hc _].
    destruct (digit_plain c Hc) as (_ & _ & _ & E & _). cbn. now rewrite E. }
  rewrite (span_digits s Hall). cbn [fraction].
  rewrite TextFacts.append_empty, Hne. cbn [Text.exponent String.length].
  change (0 - Z.of_nat 0)%Z with 0%Z. unfold settle.
  destruct (Text.digits_value 0 s =? 0)%N eqn:E.
  - apply N.eqb_eq in E. rewrite E. f_equal. lia.
  - change (0 <=? 0)%Z with true. change (310 <? 0)%Z with false. cbn match.
    change (10 ^ Z.to_N 0)%N with 1%N. rewrite N.mul_1_r.
    unfold of_natural. now rewrite Hsafe.
Qed.

Lemma Number_digits s :
  Text.is_digits s = true ->
  (Text.digits_value 0 s <=? Z.to_N max_safe)%N = true ->
  Number s = NInt (Z.of_N (Text.digits_value 0 s)).
Proof.
  intros H Hsafe. pose proof H as H'. unfold Text.is_digits in H'.
  apply andb_prop in H' as [_ Hall].
  unfold Number.
  rewrite trim_inked
    by (apply (all_chars_weaken Text.is_digit); [apply digit_plain | exact Hall]).
  destruct s as [| c r]; [discriminate H |].
  cbn in Hall. apply andb_prop in Hall as [Hc Hr].
  destruct (digit_plain c Hc) as (_ & E1 & E2 & _).
  rewrite E1, E2.
  assert (radix_prefix (String c r) = None) as ->.
  { destruct r as [| x ds]; [reflexivity |]. cbn in Hr.
    apply andb_prop in Hr as [Hx _].
    destruct (digit_plain x Hx) as (_ & _ & _ & _ & Ex & Eo & Eb).
    cbn [radix_prefix]. rewrite Ex, Eo, Eb. now destruct (Ascii.eqb c "0"). }
  rewrite decimal_literal_digits by assumption. f_equal. lia.
Qed.

Lemma Number_minus_digits s :
  Text.is_digits s = true ->
  (Text.digits_value 0 s <=? Z.to_N max_safe)%N = true ->
  Number (String "-" s) = NInt (- Z.of_N (Text.digits_value 0 s)).
Proof.
  intros H Hsafe. pose proof H as H'. unfold Text.is_digits in H'.
  apply andb_prop in H' as [_ Hall].
  unfold Number.
  rewrite trim_inked.
  - cbn [Ascii.eqb Bool.eqb]. cbn match.
    rewrite decimal_literal_digits by assumption. reflexivity.
  - cbn. apply (all_chars_weaken Text.is_digit); [apply digit_plain | exact Hall].
Qed.

(** Printing a safe integer and reading the numeral gives the integer back. *)
Lemma Number_decimalZ z : safe z = true -> Number (Text.decimalZ z) = NInt z.
Proof.
  unfold safe, max_safe. intros Hz. apply Z.leb_le in Hz.
  assert (Hb : forall p, (Z.pos p <= 9007199254740991)%Z ->
                         (N.pos p <=? Z.to_N max_safe)%N = true).
  { intros p Hp. apply N.leb_le. unfold max_safe. lia. }
  unfold Text.decimalZ. destruct z as [| p | p]; [reflexivity | |];
    cbn [Z.to_int NilZero.string_of_int]; unfold NilZero.string_of_uint;
    pose proof (DecimalPos.Unsigned.to_uint_nonnil p) as Hp;
    pose proof (Hb p ltac:(lia)) as Hsafe;
    rewrite <- (digits_of_pos p) in Hsafe;
    pose proof (uint_is_digits _ Hp) as Hd;
    pose proof (digits_of_pos p) as Hv;
    destruct (Pos.to_uint p) eqn:E; try congruence.
  all: first
    [ rewrite (Number_digits _ Hd Hsafe); now rewrite Hv
    | rewrite (Number_minus_digits _ Hd Hsafe); now rewrite Hv ].
Qed.

(** A safe integer prints as its digits. *)
Lemma number_text_safe z : safe z = true -> number_text (NInt z) = Text.decimalZ z.
Proof. intros H. cbn [number_text]. now rewrite H. Qed.

(** The numeral of an integer is not empty and holds digits and a sign only. *)
Lemma decimalZ_chars z :
  Text.decimalZ z <> EmptyString
  /\ Text.all_chars Text.numeral_char (Text.decimalZ z) = true.
Proof.
  assert (Hu : forall p,
             NilZero.string_of_uint (Pos.to_uint p) <> EmptyString
             /\ Text.all_chars Text.numeral_char (NilZero.string_of_uint (Pos.to_uint p)) = true).
  { intros p. unfold NilZero.string_of_uint.
    pose proof (DecimalPos.Unsigned.to_uint_nonnil p) as Hp.
    pose proof (uint_all_digits (Pos.to_uint p)) as Hd.
    apply (all_chars_weaken _ Text.numeral_char) in Hd;
      [| intros c Hc; unfold Text.numeral_char; now rewrite Hc].
    destruct (Pos.to_uint p) eqn:E; try congruence; (split; [discriminate | exact Hd]). }
  unfold Text.decimalZ. destruct z as [| p | p]; cbn [Z.to_int NilZero.string_of_int].
  - now split.
  - apply Hu.
  - split; [discriminate |]. cbn. apply Hu.
Qed.

(** Beyond the safe integers a Number is the nearest binary64 value, and
    it prints as the shortest numeral that reads back as it, in exponent form
    from [1e21] on. *)
Example number_text_exponent_form : number_text (NInt (10 ^ 21)) = "1e+21".
Proof. vm_compute. reflexivity. Qed.

Example Number_rounds_to_even :
  Number "9007199254740993" = NOther "9007199254740992".
Proof. vm_compute. reflexivity. Qed.

Example Number_overflows : Number "1e309" = NOther "Infinity".
Proof. vm_compute. reflexivity. Qed.

Example Number_drops_trailing_zeros : Number "0.50" = NOther "0.5".
Proof. vm_compute. reflexivity. Qed.

End NumberFacts.

(** ** The round trip of plain values *)

Module RoundtripFacts.
Import Js Dom XmlRpc TextFacts.

Lemma jsval_induction (P : jsval -> Prop) :
  P JUndefined -> P JNull ->
  (forall s, P (JString s)) -> (forall b, P (JBool b)) ->
  (forall n, P (JNum n)) -> (forall t, P (JDate t)) ->
  (forall elems, Forall P elems -> P (JArray elems)) ->
  (forall props, Forall (fun kv => P (snd kv)) props -> P (JObject props)) ->
  forall v, P v.
Proof.
  intros HU HN HS HB HNum HD HA HO. fix IH 1.
  intros [| | s | b | n | t | elems | props];
    [exact HU | exact HN | apply HS | apply HB | apply HNum | apply HD | |].
  - apply HA. induction elems as [| e elems IHe]; constructor; [apply IH | exact IHe].
  - apply HO. induction props as [| [k v] props IHp]; constructor;
      [apply IH | exact IHp].
Qed.

(** *** The encoder writes the tree of a plain value *)

Lemma escape_char_table c :
  (if reserved c then entity_of (String c "") [] else String c "") = escape_char c.
Proof.
  apply String.eqb_eq.
  exact (TextFacts.ascii_forall
           (fun c => String.eqb
                       (if reserved c then entity_of (String c "") [] else String c "")
                       (escape_char c))
           ltac:(vm_compute; reflexivity) c).
Qed.

Lemma escapeXml_escape s : escapeXml s = escape s.
Proof.
  unfold escapeXml, Pat.replace_all.
  induction s as [| c s IH]; [reflexivity |].
  cbn [Pat.replace_from escape]. rewrite <- IH, <- escape_char_table.
  unfold Pat.match_here. cbn [Pat.run Pat.single].
  destruct (reserved c); reflexivity.
Qed.

Lemma forest_text_kids s : forest_text (text_kids s) = escape s.
Proof.
  unfold text_kids. destruct (String.eqb s "") eqn:E.
  - apply String.eqb_eq in E. now subst s.
  - unfold forest_text. cbn. apply TextFacts.append_empty.
Qed.

Lemma textContent_kids t s : textContent (Element t (text_kids s)) = s.
Proof.
  unfold text_kids. destruct (String.eqb s "") eqn:E.
  - apply String.eqb_eq in E. now subst s.
  - cbn. apply TextFacts.append_empty.
Qed.

Lemma escape_numeral s : Text.all_chars Text.numeral_char s = true -> escape s = s.
Proof.
  induction s as [| c s IH]; [reflexivity |]. cbn. intros H.
  apply andb_prop in H as [Hc Hs]. rewrite (IH Hs).
  pose proof (TextFacts.ascii_forall
                (fun c => implb (Text.numeral_char c)
                            (String.eqb (escape_char c) (String c "")))
                ltac:(vm_compute; reflexivity) c) as T.
  cbn beta in T. rewrite Hc in T. apply String.eqb_eq in T. now rewrite T.
Qed.

Lemma safe_numeral s :
  Text.all_chars Text.numeral_char s = true -> safe_text s = true.
Proof.
  apply NumberFacts.all_chars_weaken. intros c Hc.
  pose proof (TextFacts.ascii_forall
                (fun c => implb (Text.numeral_char c) (safe_char c))
                ltac:(vm_compute; reflexivity) c) as T.
  cbn beta in T. now rewrite Hc in T.
Qed.

Lemma text_of_wrap t kids : text_of (Element t kids) = wrap_text t (forest_text kids).
Proof. reflexivity. Qed.

Lemma encode_plain v :
  plain v = true -> encodeXmlRpcParam v = Ok (text_of (node_of v)).
Proof.
  induction v as [| | s | b | n | t | elems IH | props IH] using jsval_induction;
    cbn [plain]; try discriminate.
  - intros _. cbn [encodeXmlRpcParam node_of].
    rewrite text_of_wrap, forest_text_kids, escapeXml_escape. unfold wrap_text.
    same_text.
  - destruct n as [z | numeral]; [| discriminate]. intros Hz.
    cbn [encodeXmlRpcParam node_of isInteger].
    rewrite (NumberFacts.number_text_safe z Hz).
    rewrite text_of_wrap, forest_text_kids.
    rewrite (escape_numeral _ (proj2 (NumberFacts.decimalZ_chars z))).
    unfold wrap_text. same_text.
  - intros Hall. cbn [encodeXmlRpcParam node_of].
    assert (E : mapM (fun element => let* x := encodeXmlRpcParam element in
                                     Ok (wrap_value x)) elems
                = Ok (map (fun e => text_of (value_node (node_of e))) elems)).
    { induction elems as [| e elems IHe]; [reflexivity |].
      apply Forall_cons in IH as [He IH]. cbn [forallb] in Hall.
      apply andb_prop in Hall as [Hpe Hall].
      cbn [mapM map]. rewrite (He Hpe). cbn [bind]. rewrite (IHe IH Hall). cbn [bind].
      do 2 f_equal. unfold value_node, wrap_value. rewrite text_of_wrap.
      unfold forest_text, wrap_text. cbn [map Text.concat_all fold_right].
      rewrite TextFacts.append_empty. same_text. }
    rewrite E. cbn [bind]. f_equal.
    rewrite !text_of_wrap. unfold forest_text at 1. cbn [map Text.concat_all fold_right].
    rewrite text_of_wrap, TextFacts.append_empty. unfold wrap_text, forest_text.
    rewrite map_map. same_text.
  - intros H. apply andb_prop in H as [Hall _]. cbn [encodeXmlRpcParam node_of].
    assert (E : mapM (fun entry => let* x := encodeXmlRpcParam (snd entry) in
                                   Ok (wrap_member (fst entry) x)) props
                = Ok (map (fun kv => text_of (member_node (fst kv) (node_of (snd kv))))
                          props)).
    { induction props as [| [k v] props IHp]; [reflexivity |].
      apply Forall_cons in IH as [Hv IH]. cbn [forallb] in Hall.
      apply andb_prop in Hall as [Hkv Hall]. apply andb_prop in Hkv as [_ Hpv].
      cbn [mapM map fst snd] in *. rewrite (Hv Hpv). cbn [bind].
      rewrite (IHp IH Hall). cbn [bind].
      do 2 f_equal. unfold member_node, value_node, wrap_member.
      rewrite text_of_wrap. unfold forest_text. cbn [map Text.concat_all fold_right].
      rewrite !text_of_wrap, forest_text_kids, escapeXml_escape.
      unfold forest_text, wrap_text. cbn [map Text.concat_all fold_right].
      rewrite !TextFacts.append_empty. same_text. }
    rewrite E. cbn [bind]. f_equal.
    rewrite text_of_wrap. unfold wrap_text, forest_text. rewrite map_map. same_text.
Qed.


(** *** The tree of a plain value is clean *)

Lemma clean_text_kids s :
  safe_text s = true ->
  forallb clean (text_kids s) = true /\ apart (text_kids s) = true.
Proof.
  intros Hs. unfold text_kids. destruct (String.eqb s "") eqn:E; [now split |].
  cbn. now rewrite E, Hs.
Qed.

Lemma apart_elements kids : forallb is_element kids = true -> apart kids = true.
Proof.
  induction kids as [| k kids IH]; [reflexivity |]. cbn [forallb]. intros H.
  apply andb_prop in H as [Hk Hkids]. destruct k; [| discriminate].
  cbn [apart]. now apply IH.
Qed.

Lemma clean_plain v :
  plain v = true -> clean (node_of v) = true /\ is_element (node_of v) = true.
Proof.
  induction v as [| | s | b | n | t | elems IH | props IH] using jsval_induction;
    cbn [plain]; try discriminate.
  - intros Hs. split; [| reflexivity]. cbn [node_of clean].
    destruct (clean_text_kids s Hs) as [-> ->]. reflexivity.
  - destruct n as [z | numeral]; [| discriminate]. intros Hz. split; [| reflexivity].
    cbn [node_of clean isInteger]. rewrite (NumberFacts.number_text_safe z Hz).
    destruct (clean_text_kids _ (safe_numeral _ (proj2 (NumberFacts.decimalZ_chars z))))
      as [-> ->]. reflexivity.
  - intros Hall. split; [| reflexivity]. cbn [node_of clean forallb apart].
    assert (E : forallb clean (map (fun e => value_node (node_of e)) elems) = true
                /\ forallb is_element (map (fun e => value_node (node_of e)) elems) = true).
    { induction elems as [| e elems IHe]; [now split |].
      apply Forall_cons in IH as [He IH]. cbn [forallb] in Hall.
      apply andb_prop in Hall as [Hpe Hall].
      destruct (IHe IH Hall) as [E1 E2]. destruct (He Hpe) as [Hc _].
      cbn [map forallb]. rewrite E1, E2. cbn [value_node clean forallb apart].
      destruct (node_of e); rewrite Hc; now split. }
    destruct E as [E1 E2]. rewrite E1, (apart_elements _ E2). reflexivity.
  - intros H. apply andb_prop in H as [Hall _]. split; [| reflexivity].
    cbn [node_of clean].
    assert (E : forallb clean
                  (map (fun kv => member_node (fst kv) (node_of (snd kv))) props) = true
                /\ forallb is_element
                     (map (fun kv => member_node (fst kv) (node_of (snd kv))) props)
                   = true).
    { induction props as [| [k v] props IHp]; [now split |].
      apply Forall_cons in IH as [Hv IH]. cbn [forallb] in Hall.
      apply andb_prop in Hall as [Hkv Hall]. apply andb_prop in Hkv as [Hk Hpv].
      cbn [fst snd] in *. unfold plain_key in Hk.
      apply andb_prop in Hk as [Hk _]. apply andb_prop in Hk as [Hk _].
      destruct (IHp IH Hall) as [E1 E2]. destruct (Hv Hpv) as [Hc _].
      destruct (clean_text_kids k Hk) as [K1 K2].
      cbn [map forallb fst snd]. rewrite E1, E2.
      cbn [member_node value_node clean forallb apart]. rewrite K1, K2.
      destruct (node_of v); rewrite Hc; now split. }
    destruct E as [E1 E2]. rewrite E1, (apart_elements _ E2). reflexivity.
Qed.

(** *** Decoding the tree of a plain value *)

Lemma decode_value n :
  is_element n = true -> decodeXmlRpc (value_node n) = decodeXmlRpc n.
Proof.
  intros H. unfold value_node.
  change (decodeXmlRpc (Element "value" [n])) with (on_first_element decodeXmlRpc [n]).
  cbn [on_first_element]. now rewrite H.
Qed.

Lemma decode_values elems :
  Forall (fun v => plain v = true -> decodeXmlRpc (node_of v) = Ok v) elems ->
  forallb plain elems = true ->
  each_element decodeXmlRpc (map (fun e => value_node (node_of e)) elems) = Ok elems.
Proof.
  induction elems as [| e elems IHe]; intros IH Hall; [reflexivity |].
  apply Forall_cons in IH as [He IH]. cbn [forallb] in Hall.
  apply andb_prop in Hall as [Hpe Hall].
  cbn [map each_element value_node is_element].
  fold (value_node (node_of e)).
  rewrite decode_value by apply (clean_plain e Hpe).
  rewrite (He Hpe). cbn [bind]. now rewrite (IHe IH Hall).
Qed.

Lemma decode_member key n :
  is_element n = true ->
  decodeXmlRpc (member_node key n)
  = let* value := decodeXmlRpc n in Ok (JObject (Props.singleton key value)).
Proof.
  intros H. unfold member_node.
  change (decodeXmlRpc (Element "member" [Element "name" (text_kids key); value_node n]))
    with (match querySelector "name" [Element "name" (text_kids key); value_node n] with
          | None => Throw TypeError
          | Some name =>
              let* value := or_null (select "value" decodeXmlRpc
                                       [Element "name" (text_kids key); value_node n]) in
              Ok (JObject (Props.singleton (textContent name) value))
          end).
  cbn [querySelector first_in String.eqb Ascii.eqb Bool.eqb]. cbn match.
  rewrite textContent_kids.
  assert (select "value" decodeXmlRpc [Element "name" (text_kids key); value_node n]
          = Some (decodeXmlRpc (value_node n))) as ->.
  { unfold text_kids. destruct (String.eqb key ""); reflexivity. }
  cbn [or_null]. now rewrite decode_value.
Qed.

Lemma add_append k v o :
  Props.array_index k = None -> Props.add k v o = o ++ [(k, v)].
Proof.
  intros Hk. induction o as [| [k' v'] o IH]; cbn [Props.add]; [reflexivity |].
  now rewrite Hk, IH.
Qed.

Lemma has_append k o o' : Props.has k (o ++ o') = Props.has k o || Props.has k o'.
Proof. unfold Props.has. apply existsb_app. Qed.

Lemma decode_members props : forall acc,
  Forall (fun kv => plain (snd kv) = true -> decodeXmlRpc (node_of (snd kv)) = Ok (snd kv))
         props ->
  forallb (fun kv => plain_key (fst kv) && plain (snd kv)) props = true ->
  distinct (map fst props) = true ->
  forallb (fun k => negb (Props.has k acc)) (map fst props) = true ->
  assign_each decodeXmlRpc acc
    (map (fun kv => member_node (fst kv) (node_of (snd kv))) props)
  = Ok (acc ++ props).
Proof.
  induction props as [| [k v] props IHp]; intros acc IH Hall Hdis Hfresh.
  - cbn. now rewrite app_nil_r.
  - apply Forall_cons in IH as [Hv IH]. cbn [forallb map fst snd] in *.
    apply andb_prop in Hall as [Hkv Hall]. apply andb_prop in Hkv as [Hk Hpv].
    apply andb_prop in Hdis as [Hnew Hdis]. apply andb_prop in Hfresh as [Hk0 Hfresh].
    unfold plain_key in Hk. apply andb_prop in Hk as [Hk Hidx].
    apply andb_prop in Hk as [_ Hproto].
    apply negb_true_iff in Hproto, Hk0, Hnew.
    cbn [assign_each member_node is_element]. fold (member_node k (node_of v)).
    rewrite decode_member by apply (clean_plain v Hpv).
    rewrite (Hv Hpv). cbn [bind].
    assert (Props.assign acc (JObject (Props.singleton k v)) = acc ++ [(k, v)]) as ->.
    { unfold Props.assign, Props.singleton. cbn [Props.own fold_left fst snd].
      unfold Props.set. rewrite Hproto, Hk0. apply add_append.
      now destruct (Props.array_index k). }
    rewrite IHp; try assumption.
    + now rewrite <- app_assoc.
    + clear IHp IH Hall Hdis. induction props as [| [k' v'] props IHq]; [reflexivity |].
      cbn [map forallb fst existsb] in *.
      apply andb_prop in Hfresh as [Hk' Hfresh]. apply orb_false_iff in Hnew as [Hne Hnew].
      rewrite has_append, (IHq Hnew Hfresh), andb_true_r.
      apply negb_true_iff in Hk'. rewrite Hk'. cbn. now rewrite Hne.
Qed.

Lemma decode_plain v : plain v = true -> decodeXmlRpc (node_of v) = Ok v.
Proof.
  induction v as [| | s | b | n | t | elems IH | props IH] using jsval_induction;
    cbn [plain]; try discriminate.
  - intros _. cbn [node_of].
    change (decodeXmlRpc (Element "string" (text_kids s)))
      with (Ok (JString (textContent (Element "string" (text_kids s))))).
    now rewrite textContent_kids.
  - destruct n as [z | numeral]; [| discriminate]. intros Hz.
    cbn [node_of isInteger]. rewrite (NumberFacts.number_text_safe z Hz).
    change (decodeXmlRpc (Element "int" (text_kids (Text.decimalZ z))))
      with (Ok (JNum (Number (textContent (Element "int" (text_kids (Text.decimalZ z))))))).
    now rewrite textContent_kids, NumberFacts.Number_decimalZ.
  - intros Hall. cbn [node_of].
    change (decodeXmlRpc
              (Element "array"
                 [Element "data" (map (fun e => value_node (node_of e)) elems)]))
      with (let* array := each_element decodeXmlRpc
                            (map (fun e => value_node (node_of e)) elems) in
            Ok (JArray array)).
    now rewrite decode_values.
  - intros H. apply andb_prop in H as [Hall Hdis]. cbn [node_of].
    change (decodeXmlRpc
              (Element "struct"
                 (map (fun kv => member_node (fst kv) (node_of (snd kv))) props)))
      with (let* object := assign_each decodeXmlRpc []
                             (map (fun kv => member_node (fst kv) (node_of (snd kv)))
                                  props) in
            Ok (JObject object)).
    rewrite decode_members; try assumption; [reflexivity |].
    clear. induction props as [| [k v] props IHp]; [reflexivity | exact IHp].
Qed.

(** For every plain value, decoding the parsed encoding gives the value back. *)
Lemma roundtrip_plain v :
  plain v = true ->
  exists x, encodeXmlRpcParam v = Ok x /\ decodeXmlRpc (parseFromString x) = Ok v.
Proof.
  intros Hv. exists (text_of (node_of v)). split; [now apply encode_plain |].
  destruct (clean_plain v Hv) as [Hc He].
  unfold parseFromString. rewrite DomFacts.parse_text_of by assumption.
  now apply decode_plain.
Qed.

End RoundtripFacts.

(** ** The value codec *)

Module CodecFacts.
Import Js Dom XmlRpc.

(** *** The decoder's accessors are the DOM ones *)

Lemma on_first_element_dom {A} (f : node -> res A) kids :
  on_first_element f kids
  = match firstElementChild kids with
    | Some n => f n
    | None => Throw TypeError
    end.
Proof.
  unfold firstElementChild, children.
  induction kids as [| n kids IH]; [reflexivity |].
  cbn [on_first_element List.filter]. destruct (is_element n); [reflexivity | exact IH].
Qed.

Lemma each_element_dom f kids : each_element f kids = mapM f (children kids).
Proof.
  unfold children. induction kids as [| n kids IH]; [reflexivity |].
  cbn [each_element List.filter]. destruct (is_element n); [| exact IH].
  cbn [mapM]. now rewrite IH.
Qed.

Lemma assign_each_dom f kids : forall object,
  assign_each f object kids
  = fold_left (fun acc n => let* o := acc in let* v := f n in Ok (Props.assign o v))
              (children kids) (Ok object).
Proof.
  assert (Hthrow : forall (l : list node) e,
             fold_left (fun acc n => let* o := acc in
                                     let* v := f n in Ok (Props.assign o v))
                       l (Throw e) = Throw e)
    by (induction l as [| n l IHl]; intros e; [reflexivity | apply IHl]).
  unfold children. induction kids as [| n kids IH]; intros object; [reflexivity |].
  cbn [assign_each List.filter]. destruct (is_element n); [| apply IH].
  cbn [fold_left bind]. destruct (f n) as [v | e]; cbn [bind]; [apply IH |].
  now rewrite Hthrow.
Qed.

Lemma select_in_dom {A} tag (f : node -> A) n :
  select_in tag f n = f <$> first_in tag n.
Proof.
  induction n as [t kids IH | d] using DomFacts.node_induction; [| reflexivity].
  cbn [select_in first_in]. destruct (String.eqb t tag); [reflexivity |].
  induction kids as [| k kids IHk]; [reflexivity |].
  apply Forall_cons in IH as [Hk IH]. rewrite Hk.
  destruct (first_in tag k); [reflexivity | now apply IHk].
Qed.

Lemma select_dom {A} tag (f : node -> A) kids :
  select tag f kids = f <$> querySelector tag kids.
Proof.
  induction kids as [| k kids IH]; [reflexivity |].
  cbn [select querySelector]. rewrite select_in_dom.
  destruct (first_in tag k); [reflexivity | exact IH].
Qed.

(** C1 at its failing inputs.  The encoder closes a boolean with
    [<boolean>] instead of [</boolean>], so the fragment for [true] is not
    well-formed and what the parser hands back decodes to undefined; and the
    decoder has no case for the [dateTime.iso8601] tag that the encoder
    emits for a date, so a date decodes to undefined as well.  Neither value
    comes back from decoding its own encoding. *)
Theorem roundtrip_loses_booleans_and_dates :
  (exists x,
      encodeXmlRpcParam (JBool true) = Ok x
      /\ x = "<boolean>true<boolean>"
      /\ Dom.parse x = None
      /\ decodeXmlRpc (parseFromString x) = Ok JUndefined
      /\ decodeXmlRpc (parseFromString x) <> Ok (JBool true))
  /\ (exists x,
        encodeXmlRpcParam (JDate (Some 0%Z)) = Ok x
        /\ parseFromString x
           = Element "dateTime.iso8601" [TextNode "1970-01-01T00:00:00.000Z"]
        /\ decodeXmlRpc (parseFromString x) = Ok JUndefined
        /\ decodeXmlRpc (parseFromString x) <> Ok (JDate (Some 0%Z))).
Proof.
  split; eexists; (split; [reflexivity |]); repeat split; try reflexivity;
    vm_compute; discriminate.
Qed.

(** Values of the other kinds do come back ([RoundtripFacts.roundtrip_plain]
    proves it for texts, safe integers, arrays and structs), and the documents of
    the design document decode as it says. *)
Example roundtrip_sample :
  let v := JArray [JString ("<a&b>'" +:+ String dquote "");
                   JNum (NInt (-42));
                   JObject [("name", JString "foo.torrent");
                            ("sizes", JArray [JNum (NInt 1024); JNum (NInt 0)])];
                   JArray []] in
  exists x, encodeXmlRpcParam v = Ok x /\ decodeXmlRpc (parseFromString x) = Ok v.
Proof. eexists. split; reflexivity. Qed.

Example decode_listMethods :
  decodeXmlRpc
    (parseFromString
       ("<methodResponse><params><param><value><array><data>"
          +:+ "<value><string>d.multicall2</string></value>"
          +:+ "</data></array></value></param></params></methodResponse>"))
  = Ok (JArray [JString "d.multicall2"]).
Proof. reflexivity. Qed.

Example decode_empty_array :
  decodeXmlRpc (parseFromString "<array><data/></array>") = Ok (JArray []).
Proof. reflexivity. Qed.

(** C4 (as amended).  For a node whose tag is none of the recognized
    XML-RPC tags, [decodeXmlRpc] raises no error: its default case returns a
    value without decoding any child. *)
Theorem unrecognized_tag_returns tag kids :
  tag_in tag recognized_tags = false ->
  exists v, decodeXmlRpc (Element tag kids) = Ok v.
Proof.
  intros H. cbn in H.
  repeat (apply orb_false_iff in H as [? H]).
  unfold decodeXmlRpc, tag_in, scalar_tags, wrapper_tags. cbn [existsb].
  repeat match goal with E : String.eqb tag _ = false |- _ => rewrite E; clear E end.
  cbn [orb]. eauto.
Qed.

Lemma unrecognized_tag_returns_witness :
  tag_in "foo" recognized_tags = false
  /\ exists v, decodeXmlRpc (Element "foo" [TextNode "bar"]) = Ok v.
Proof.
  split; [reflexivity |].
  exact (unrecognized_tag_returns "foo" [TextNode "bar"] eq_refl).
Defined.

(** C4 as stated fails: decoding a node with an unknown tag is not an error. *)
Lemma unrecognized_tag_is_no_error :
  tag_in "foo" recognized_tags = false
  /\ decodeXmlRpc (Element "foo" [TextNode "bar"]) = Ok JUndefined
  /\ ~ (forall tag kids, tag_in tag recognized_tags = false ->
                         exists e, decodeXmlRpc (Element tag kids) = Throw e).
Proof.
  split; [reflexivity |]. split; [reflexivity |].
  intros H. destruct (H "foo" [TextNode "bar"] eq_refl) as [e He]. discriminate He.
Qed.

End CodecFacts.

(** ** The SCGI relay *)

Module RelayFacts.
Import Relay.

(** Reading a line takes at least its line feed off the stream. *)
Lemma receive_line_shorter closes inbound : forall acc line rest,
  receive_line closes acc inbound = Data line rest ->
  String.length rest < String.length inbound.
Proof.
  induction inbound as [| c inbound IH]; intros acc line rest H; cbn in H.
  - destruct closes; discriminate H.
  - destruct (Ascii.eqb c LF).
    + injection H as _ <-. cbn. lia.
    + destruct (Ascii.eqb c CR); apply IH in H; cbn; lia.
Qed.

(** The header loop ends within one turn per byte left on the stream. *)
Lemma read_headers_ends closes fuel : forall headers line inbound,
  String.length inbound < fuel ->
  is_Some (read_headers fuel closes headers line inbound).
Proof.
  induction fuel as [| fuel IH]; intros headers line inbound Hlen; [lia |].
  cbn [read_headers]. destruct (String.eqb line ""); [eauto |].
  destruct (find_anchored header_pattern line) as [[| name [| value [| ? ?]]] |]; eauto.
  destruct (receive_line closes [] inbound) as [line' inbound' | err |] eqn:E; [| eauto ..].
  apply IH. apply receive_line_shorter in E. lia.
Qed.

(** The turns that [call] allows always suffice. *)
Lemma call_on_total closes w args_xml : is_Some (call_on closes w args_xml).
Proof.
  unfold call_on, call_with, turns.
  destruct (resolve w) as [[address port] |]; [| eauto].
  destruct (peer w address port) as [inbound |]; [| eauto].
  destruct args_xml as [xml |]; [| eauto].
  destruct (receive_line closes [] inbound) as [line inbound' | err |] eqn:E; [| eauto ..].
  apply receive_line_shorter in E.
  change (default "" (Some inbound)) with inbound.
  destruct (read_headers_ends closes (S (String.length inbound)) ∅ line inbound'
              ltac:(cbn; lia))
    as [[stop | [headers rest]] ->]; eauto.
Qed.

Lemma call_total w args_xml : is_Some (call w args_xml).
Proof. apply call_on_total. Qed.

Lemma header_spec xml : header xml = spec_header_block xml.
Proof.
  unfold header, content_length, scgi_enable, request_method, server_protocol,
    spec_header_block, length_text.
  now rewrite !TextFacts.append_assoc.
Qed.

Lemma request_spec xml : request xml = spec_message xml.
Proof. unfold request, spec_message, length_text. now rewrite header_spec. Qed.

(** Once the connection stands and there is a document, the request is the
    one thing sent, whatever the peer does then. *)
Lemma call_sends closes w xml address port inbound r :
  resolve w = Some (address, port) ->
  peer w address port = Some inbound ->
  call_on closes w (Some xml) = Some r ->
  sent r = [request xml].
Proof.
  intros Hres Hpeer Hr. unfold call_on, call_with in Hr. rewrite Hres, Hpeer in Hr.
  destruct (receive_line closes [] inbound) as [line inbound' | err |].
  - destruct (read_headers _ _ _ _ _) as [[stop | [headers rest]] |];
      [injection Hr as <- .. | discriminate Hr]; reflexivity.
  - injection Hr as <-. reflexivity.
  - injection Hr as <-. reflexivity.
Qed.

(** C5.  Once the address is resolved and the connection stands, the relay
    sends one message, whether the peer then answers, closes or stays silent,
    and it is [decimal(len(H)) ++ ":" ++ H ++ "," ++ b] for the header block
    [H] of the design document, spelt with the byte 0 for NUL.  For a body of
    42 bytes the [CONTENT_LENGTH] value is the text ["42"]: the header block
    is 70 bytes long and the message is the one written out below. *)
Theorem request_framing closes w b address port inbound :
  resolve w = Some (address, port) ->
  peer w address port = Some inbound ->
  exists r,
    call_on closes w (Some b) = Some r
    /\ sent r
       = [Text.decimal (String.length (spec_header_block b)) +:+ ":"
            +:+ "CONTENT_LENGTH" +:+ NUL +:+ Text.decimal (String.length b) +:+ NUL
            +:+ "SCGI" +:+ NUL +:+ "1" +:+ NUL
            +:+ "REQUEST_METHOD" +:+ NUL +:+ "POST" +:+ NUL
            +:+ "SERVER_PROTOCOL" +:+ NUL +:+ "HTTP/1.1" +:+ NUL
            +:+ "," +:+ b]
    /\ (String.length b = 42 ->
        sent r
        = ["70:" +:+ "CONTENT_LENGTH" +:+ NUL +:+ "42" +:+ NUL
             +:+ "SCGI" +:+ NUL +:+ "1" +:+ NUL
             +:+ "REQUEST_METHOD" +:+ NUL +:+ "POST" +:+ NUL
             +:+ "SERVER_PROTOCOL" +:+ NUL +:+ "HTTP/1.1" +:+ NUL
             +:+ "," +:+ b]).
Proof.
  intros Hres Hpeer.
  destruct (call_on_total closes w (Some b)) as [r Hr]. exists r.
  split; [exact Hr |].
  rewrite (call_sends closes w b address port inbound r Hres Hpeer Hr), request_spec.
  split.
  - unfold spec_message. f_equal. unfold spec_header_block at 2.
    now rewrite !TextFacts.append_assoc.
  - intros Hlen. unfold spec_message, spec_header_block. rewrite Hlen. reflexivity.
Qed.

Lemma request_framing_witness :
  exists r,
    call (daemon ("Status: 200 OK" +:+ crlf +:+ "Content-Length: 4" +:+ crlf
                    +:+ crlf +:+ "<r/>"))
         (Some "<methodName>system.methodHelp</methodName>")
    = Some r
    /\ sent r
       = ["70:" +:+ "CONTENT_LENGTH" +:+ NUL +:+ "42" +:+ NUL
            +:+ "SCGI" +:+ NUL +:+ "1" +:+ NUL
            +:+ "REQUEST_METHOD" +:+ NUL +:+ "POST" +:+ NUL
            +:+ "SERVER_PROTOCOL" +:+ NUL +:+ "HTTP/1.1" +:+ NUL
            +:+ "," +:+ "<methodName>system.methodHelp</methodName>"].
Proof.
  destruct (request_framing true
              (daemon ("Status: 200 OK" +:+ crlf +:+ "Content-Length: 4" +:+ crlf
                         +:+ crlf +:+ "<r/>"))
              "<methodName>system.methodHelp</methodName>"
              "127.0.0.1" "5000"
              ("Status: 200 OK" +:+ crlf +:+ "Content-Length: 4" +:+ crlf
                 +:+ crlf +:+ "<r/>")
              eq_refl eq_refl) as [r [Hr [_ H42]]].
  exists r. split; [exact Hr | exact (H42 eq_refl)].
Defined.

(** C2 at its failing inputs.  A response without a [Status] header, or
    with one that does not start with three digits, makes [call] raise a Lua
    error instead of returning an error value; and a body cut short of its
    [Content-Length] makes it return a table with neither [xml] nor
    [error]. *)
Theorem call_raises_on_missing_status :
  call (daemon ("Content-Length: 4" +:+ crlf +:+ crlf +:+ "<r/>")) (Some "<x/>")
  = Some (Trace (Raised "attempt to index field 'status' (a nil value)")
              [request "<x/>"])
  /\ call (daemon ("Status: OK" +:+ crlf +:+ "Content-Length: 4" +:+ crlf
                     +:+ crlf +:+ "<r/>")) (Some "<x/>")
     = Some (Trace (Raised "attempt to concatenate local 'code' (a nil value)")
                 [request "<x/>"])
  /\ call (daemon ("Status: 200 OK" +:+ crlf +:+ "Content-Length: 40" +:+ crlf
                     +:+ crlf +:+ "<r/>")) (Some "<x/>")
     = Some (Trace (Returned ∅ None) [request "<x/>"]).
Proof. repeat split; vm_compute; reflexivity. Qed.

(** The stages that do answer with an error value, each with its own text. *)
Lemma call_error_stages :
  (forall connect xml,
     call (World None connect) xml = Some (Trace (failure "No scgi port") []))
  /\ (forall xml,
        call (World (Some sample_config) (fun _ _ => None)) xml
        = Some (Trace (failure "Socket connect failed") []))
  /\ call (daemon "Status: 200 OK") (Some "<x/>")
     = Some (Trace (failure "closed") [request "<x/>"])
  /\ call (daemon ("garbage" +:+ crlf +:+ crlf)) (Some "<x/>")
     = Some (Trace (failure "Malformed reponse header: garbage") [request "<x/>"]).
Proof. repeat split; vm_compute; reflexivity. Qed.


(** C6 at its failing input.  A [404 Not Found] status is answered with
    the error naming 404, but a response with no [Content-Length] is not
    refused: the missing value makes [receive] read one line, so the relay
    returns the first line of the body as the document, or an empty table
    when the body has no line feed. *)
Theorem missing_content_length_truncates :
  call (daemon ("Status: 404 Not Found" +:+ crlf +:+ "Content-Length: 0" +:+ crlf
                  +:+ crlf)) (Some "<x/>")
  = Some (Trace (failure "Wrong response code: 404") [request "<x/>"])
  /\ call (daemon ("Status: 200 OK" +:+ crlf +:+ crlf
                     +:+ "<methodResponse>" +:+ newline +:+ "<params/></methodResponse>"))
          (Some "<x/>")
     = Some (Trace (success (Some "<methodResponse>")) [request "<x/>"])
  /\ call (daemon ("Status: 200 OK" +:+ crlf +:+ crlf
                     +:+ "<methodResponse><params/></methodResponse>"))
          (Some "<x/>")
     = Some (Trace (success None) [request "<x/>"]).
Proof. repeat split; vm_compute; reflexivity. Qed.

End RelayFacts.

(** ** More on the value codec *)

Module CodecMore.
Import Js Dom XmlRpc Shapes TextFacts.

(** A loop over parts stops at the first part that fails. *)
Lemma mapM_first {A B} (f : A -> res B) (g : A -> option exn) l :
  Forall (fun a => match g a with
                   | Some e => f a = Throw e
                   | None => exists b, f a = Ok b
                   end) l ->
  match first_error g l with
  | Some e => mapM f l = Throw e
  | None => exists bs, mapM f l = Ok bs
  end.
Proof.
  induction 1 as [| a l Ha _ IH]; cbn [first_error mapM]; [eauto |].
  destruct (g a) as [e |].
  - now rewrite Ha.
  - destruct Ha as [b ->]. cbn [bind].
    destruct (first_error g l) as [e |].
    + now rewrite IH.
    + destruct IH as [bs ->]. cbn. eauto.
Qed.

(** X1.  [encodeXmlRpcParam] fails exactly on the values that hold null
    or a date without a valid time value, at any depth, and with the error of
    the first such part in the order of the encoding: a TypeError for null
    (from [Object.entries(null)]) and a RangeError for the date (from
    [toISOString]).  Every other value is written. *)
Theorem encode_fails_on_null_and_bad_dates v :
  encodeXmlRpcParam JNull = Throw TypeError
  /\ encodeXmlRpcParam (JDate None) = Throw RangeError
  /\ match failure_of v with
     | Some e => encodeXmlRpcParam v = Throw e
     | None => exists x, encodeXmlRpcParam v = Ok x
     end.
Proof.
  split; [reflexivity |]. split; [reflexivity |].
  induction v as [| | s | b | n | t | elems IH | props IH]
    using RoundtripFacts.jsval_induction; cbn [failure_of encodeXmlRpcParam].
  - eauto.
  - reflexivity.
  - eauto.
  - eauto.
  - destruct (isInteger n); eauto.
  - destruct t as [ms |]; cbn [toISOString]; [| reflexivity].
    destruct (Z.abs ms <=? 8640000000000000)%Z; [| reflexivity].
    destruct (civil_from_days (ms / 86400000)) as [[y m] d]. cbn. eauto.
  - set (f := fun element => let* x := encodeXmlRpcParam element in Ok (wrap_value x)).
    assert (H : match first_error failure_of elems with
                | Some e => mapM f elems = Throw e
                | None => exists bs, mapM f elems = Ok bs
                end).
    { apply mapM_first. eapply Forall_impl; [exact IH |]. intros a Ha. unfold f. cbn beta in Ha.
      destruct (failure_of a) as [e' |]; [now rewrite Ha |].
      destruct Ha as [x ->]. cbn. eauto. }
    destruct (first_error failure_of elems) as [e |].
    + now rewrite H.
    + destruct H as [bs ->]. cbn. eauto.
  - set (f := fun entry : string * jsval =>
                let* x := encodeXmlRpcParam (snd entry) in Ok (wrap_member (fst entry) x)).
    set (g := fun kv : string * jsval => failure_of (snd kv)).
    assert (H : match first_error g props with
                | Some e => mapM f props = Throw e
                | None => exists bs, mapM f props = Ok bs
                end).
    { apply mapM_first. eapply Forall_impl; [exact IH |]. intros a Ha. unfold f, g. cbn beta in Ha.
      destruct (failure_of (snd a)) as [e' |]; [now rewrite Ha |].
      destruct Ha as [x ->]. cbn. eauto. }
    destruct (first_error g props) as [e |].
    + now rewrite H.
    + destruct H as [bs ->]. cbn. eauto.
Qed.

Lemma encode_fails_on_null_and_bad_dates_witness :
  encodeXmlRpcParam (JObject [("k", JArray [JString "a"; JNull; JDate None])])
  = Throw TypeError
  /\ encodeXmlRpcParam (JArray [JDate None; JNull]) = Throw RangeError
  /\ exists x, encodeXmlRpcParam (JArray [JString "a"; JUndefined]) = Ok x.
Proof.
  split; [| split].
  - exact (proj2 (proj2 (encode_fails_on_null_and_bad_dates
                           (JObject [("k", JArray [JString "a"; JNull; JDate None])])))).
  - exact (proj2 (proj2 (encode_fails_on_null_and_bad_dates (JArray [JDate None; JNull])))).
  - exact (proj2 (proj2 (encode_fails_on_null_and_bad_dates
                           (JArray [JString "a"; JUndefined])))).
Defined.

(** *** escapeXml *)

Lemma escape_char_clean c :
  Text.all_chars (fun a => negb (markup a)) (escape_char c) = true.
Proof.
  exact (ascii_forall
           (fun c => Text.all_chars (fun a => negb (markup a)) (escape_char c))
           ltac:(vm_compute; reflexivity) c).
Qed.

Lemma escape_char_verbatim c : reserved c = false -> escape_char c = String c "".
Proof.
  pose proof (ascii_forall
                (fun c => reserved c || String.eqb (escape_char c) (String c ""))
                ltac:(vm_compute; reflexivity) c) as H.
  cbn beta in H. intros Hc. rewrite Hc in H. now apply String.eqb_eq in H.
Qed.

Lemma escape_append a b : escape (a +:+ b) = escape a +:+ escape b.
Proof.
  induction a as [| c a IH]; [reflexivity |].
  rewrite append_cons. cbn [escape]. now rewrite IH, append_assoc.
Qed.

(** X2.  The result of [escapeXml] holds none of [<], [>], ['] and the
    double quote, whatever the text; a text without any of the five
    reserved characters comes out unchanged; and escaping a concatenation is
    concatenating the escapes. *)
Theorem escapeXml_leaves_no_markup s :
  Text.all_chars (fun a => negb (markup a)) (escapeXml s) = true
  /\ (Text.all_chars (fun a => negb (reserved a)) s = true -> escapeXml s = s)
  /\ forall t, escapeXml (s +:+ t) = escapeXml s +:+ escapeXml t.
Proof.
  rewrite RoundtripFacts.escapeXml_escape. repeat split.
  - induction s as [| c s IH]; [reflexivity |]. cbn [escape].
    now rewrite DomFacts.all_chars_append, escape_char_clean, IH.
  - induction s as [| c s IH]; [reflexivity |]. cbn. intros H.
    apply andb_prop in H as [Hc Hs]. apply negb_true_iff in Hc.
    now rewrite escape_char_verbatim, IH.
  - intros t. rewrite !RoundtripFacts.escapeXml_escape. apply escape_append.
Qed.

Lemma escapeXml_leaves_no_markup_witness :
  escapeXml "d.name=" = "d.name=".
Proof.
  exact (proj1 (proj2 (escapeXml_leaves_no_markup "d.name=")) eq_refl).
Defined.

(** X3.  For every value made of texts without carriage return or control
    characters, safe integers (at most [2 ^ 53 - 1] in magnitude), and arrays
    and structs of these (member names distinct, no array index, not
    [__proto__]), the encoding parses to the tree of the value, and decoding
    the parsed encoding gives the value back. *)
Theorem roundtrip_of_plain_values v :
  plain v = true ->
  exists x,
    encodeXmlRpcParam v = Ok x
    /\ parse x = Some (node_of v)
    /\ decodeXmlRpc (parseFromString x) = Ok v.
Proof.
  intros Hv. exists (text_of (node_of v)).
  destruct (RoundtripFacts.clean_plain v Hv) as [Hc He].
  split; [now apply RoundtripFacts.encode_plain |].
  split; [now apply DomFacts.parse_text_of |].
  unfold parseFromString. rewrite DomFacts.parse_text_of by assumption.
  now apply RoundtripFacts.decode_plain.
Qed.

Lemma roundtrip_of_plain_values_witness :
  exists x,
    encodeXmlRpcParam
      (JObject [("name", JString "a<b & c"); ("sizes", JArray [JNum (NInt (-7)); JNum (NInt 1024)])])
    = Ok x
    /\ decodeXmlRpc (parseFromString x)
       = Ok (JObject [("name", JString "a<b & c");
                      ("sizes", JArray [JNum (NInt (-7)); JNum (NInt 1024)])]).
Proof.
  destruct (roundtrip_of_plain_values
              (JObject [("name", JString "a<b & c");
                        ("sizes", JArray [JNum (NInt (-7)); JNum (NInt 1024)])])
              eq_refl) as [x [H1 [_ H2]]].
  exists x. split; assumption.
Defined.


(** *** The call document *)

Lemma verbatim_safe m : verbatim m = true -> safe_text m = true.
Proof.
  apply NumberFacts.all_chars_weaken. intros c H. now apply andb_prop in H as [H _].
Qed.

Lemma verbatim_escape m : verbatim m = true -> escape m = m.
Proof.
  induction m as [| c m IH]; [reflexivity |]. unfold verbatim. cbn. intros H.
  apply andb_prop in H as [Hc Hm]. apply andb_prop in Hc as [_ Hc].
  apply negb_true_iff in Hc. now rewrite escape_char_verbatim, IH.
Qed.

Lemma encode_params params :
  forallb plain params = true ->
  mapM (fun param => let* x := encodeXmlRpcParam param in Ok (wrap_param x)) params
  = Ok (map (fun v => text_of (param_node v)) params).
Proof.
  induction params as [| v params IH]; [reflexivity |]. cbn [forallb]. intros H.
  apply andb_prop in H as [Hv Hp].
  cbn [mapM map]. rewrite (RoundtripFacts.encode_plain v Hv). cbn [bind].
  rewrite (IH Hp). cbn [bind]. do 2 f_equal.
  unfold param_node, value_node, wrap_param.
  rewrite !RoundtripFacts.text_of_wrap. unfold forest_text, wrap_text.
  cbn [map Text.concat_all fold_right].
  rewrite RoundtripFacts.text_of_wrap. unfold forest_text, wrap_text.
  cbn [map Text.concat_all fold_right]. rewrite !append_empty. same_text.
Qed.

Lemma clean_call_tree method params :
  verbatim method = true ->
  forallb plain params = true ->
  clean (call_tree method params) = true.
Proof.
  intros Hm Hp. unfold call_tree. cbn [clean forallb apart].
  destruct (RoundtripFacts.clean_text_kids method (verbatim_safe _ Hm)) as [-> ->].
  assert (E : forallb clean (map param_node params) = true
              /\ forallb is_element (map param_node params) = true).
  { induction params as [| v params IH]; [now split |]. cbn [forallb] in Hp.
    apply andb_prop in Hp as [Hv Hp]. destruct (IH Hp) as [E1 E2].
    destruct (RoundtripFacts.clean_plain v Hv) as [Hc _].
    cbn [map forallb]. rewrite E1, E2.
    cbn [param_node value_node clean forallb apart]. rewrite Hc.
    destruct (node_of v); now split. }
  destruct E as [E1 E2]. rewrite E1, (RoundtripFacts.apart_elements _ E2). reflexivity.
Qed.

Lemma parse_declared n :
  clean n = true -> is_element n = true ->
  parse (xml_declaration +:+ text_of n) = Some n.
Proof.
  intros Hc He. unfold parse.
  pose proof (DomFacts.safe_text_of n Hc) as Hs.
  assert (Hd : Text.all_chars safe_char (xml_declaration +:+ text_of n) = true).
  { rewrite DomFacts.all_chars_append, Hs. reflexivity. }
  destruct (DomFacts.safe_passes _ Hd) as [-> ->].
  assert (lex (MText []) (xml_declaration +:+ text_of n)
          = flush [] <$> lex (MText []) (text_of n)) as -> by reflexivity.
  rewrite DomFacts.lex_text_of by assumption. now apply DomFacts.build_tokens.
Qed.

(** X4.  For a method name without reserved, control or carriage-return
    characters and plain parameters (texts, safe integers, arrays and structs
    as in X3), [encodeXmlRpc] writes a well-formed document: it parses to
    [methodCall] holding the method name as it was given and, in order, one
    [param] with the tree of each parameter. *)
Theorem encodeXmlRpc_is_well_formed method params :
  verbatim method = true ->
  forallb plain params = true ->
  exists doc,
    encodeXmlRpc method params = Ok doc
    /\ parseFromString doc = call_tree method params.
Proof.
  intros Hm Hp. exists (xml_declaration +:+ text_of (call_tree method params)). split.
  - unfold encodeXmlRpc. rewrite (encode_params params Hp). cbn [bind]. f_equal.
    unfold call_tree. rewrite RoundtripFacts.text_of_wrap.
    unfold forest_text at 1. cbn [map Text.concat_all fold_right].
    rewrite !RoundtripFacts.text_of_wrap, RoundtripFacts.forest_text_kids,
      (verbatim_escape _ Hm).
    unfold wrap_text, forest_text. rewrite map_map, !append_empty. same_text.
  - unfold parseFromString.
    now rewrite parse_declared by (reflexivity || now apply clean_call_tree).
Qed.

Lemma encodeXmlRpc_is_well_formed_witness :
  exists doc,
    encodeXmlRpc "d.multicall2" [JString ""; JString "main"; JString "d.name="] = Ok doc
    /\ parseFromString doc
       = call_tree "d.multicall2" [JString ""; JString "main"; JString "d.name="].
Proof.
  exact (encodeXmlRpc_is_well_formed "d.multicall2"
           [JString ""; JString "main"; JString "d.name="] eq_refl eq_refl).
Defined.

(** *** Decoding *)

(** X5.  A transparent wrapper ([methodResponse], [params], [param],
    [value], [fault], [array]) without an element child is not decoded: the
    decoder fails with a TypeError.  In particular a [value] that holds only
    text, the untyped string form of XML-RPC, is not read as a string. *)
Theorem wrapper_without_element_throws tag kids :
  tag_in tag wrapper_tags = true ->
  children kids = [] ->
  decodeXmlRpc (Element tag kids) = Throw TypeError.
Proof.
  intros Ht Hk.
  assert (E : decodeXmlRpc (Element tag kids) = on_first_element decodeXmlRpc kids).
  { cbn in Ht. repeat (apply orb_prop in Ht as [Ht | Ht]); try discriminate Ht;
      apply String.eqb_eq in Ht; subst tag; reflexivity. }
  rewrite E, CodecFacts.on_first_element_dom. unfold firstElementChild. now rewrite Hk.
Qed.

Lemma wrapper_without_element_throws_witness :
  decodeXmlRpc (Element "value" [TextNode "plain text"]) = Throw TypeError.
Proof.
  exact (wrapper_without_element_throws "value" [TextNode "plain text"] eq_refl eq_refl).
Defined.


Lemma assign_members members : forall acc,
  Forall (fun m => is_element (snd (fst m)) = true
                   /\ decodeXmlRpc (snd (fst m)) = Ok (snd m)) members ->
  assign_each decodeXmlRpc acc (map member_of members)
  = Ok (fold_left store_entry (map entry_of members) acc).
Proof.
  induction members as [| [[k n] v] members IH]; intros acc H; [reflexivity |].
  apply Forall_cons in H as [[He Hd] H]. cbn [fst snd] in He, Hd.
  cbn [map assign_each]. unfold member_of at 1 2. cbn [fst snd].
  change (is_element (member_node k n)) with true. cbn match.
  rewrite RoundtripFacts.decode_member by exact He.
  rewrite Hd. cbn [bind]. rewrite IH by exact H. reflexivity.
Qed.

Lemma get_stores k kvs : forall o,
  k <> "__proto__" ->
  Props.get k (fold_left store_entry kvs o)
  = match Props.get k (rev kvs) with
    | Some v => Some v
    | None => Props.get k o
    end.
Proof.
  induction kvs as [| [k' v'] kvs IH]; intros o Hk; [reflexivity |].
  cbn [fold_left rev]. rewrite IH by exact Hk.
  assert (Happ : forall l l', Props.get k (l ++ l')
                              = match Props.get k l with
                                | Some v => Some v
                                | None => Props.get k l'
                                end).
  { induction l as [| [a b] l IHl]; intros l'; [reflexivity |]. cbn.
    destruct (String.eqb a k); [reflexivity | apply IHl]. }
  rewrite Happ. destruct (Props.get k (rev kvs)); [reflexivity |].
  unfold store_entry. cbn [fst snd Props.get].
  destruct (String.eqb k' k) eqn:E.
  - apply String.eqb_eq in E. subst k'. now apply PropsFacts.get_set_same.
  - apply String.eqb_neq in E. now apply PropsFacts.get_set_other.
Qed.

Lemma no_proto_stores kvs : forall o,
  Props.get "__proto__" o = None ->
  Props.get "__proto__" (fold_left store_entry kvs o) = None.
Proof.
  induction kvs as [| [k v] kvs IH]; intros o H; [exact H |].
  cbn [fold_left]. apply IH. unfold store_entry. cbn [fst snd].
  destruct (String.eqb k "__proto__") eqn:E.
  - unfold Props.set. now rewrite E.
  - apply String.eqb_neq in E. now rewrite PropsFacts.get_set_other.
Qed.

(** X6.  Decoding a [struct] merges its members in document order: a name
    that occurs more than once keeps the value of its last member, and a
    member named [__proto__] never becomes a property of the result. *)
Theorem struct_last_member_wins (members : list (string * node * jsval)) :
  Forall (fun m => is_element (snd (fst m)) = true
                   /\ decodeXmlRpc (snd (fst m)) = Ok (snd m)) members ->
  exists object,
    decodeXmlRpc (Element "struct" (map member_of members)) = Ok (JObject object)
    /\ (forall k, k <> "__proto__" ->
          Props.get k object = Props.get k (rev (map entry_of members)))
    /\ Props.get "__proto__" object = None.
Proof.
  intros H. exists (fold_left store_entry (map entry_of members) []).
  split; [| split].
  - change (decodeXmlRpc (Element "struct" (map member_of members)))
      with (let* object := assign_each decodeXmlRpc [] (map member_of members) in
            Ok (JObject object)).
    now rewrite assign_members.
  - intros k Hk. rewrite get_stores by exact Hk.
    now destruct (Props.get k (rev (map entry_of members))).
  - now apply no_proto_stores.
Qed.

Lemma struct_last_member_wins_witness :
  exists object,
    decodeXmlRpc
      (Element "struct"
         [member_node "a" (Element "i4" [TextNode "1"]);
          member_node "b" (Element "string" [TextNode "x"]);
          member_node "a" (Element "i4" [TextNode "2"])])
    = Ok (JObject object)
    /\ Props.get "a" object = Some (JNum (NInt 2))
    /\ Props.get "b" object = Some (JString "x").
Proof.
  destruct (struct_last_member_wins
              [("a", Element "i4" [TextNode "1"], JNum (NInt 1));
               ("b", Element "string" [TextNode "x"], JString "x");
               ("a", Element "i4" [TextNode "2"], JNum (NInt 2))])
    as [object [Hd [Hget _]]].
  - repeat constructor.
  - exists object. split; [exact Hd |]. split.
    + apply (Hget "a"). discriminate.
    + apply (Hget "b"). discriminate.
Defined.

(** *** Text between the elements *)

Lemma prune_container t kids :
  tag_in t container_tags = true -> prune (Element t kids) = Element t (prune_kids kids).
Proof.
  intros H. cbn [prune]. rewrite H. reflexivity.
Qed.

Lemma prune_other t kids :
  tag_in t container_tags = false -> prune (Element t kids) = Element t kids.
Proof. intros H. cbn [prune]. now rewrite H. Qed.

Lemma prune_is_element n : is_element (prune n) = is_element n.
Proof.
  destruct n as [t kids |]; [| reflexivity].
  destruct (tag_in t container_tags) eqn:E;
    [rewrite (prune_container t kids E) | rewrite (prune_other t kids E)]; reflexivity.
Qed.

Lemma keeps_first kids :
  Forall keeps kids ->
  on_first_element decodeXmlRpc (prune_kids kids) = on_first_element decodeXmlRpc kids.
Proof.
  induction 1 as [| k kids [Hk _] _ IH]; [reflexivity |].
  cbn [prune_kids on_first_element]. destruct (is_element k) eqn:E; [| exact IH].
  cbn [on_first_element]. now rewrite prune_is_element, E, Hk.
Qed.

Lemma keeps_each kids :
  Forall keeps kids ->
  each_element decodeXmlRpc (prune_kids kids) = each_element decodeXmlRpc kids.
Proof.
  induction 1 as [| k kids [Hk _] _ IH]; [reflexivity |].
  cbn [prune_kids each_element]. destruct (is_element k) eqn:E; [| exact IH].
  cbn [each_element]. now rewrite prune_is_element, E, Hk, IH.
Qed.

Lemma keeps_assign kids :
  Forall keeps kids ->
  forall acc,
    assign_each decodeXmlRpc acc (prune_kids kids) = assign_each decodeXmlRpc acc kids.
Proof.
  induction 1 as [| k kids [Hk _] _ IH]; intros acc; [reflexivity |].
  cbn [prune_kids assign_each]. destruct (is_element k) eqn:E; [| apply IH].
  cbn [assign_each]. rewrite prune_is_element, E, Hk.
  destruct (decodeXmlRpc k); cbn [bind]; [apply IH | reflexivity].
Qed.

Lemma select_in_text {A} tag (f : node -> A) k :
  is_element k = false -> select_in tag f k = None.
Proof. destruct k; [discriminate | reflexivity]. Qed.

Lemma first_in_text tag k : is_element k = false -> first_in tag k = None.
Proof. destruct k; [discriminate | reflexivity]. Qed.

Lemma keeps_select kids :
  Forall keeps kids ->
  forall tag,
    select tag decodeXmlRpc (prune_kids kids) = select tag decodeXmlRpc kids.
Proof.
  induction 1 as [| k kids [_ [Hk _]] _ IH]; intros tag; [reflexivity |].
  cbn [prune_kids select]. destruct (is_element k) eqn:E.
  - cbn [select]. now rewrite Hk, IH.
  - now rewrite (select_in_text tag _ k E), IH.
Qed.

Lemma keeps_query kids :
  Forall keeps kids ->
  querySelector "name" (prune_kids kids) = querySelector "name" kids.
Proof.
  induction 1 as [| k kids [_ [_ Hk]] _ IH]; [reflexivity |].
  cbn [prune_kids querySelector]. destruct (is_element k) eqn:E.
  - cbn [querySelector]. now rewrite Hk, IH.
  - now rewrite (first_in_text "name" k E), IH.
Qed.

Lemma select_in_among {A} tag (f : node -> A) t kids :
  String.eqb t tag = false ->
  select_in tag f (Element t kids) = select tag f kids.
Proof.
  intros E. cbn [select_in]. rewrite E.
  induction kids as [| k kids IH]; [reflexivity |]. cbn [select].
  destruct (select_in tag f k); [reflexivity | exact IH].
Qed.

Lemma first_in_among tag t kids :
  String.eqb t tag = false ->
  first_in tag (Element t kids) = querySelector tag kids.
Proof.
  intros E. cbn [first_in]. rewrite E.
  induction kids as [| k kids IH]; [reflexivity |]. cbn [querySelector].
  destruct (first_in tag k); [reflexivity | exact IH].
Qed.

Lemma prune_keeps n : keeps n.
Proof.
  induction n as [t kids IH | d] using DomFacts.node_induction;
    [| repeat split; reflexivity].
  destruct (tag_in t container_tags) eqn:Ht;
    [| unfold keeps; rewrite (prune_other t kids Ht); repeat split; reflexivity].
  assert (Hd : decodeXmlRpc (prune (Element t kids)) = decodeXmlRpc (Element t kids)).
  { rewrite (prune_container t kids Ht). pose proof Ht as Ht'. cbn in Ht'.
    repeat (apply orb_prop in Ht' as [Ht' | Ht']); try discriminate Ht';
      apply String.eqb_eq in Ht'; subst t.
    1-6: change (on_first_element decodeXmlRpc (prune_kids kids)
                 = on_first_element decodeXmlRpc kids); now apply keeps_first.
    - change ((let* array := each_element decodeXmlRpc (prune_kids kids) in
               Ok (JArray array))
              = let* array := each_element decodeXmlRpc kids in Ok (JArray array)).
      now rewrite keeps_each.
    - change ((let* object := assign_each decodeXmlRpc [] (prune_kids kids) in
               Ok (JObject object))
              = let* object := assign_each decodeXmlRpc [] kids in Ok (JObject object)).
      now rewrite keeps_assign.
    - change (match querySelector "name" (prune_kids kids) with
              | None => Throw TypeError
              | Some name =>
                  let* value := or_null (select "value" decodeXmlRpc (prune_kids kids)) in
                  Ok (JObject (Props.singleton (textContent name) value))
              end
              = match querySelector "name" kids with
                | None => Throw TypeError
                | Some name =>
                    let* value := or_null (select "value" decodeXmlRpc kids) in
                    Ok (JObject (Props.singleton (textContent name) value))
                end).
      now rewrite keeps_query, keeps_select. }
  split; [exact Hd |]. split.
  - intros tag. destruct (String.eqb t tag) eqn:E.
    + cbn [select_in]. rewrite (prune_container t kids Ht). cbn [select_in].
      rewrite E. f_equal. rewrite <- (prune_container t kids Ht). exact Hd.
    + rewrite (prune_container t kids Ht), !select_in_among by exact E.
      now apply keeps_select.
  - assert (E : String.eqb t "name" = false).
    { cbn in Ht. repeat (apply orb_prop in Ht as [Ht | Ht]); try discriminate Ht;
        apply String.eqb_eq in Ht; subst t; reflexivity. }
    rewrite (prune_container t kids Ht), !first_in_among by exact E.
    now apply keeps_query.
Qed.

(** X7.  Text between the elements of a response does not matter: removing
    every text node from the children of the wrappers and of [data],
    [struct] and [member] elements, at any depth, leaves the decoded value
    (or the error) the same.  A document printed with line breaks and
    indentation decodes like the compact one. *)
Theorem layout_text_is_ignored n : decodeXmlRpc (prune n) = decodeXmlRpc n.
Proof. apply prune_keeps. Qed.

End CodecMore.

(** ** More on camel-casing *)

Module CamelMore.
Import Js Rtorrent Calls TextFacts CamelFacts.

Lemma map_chars_append f s t :
  Text.map_chars f (s +:+ t) = Text.map_chars f s +:+ Text.map_chars f t.
Proof.
  induction s as [| c s IH]; [reflexivity |].
  rewrite append_cons. cbn [Text.map_chars]. now rewrite IH, append_cons.
Qed.

Lemma to_lower_separator c : separator (Text.to_lower c) = separator c.
Proof.
  apply Bool.eqb_prop.
  exact (ascii_forall (fun c => Bool.eqb (separator (Text.to_lower c)) (separator c))
           ltac:(vm_compute; reflexivity) c).
Qed.

Lemma camel_spec_app s t : forall b,
  camel_spec b (s +:+ t) = camel_spec b s +:+ camel_spec (ends_in_run b s) t.
Proof.
  induction s as [| c s IH]; intros b; [reflexivity |].
  rewrite append_cons. cbn [camel_spec ends_in_run].
  destruct (separator c); [apply IH |]. now rewrite IH, append_cons.
Qed.

Lemma camel_spec_run t : forall b,
  Text.all_chars separator t = true -> camel_spec b t = EmptyString.
Proof.
  induction t as [| c t IH]; intros b H; [reflexivity |].
  cbn in H. apply andb_prop in H as [Hc Ht]. cbn [camel_spec]. rewrite Hc. now apply IH.
Qed.

Lemma camel_spec_none s :
  Text.all_chars (fun c => negb (separator c)) s = true -> camel_spec false s = s.
Proof.
  induction s as [| c s IH]; intros H; [reflexivity |].
  cbn in H. apply andb_prop in H as [Hc Hs]. apply negb_true_iff in Hc.
  cbn [camel_spec]. now rewrite Hc, IH.
Qed.

Lemma lower_keeps_run t :
  Text.all_chars separator (toLowerCase t) = Text.all_chars separator t.
Proof.
  induction t as [| c t IH]; [reflexivity |].
  cbn. now rewrite to_lower_separator, <- IH.
Qed.

Lemma lower_keeps_plain s :
  Text.all_chars (fun c => negb (separator c)) (toLowerCase s)
  = Text.all_chars (fun c => negb (separator c)) s.
Proof.
  induction s as [| c s IH]; [reflexivity |].
  cbn. now rewrite to_lower_separator, <- IH.
Qed.

(** X8.  The name that [toCamelCase] returns holds none of the separators
    [.], [,], [_], [=] or white space, whatever the text; so it is never
    [__proto__], and storing a value under it always creates or updates a
    property. *)
Theorem toCamelCase_has_no_separator str :
  Text.all_chars (fun c => negb (separator c)) (toCamelCase str) = true
  /\ forall v object, Props.get (toCamelCase str) (Props.set (toCamelCase str) v object) = Some v.
Proof.
  split.
  - rewrite toCamelCase_spec. apply camel_spec_plain.
  - intros v object. apply PropsFacts.get_set_same, toCamelCase_not_proto.
Qed.

(** X9.  Separators at the end of a text leave no trace: [toCamelCase]
    gives a command the same name with and without its trailing [=]. *)
Theorem toCamelCase_trailing_separators str tail :
  Text.all_chars separator tail = true ->
  toCamelCase (str +:+ tail) = toCamelCase str.
Proof.
  intros H. rewrite !toCamelCase_spec.
  unfold toLowerCase at 1. rewrite map_chars_append. fold (toLowerCase str) (toLowerCase tail).
  rewrite camel_spec_app.
  rewrite (camel_spec_run (toLowerCase tail)); [apply append_empty |].
  now rewrite lower_keeps_run.
Qed.

Lemma toCamelCase_trailing_separators_witness :
  toCamelCase ("d.get_name" +:+ "=") = toCamelCase "d.get_name".
Proof. apply (toCamelCase_trailing_separators "d.get_name" "="). reflexivity. Defined.

(** X10.  A text without separators is only lower-cased: capitals mark
    nothing, so a name that is camel-cased already loses its capitals when it
    goes through [toCamelCase] again. *)
Theorem toCamelCase_without_separators str :
  Text.all_chars (fun c => negb (separator c)) str = true ->
  toCamelCase str = toLowerCase str.
Proof.
  intros H. rewrite toCamelCase_spec. apply camel_spec_none.
  now rewrite lower_keeps_plain.
Qed.

Lemma toCamelCase_without_separators_witness :
  toCamelCase "sizeBytes" = toLowerCase "sizeBytes".
Proof. apply (toCamelCase_without_separators "sizeBytes"). reflexivity. Defined.

End CamelMore.

(** ** More on calls, multicalls and batchcalls *)

Module CallFacts.
Import Js Dom XmlRpc Rtorrent Calls TextFacts.

(** X11.  A batch command [name=value] asks for the method [methodType]
    followed by [name], with the hash and the pieces of [value] between its
    commas as parameters; whatever follows a second [=] is not sent. *)
Theorem batchcall_command_parts methodType hash name value :
  Text.contains "=" name = false ->
  Text.contains "=" value = false ->
  batch_method methodType hash (name +:+ "=" +:+ value)
  = Ok (JObject [("methodName", JString (methodType +:+ name));
                 ("params", JArray (map JString (hash :: split "," value)))])
  /\ forall rest,
      batch_method methodType hash (name +:+ "=" +:+ value +:+ "=" +:+ rest)
      = batch_method methodType hash (name +:+ "=" +:+ value).
Proof.
  intros Hn Hv.
  assert (H1 : split "=" (name +:+ "=" +:+ value) = [name; value]).
  { change (name +:+ "=" +:+ value) with (name +:+ String "=" value).
    now rewrite split_first, split_plain. }
  assert (H2 : forall rest,
             exists tail, split "=" (name +:+ "=" +:+ value +:+ "=" +:+ rest)
                          = name :: value :: tail).
  { intros rest.
    change (name +:+ "=" +:+ value +:+ "=" +:+ rest)
      with (name +:+ String "=" (value +:+ String "=" rest)).
    rewrite split_first by exact Hn. rewrite split_first by exact Hv. eauto. }
  assert (Hc : forall t, includes "=" (name +:+ "=" +:+ t) = true).
  { intros t. unfold includes. rewrite contains_append. cbn. now rewrite orb_true_r. }
  split.
  - unfold batch_method, batch_params. rewrite Hc, H1. reflexivity.
  - intros rest. unfold batch_method, batch_params.
    destruct (H2 rest) as [tail Ht].
    rewrite (Hc value). rewrite (Hc (value +:+ "=" +:+ rest)), Ht, H1. reflexivity.
Qed.

Lemma batchcall_command_parts_witness :
  batch_method "d." "HASH" ("priority.set" +:+ "=" +:+ "2,x")
  = Ok (JObject [("methodName", JString "d.priority.set");
                 ("params", JArray [JString "HASH"; JString "2"; JString "x"])]).
Proof.
  exact (proj1 (batchcall_command_parts "d." "HASH" "priority.set" "2,x" eq_refl eq_refl)).
Defined.

(** X12.  [rtorrentBatchcall] never fails before it calls the transport:
    every command yields one entry of the [methods] array, and exactly one
    document, a call of [system.multicall] with that array, is sent. *)
Theorem batchcall_sends_one_document rpc methodType hash commands :
  exists methods doc,
    mapM (batch_method methodType hash) commands = Ok methods
    /\ length methods = length commands
    /\ encodeXmlRpc "system.multicall" [JArray methods] = Ok doc
    /\ requests_of (rtorrentBatchcall rpc methodType hash commands) = [doc].
Proof.
  exists (map (batch_entry methodType hash) commands).
  destruct (RtorrentFacts.batch_document methodType hash commands) as [doc Hdoc].
  exists doc.
  split; [apply RtorrentFacts.batch_methods |]. split; [apply length_map |]. split; [exact Hdoc |].
  unfold requests_of, rtorrentBatchcall, await, lift.
  rewrite RtorrentFacts.batch_methods.
  rewrite (RtorrentFacts.rtorrentCall_run rpc _ _ doc []) by exact Hdoc.
  destruct (match error (rpc doc) with Some _ => _ | None => _ end) as [v | e];
    [| reflexivity].
  now destruct (remap_results commands v).
Qed.

(** X13.  Over a transport that answers every document with an error,
    [rtorrentBatchcall] takes the sentinel [[[]]] for its results: with at
    least one command it returns an object whose only entry gives the name of
    the first command an empty list, and with no command it fails with a
    TypeError. *)
Theorem batchcall_over_failed_transport rpc methodType hash commands :
  (forall doc, is_Some (error (rpc doc))) ->
  result_of (rtorrentBatchcall rpc methodType hash commands)
  = match commands with
    | [] => Throw TypeError
    | cmd :: _ => Ok (JObject [(toCamelCase cmd, JArray [])])
    end.
Proof.
  intros Hfail.
  destruct (RtorrentFacts.batch_document methodType hash commands) as [doc Hdoc].
  unfold result_of, rtorrentBatchcall, await, lift.
  rewrite RtorrentFacts.batch_methods.
  rewrite (RtorrentFacts.rtorrentCall_run rpc _ _ doc []) by exact Hdoc.
  destruct (Hfail doc) as [msg ->].
  destruct commands as [| cmd commands]; [reflexivity |].
  cbn [remap_results remap lookup list_lookup fst].
  change (unwrap_single (JArray [])) with (Ok (JArray [])). cbn [bind].
  unfold Props.set. rewrite (PropsFacts.eqb_neq _ _ (CamelFacts.toCamelCase_not_proto cmd)).
  reflexivity.
Qed.

Lemma batchcall_over_failed_transport_witness :
  result_of (rtorrentBatchcall refusing "d." "HASH" ["get_name"; "is_open"])
  = Ok (JObject [("getName", JArray [])]).
Proof.
  exact (batchcall_over_failed_transport refusing "d." "HASH" ["get_name"; "is_open"]
           (fun doc => ex_intro _ "No scgi port" eq_refl)).
Defined.

(** *** The rows of a multicall *)

Lemma fill_row_cells cells commands : forall i object,
  exists object',
    fill_row (JArray cells) i commands object = Ok object'
    /\ (forall j cmd,
          commands !! j = Some cmd -> last_of_name commands j cmd ->
          Props.get (toCamelCase cmd) object' = Some (default JUndefined (cells !! (i + j))))
    /\ (forall k,
          Props.get k object' = Props.get k object
          \/ exists cmd, In cmd commands /\ k = toCamelCase cmd).
Proof.
  induction commands as [| key commands IH]; intros i object.
  - exists object. split; [reflexivity |]. split; [intros j cmd H; discriminate H | auto].
  - cbn [fill_row Props.at_index bind].
    destruct (IH (S i) (Props.set (toCamelCase key) (default JUndefined (cells !! i)) object))
      as [object' [Hrun [Hget Hkeys]]].
    exists object'. split; [exact Hrun |]. split.
    + intros [| j] cmd Hcmd Hlast.
      * injection Hcmd as ->. rewrite Nat.add_0_r.
        destruct (Hkeys (toCamelCase cmd)) as [-> | [cmd' [Hin Heq]]].
        -- apply PropsFacts.get_set_same, CamelFacts.toCamelCase_not_proto.
        -- apply list_elem_of_In, list_elem_of_lookup in Hin as [j Hj].
           exfalso. apply (Hlast (S j) cmd'); [lia | exact Hj | now symmetry].
      * replace (i + S j) with (S i + j) by lia. apply Hget; [exact Hcmd |].
        intros j' cmd' Hlt Hj'. apply (Hlast (S j') cmd'); [lia | exact Hj'].
    + intros k. destruct (Hkeys k) as [-> | [cmd [Hin ->]]].
      * destruct (decide (k = toCamelCase key)) as [-> | Hne].
        -- right. exists key. split; [now left | reflexivity].
        -- left. apply PropsFacts.get_set_other. congruence.
      * right. exists cmd. split; [now right | reflexivity].
Qed.

(** X14.  When the call of [rtorrentMulticall] returns a list of rows,
    the method returns one object per row, in order.  The object of a row
    gives the camel-cased name of command [i] the cell [i] of the row,
    undefined when the row is shorter; of two commands with the same name the
    later one counts; and the object has no other entry. *)
Theorem multicall_rows rpc methodType hash filter commands (table : list (list jsval)) :
  result_of (rtorrentCall rpc (multicall_method methodType)
               (multicall_params methodType hash filter commands))
  = Ok (JArray (map JArray table)) ->
  exists objects,
    result_of (rtorrentMulticall rpc methodType hash filter commands)
    = Ok (JArray (map JObject objects))
    /\ length objects = length table
    /\ forall r cells object,
        table !! r = Some cells -> objects !! r = Some object ->
        (forall i cmd,
           commands !! i = Some cmd -> last_of_name commands i cmd ->
           Props.get (toCamelCase cmd) object = Some (default JUndefined (cells !! i)))
        /\ (forall k, is_Some (Props.get k object) ->
                      exists cmd, In cmd commands /\ k = toCamelCase cmd).
Proof.
  intros Hcall.
  set (f := fun result => let* object := fill_row result 0 commands [] in Ok (JObject object)).
  assert (Hrows : exists objects,
             mapM f (map JArray table) = Ok (map JObject objects)
             /\ Forall2 (fun cells object =>
                           fill_row (JArray cells) 0 commands [] = Ok object)
                        table objects).
  { clear Hcall. induction table as [| cells table IH].
    - exists []. split; [reflexivity | constructor].
    - destruct IH as [objects [IH1 IH2]].
      destruct (fill_row_cells cells commands 0 []) as [object [Hrun _]].
      exists (object :: objects). split.
      + cbn [map mapM]. unfold f at 1. rewrite Hrun. cbn [bind]. now rewrite IH1.
      + now constructor. }
  destruct Hrows as [objects [Hmap Hall]]. exists objects. split; [| split].
  - unfold result_of, rtorrentMulticall, await, lift.
    unfold result_of, multicall_params in Hcall.
    destruct (rtorrentCall rpc _ _ []) as [r log]. cbn [fst] in Hcall. subst r.
    cbn [array_map fst]. fold f. now rewrite Hmap.
  - symmetry. exact (Forall2_length _ _ _ Hall).
  - intros r cells object Hc Ho.
    pose proof (Forall2_lookup_lr _ _ _ _ _ _ Hall Hc Ho) as Hrun.
    destruct (fill_row_cells cells commands 0 []) as [object' [Hrun' [Hget Hkeys]]].
    rewrite Hrun in Hrun'. injection Hrun' as <-. split.
    + intros i cmd Hi Hlast. exact (Hget i cmd Hi Hlast).
    + intros k [v Hv]. destruct (Hkeys k) as [E | Hk]; [| exact Hk].
      rewrite Hv in E. discriminate E.
Qed.

Lemma multicall_rows_witness :
  exists objects,
    result_of (rtorrentMulticall
                 (answering (response_text
                    "<array><data><value><array><data><value><string>a</string></value><value><i8>7</i8></value></data></array></value></data></array>"))
                 "d." "" "main" ["name"; "size_bytes"])
    = Ok (JArray (map JObject objects))
    /\ length objects = 1.
Proof.
  destruct (multicall_rows
              (answering (response_text
                 "<array><data><value><array><data><value><string>a</string></value><value><i8>7</i8></value></data></array></value></data></array>"))
              "d." "" "main" ["name"; "size_bytes"]
              [[JString "a"; JNum (NInt 7)]])
    as [objects [H1 [H2 _]]]; [vm_compute; reflexivity |].
  exists objects. split; assumption.
Defined.

(** *** Replies that carry a value, and replies that carry nothing *)

Lemma forest_text_one n : forest_text [n] = text_of n.
Proof. unfold forest_text. cbn [map Text.concat_all fold_right]. apply append_empty. Qed.

Lemma response_text_tree n :
  text_of (response_tree n) = response_text (text_of n).
Proof.
  unfold response_tree, response_text, value_node.
  rewrite !(DomFacts.text_of_element _ [_]), !forest_text_one.
  rewrite !(DomFacts.text_of_element _ [_]), !forest_text_one.
  rewrite !(DomFacts.text_of_element _ [_]), !forest_text_one.
  rewrite !(DomFacts.text_of_element _ [_]), !forest_text_one.
  norm_append. rewrite !append_assoc. norm_append. reflexivity.
Qed.

Lemma decode_wrapper t n :
  tag_in t wrapper_tags = true -> is_element n = true ->
  decodeXmlRpc (Element t [n]) = decodeXmlRpc n.
Proof.
  intros Ht Hn. cbn in Ht.
  repeat (apply orb_prop in Ht as [Ht | Ht]); try discriminate Ht;
    apply String.eqb_eq in Ht; subst t;
    change (decodeXmlRpc (Element _ [n])) with (on_first_element decodeXmlRpc [n]);
    cbn [on_first_element]; now rewrite Hn.
Qed.

(** X15.  One call, end to end: when the transport answers with the
    response document around the encoding of a value that makes the round
    trip (texts, safe integers, arrays and structs as in X3), [rtorrentCall]
    returns that value. *)
Theorem rtorrentCall_returns_the_value rpc method params doc v x :
  encodeXmlRpc method params = Ok doc ->
  plain v = true ->
  encodeXmlRpcParam v = Ok x ->
  rpc doc = Reply None (Some (response_text x)) ->
  result_of (rtorrentCall rpc method params) = Ok v.
Proof.
  intros Hdoc Hv Hx Hrpc.
  rewrite (RoundtripFacts.encode_plain v Hv) in Hx. injection Hx as <-.
  destruct (RoundtripFacts.clean_plain v Hv) as [Hc He].
  unfold result_of. rewrite (RtorrentFacts.rtorrentCall_run rpc _ _ doc []) by exact Hdoc.
  rewrite Hrpc. cbn [error xml fst]. unfold default, id.
  rewrite <- response_text_tree. unfold parseFromString.
  rewrite DomFacts.parse_text_of.
  - unfold response_tree.
    rewrite !decode_wrapper by reflexivity.
    rewrite RoundtripFacts.decode_value by exact He.
    now apply RoundtripFacts.decode_plain.
  - unfold response_tree, value_node. cbn [clean forallb apart]. rewrite Hc.
    destruct (node_of v); [reflexivity | discriminate He].
  - reflexivity.
Qed.

Lemma rtorrentCall_returns_the_value_witness :
  result_of (rtorrentCall (answering (response_text "<array><data><value><string>a&lt;b</string></value><value><int>-3</int></value></data></array>"))
               "system.listMethods" [])
  = Ok (JArray [JString "a<b"; JNum (NInt (-3))]).
Proof.
  apply (rtorrentCall_returns_the_value _ "system.listMethods" []
           (xml_declaration +:+ "<methodCall><methodName>system.listMethods</methodName><params></params></methodCall>")
           (JArray [JString "a<b"; JNum (NInt (-3))])
           "<array><data><value><string>a&lt;b</string></value><value><int>-3</int></value></data></array>");
    vm_compute; reflexivity.
Defined.

(** X16.  A reply that is no error but carries no document, or whose text
    holds no [<] at all (such a text opens no element, so no XML parser
    reads a document from it), does not fail in [rtorrentCall]: the call
    returns undefined.  [rtorrentMulticall] and [rtorrentBatchcall] then fail
    with a TypeError when they go through the results. *)
Theorem unreadable_reply_is_undefined rpc :
  (forall doc, error (rpc doc) = None
               /\ Text.contains "<" (default "undefined" (xml (rpc doc))) = false) ->
  (forall method params doc,
     encodeXmlRpc method params = Ok doc ->
     result_of (rtorrentCall rpc method params) = Ok JUndefined)
  /\ (forall methodType hash filter commands,
        result_of (rtorrentMulticall rpc methodType hash filter commands) = Throw TypeError)
  /\ (forall methodType hash commands,
        result_of (rtorrentBatchcall rpc methodType hash commands) = Throw TypeError).
Proof.
  intros Hrpc.
  assert (Hcall : forall method params doc,
             encodeXmlRpc method params = Ok doc ->
             rtorrentCall rpc method params [] = (Ok JUndefined, [doc])).
  { intros method params doc Hdoc.
    rewrite (RtorrentFacts.rtorrentCall_run rpc _ _ doc []) by exact Hdoc.
    destruct (Hrpc doc) as [-> Hmarkup]. unfold parseFromString.
    now rewrite (DomFacts.parse_without_markup _ Hmarkup). }
  split; [| split].
  - intros method params doc Hdoc. unfold result_of. now rewrite (Hcall _ _ doc Hdoc).
  - intros methodType hash filter commands.
    destruct (RtorrentFacts.encodeXmlRpc_strings (multicall_method methodType)
                (hash :: filter :: map (complete_command methodType) commands))
      as [doc Hdoc].
    unfold result_of, rtorrentMulticall, await, lift.
    change (JString hash :: JString filter
              :: map JString (map (complete_command methodType) commands))
      with (map JString (hash :: filter :: map (complete_command methodType) commands)).
    now rewrite (Hcall _ _ doc Hdoc).
  - intros methodType hash commands.
    destruct (RtorrentFacts.batch_document methodType hash commands) as [doc Hdoc].
    unfold result_of, rtorrentBatchcall, await, lift.
    rewrite RtorrentFacts.batch_methods. now rewrite (Hcall _ _ doc Hdoc).
Qed.

Lemma unreadable_reply_is_undefined_witness :
  result_of (rtorrentCall (answering "Service Unavailable") "system.listMethods" [])
  = Ok JUndefined
  /\ result_of (rtorrentMulticall silent "d." "" "main" ["name"]) = Throw TypeError
  /\ result_of (rtorrentBatchcall silent "d." "HASH" ["name"]) = Throw TypeError.
Proof.
  destruct (unreadable_reply_is_undefined (answering "Service Unavailable")) as [H1 _].
  { intros doc. split; reflexivity. }
  destruct (unreadable_reply_is_undefined silent) as [_ [H2 H3]].
  { intros doc. split; reflexivity. }
  split; [| split].
  - apply (H1 _ _ (xml_declaration +:+ "<methodCall><methodName>system.listMethods</methodName><params></params></methodCall>")).
    vm_compute. reflexivity.
  - apply H2.
  - apply H3.
Defined.

End CallFacts.

(** ** The pattern matcher *)

Module PatFacts.
Import Wire TextFacts.

Lemma eats_append s t : forall st, eats (s +:+ t) st = eats t (eats s st).
Proof.
  induction s as [| a s IH]; intros st; [reflexivity |].
  rewrite append_cons. cbn [eats]. apply IH.
Qed.

Lemma eats_state s : forall cl op us,
  eats s (Pat.MState cl op us)
  = Pat.MState cl (app (rev (list_ascii_of_string s)) <$> op) (String.length s + us).
Proof.
  induction s as [| a s IH]; intros cl op us.
  - cbn. now destruct op.
  - cbn [eats]. unfold Pat.eat. cbn [Pat.closed Pat.opened Pat.used].
    rewrite IH. cbn [list_ascii_of_string rev String.length]. f_equal.
    + destruct op as [acc |]; cbn; [| reflexivity]. now rewrite <- app_assoc.
    + lia.
Qed.

(** A greedy run takes a whole stretch of its class when the text behind
    starts with another character and the rest of the pattern matches. *)
Lemma greedy_stop cls k s t : forall st,
  Text.all_chars cls s = true ->
  starts_with cls t = false ->
  is_Some (k t (eats s st)) ->
  Pat.greedy cls k (s +:+ t) st = k t (eats s st).
Proof.
  induction s as [| a s IH]; intros st Hs Ht Hk.
  - rewrite append_nil. cbn [eats]. destruct t as [| c t]; [reflexivity |].
    cbn in Ht. cbn [Pat.greedy]. now rewrite Ht.
  - cbn in Hs. apply andb_prop in Hs as [Ha Hs].
    rewrite append_cons. cbn [Pat.greedy eats]. rewrite Ha.
    rewrite IH by assumption. cbn [eats] in Hk. now destruct Hk as [r ->].
Qed.

Lemma shortest_unfold cls k s st :
  Pat.shortest cls k s st
  = match k s st with
    | Some r => Some r
    | None =>
        match s with
        | String a s' => if cls a then Pat.shortest cls k s' (Pat.eat a st) else None
        | EmptyString => None
        end
    end.
Proof. destruct s; reflexivity. Qed.

(** A shortest-first run goes on for as long as the rest of the pattern
    cannot start, and stops where it can. *)
Lemma shortest_skip cls (p : ascii -> bool) k s t : forall st,
  (forall u st', starts_with p u = false -> k u st' = None) ->
  Text.all_chars cls s = true ->
  Text.all_chars (fun a => negb (p a)) s = true ->
  is_Some (k t (eats s st)) ->
  Pat.shortest cls k (s +:+ t) st = k t (eats s st).
Proof.
  intros st Hk. revert st.
  induction s as [| a s IH]; intros st Hs Hp Hok.
  - rewrite append_nil, shortest_unfold. cbn [eats] in *. now destruct Hok as [r ->].
  - cbn in Hs, Hp. apply andb_prop in Hs as [Ha Hs]. apply andb_prop in Hp as [Hpa Hp].
    apply negb_true_iff in Hpa.
    rewrite append_cons, shortest_unfold, (Hk (String a (s +:+ t)) st) by exact Hpa.
    rewrite Ha. cbn [eats]. now apply IH.
Qed.

Lemma shortest_none cls (p : ascii -> bool) k s : forall st,
  (forall u st', starts_with p u = false -> k u st' = None) ->
  Text.all_chars (fun a => negb (p a)) s = true ->
  Pat.shortest cls k s st = None.
Proof.
  intros st Hk. revert st.
  induction s as [| a s IH]; intros st Hp.
  - rewrite shortest_unfold, (Hk EmptyString st) by reflexivity. reflexivity.
  - cbn in Hp. apply andb_prop in Hp as [Hpa Hp]. apply negb_true_iff in Hpa.
    rewrite shortest_unfold, (Hk (String a s) st) by exact Hpa.
    destruct (cls a); [now apply IH | reflexivity].
Qed.

End PatFacts.

(** ** More on the SCGI relay *)

Module RelayMore.
Import Relay Wire PatFacts TextFacts.

Lemma after_name_needs_colon u st : starts_with colon u = false -> after_name u st = None.
Proof.
  intros H. unfold after_name. cbn [Pat.run Pat.lit]. unfold Pat.single.
  destruct u as [| c u]; [reflexivity |]. cbn [starts_with] in H. unfold colon in H.
  now rewrite H.
Qed.

Lemma no_colon s :
  Text.contains ":" s = false -> Text.all_chars (fun a => negb (colon a)) s = true.
Proof.
  induction s as [| a s IH]; [reflexivity |]. cbn [Text.contains Text.all_chars]. intros H.
  apply orb_false_iff in H as [Ha Hs]. rewrite (IH Hs), andb_true_r.
  unfold colon. rewrite Ascii.eqb_sym. now rewrite Ha.
Qed.

Lemma all_any s : Text.all_chars Pat.any s = true.
Proof. induction s as [| a s IH]; [reflexivity | exact IH]. Qed.

Lemma after_name_runs gap value cl acc us :
  Text.all_chars Text.is_space gap = true ->
  starts_with Text.is_space value = false ->
  after_name (":" +:+ gap +:+ value) (Pat.MState cl (Some acc) us)
  = Some (Pat.MState (value :: string_of_list_ascii (rev acc) :: cl) None
            (String.length value + (String.length gap + S us))).
Proof.
  intros Hgap Hvalue. unfold after_name. cbn [Pat.run Pat.lit].
  unfold Pat.close_cap. cbn [Pat.opened Pat.closed Pat.used].
  rewrite append_cons, append_nil. unfold Pat.single at 1. rewrite Ascii.eqb_refl.
  unfold Pat.eat. cbn [Pat.opened Pat.closed Pat.used fmap option_fmap option_map].
  assert (Hend : forall st : Pat.mstate,
             Pat.greedy Pat.any (fun _ st => Some (Pat.close_cap st)) value st
             = Some (Pat.close_cap (eats value st))).
  { intros st. rewrite <- (append_empty value) at 1.
    rewrite greedy_stop; [reflexivity | apply all_any | reflexivity | eauto]. }
  rewrite greedy_stop; try assumption.
  - unfold Pat.open_cap. rewrite eats_state. cbn [Pat.opened Pat.closed Pat.used fmap option_fmap option_map].
    change (Pat.close_cap ?x) with (Pat.close_cap x).
    etransitivity; [apply Hend |].
    rewrite eats_state. unfold Pat.close_cap.
    cbn [Pat.opened Pat.closed Pat.used fmap option_fmap option_map].
    rewrite app_nil_r, rev_involutive, string_of_list_ascii_of_string. reflexivity.
  - unfold Pat.open_cap. rewrite Hend. eauto.
Qed.

Lemma run_header_pattern s st :
  Pat.run header_pattern s st = Pat.shortest Pat.any after_name s (Pat.open_cap st).
Proof. reflexivity. Qed.

Lemma line_with_colon name gap value :
  Text.contains ":" name = false ->
  Text.all_chars Text.is_space gap = true ->
  starts_with Text.is_space value = false ->
  find_anchored header_pattern (name +:+ ":" +:+ gap +:+ value) = Some [name; value].
Proof.
  intros Hname Hgap Hvalue. unfold find_anchored, Pat.match_here.
  rewrite run_header_pattern.
  unfold Pat.open_cap, Pat.start. cbn [Pat.closed Pat.used].
  assert (Hrun : after_name (":" +:+ gap +:+ value)
                   (eats name (Pat.MState [] (Some []) 0))
                 = Some (Pat.MState [value; name] None
                           (String.length value
                              + (String.length gap + S (String.length name + 0))))).
  { rewrite eats_state. cbn [fmap option_fmap option_map].
    rewrite after_name_runs by assumption.
    now rewrite app_nil_r, rev_involutive, string_of_list_ascii_of_string. }
  rewrite (shortest_skip Pat.any colon after_name name);
    [| exact after_name_needs_colon | apply all_any | now apply no_colon
     | rewrite Hrun; eauto].
  rewrite Hrun. reflexivity.
Qed.

Lemma line_without_colon line :
  Text.contains ":" line = false -> find_anchored header_pattern line = None.
Proof.
  intros H. unfold find_anchored, Pat.match_here. rewrite run_header_pattern.
  rewrite (shortest_none Pat.any colon after_name line);
    [reflexivity | exact after_name_needs_colon | now apply no_colon].
Qed.

(** X17.  A header line is split at its first colon: the name is the text
    before it, and the value is what follows with the white space in front
    dropped, colons included.  A line without a colon has no name and no
    value, which the loop reports as a malformed header. *)
Theorem header_line_splits name gap value :
  Text.contains ":" name = false ->
  Text.all_chars Text.is_space gap = true ->
  starts_with Text.is_space value = false ->
  find_anchored header_pattern (name +:+ ":" +:+ gap +:+ value) = Some [name; value]
  /\ find_anchored header_pattern name = None.
Proof.
  intros Hname Hgap Hvalue.
  split; [now apply line_with_colon | now apply line_without_colon].
Qed.

Lemma header_line_splits_witness :
  find_anchored header_pattern ("Content-Type" +:+ ":" +:+ "  " +:+ "text/xml; a:b")
  = Some ["Content-Type"; "text/xml; a:b"]
  /\ find_anchored header_pattern "Content-Type" = None.
Proof.
  exact (header_line_splits "Content-Type" "  " "text/xml; a:b" eq_refl eq_refl eq_refl).
Defined.

(** *** Lines off the stream *)

Lemma receive_line_in_line closes line rest : forall acc,
  Text.all_chars in_line line = true ->
  receive_line closes acc (line +:+ crlf +:+ rest)
  = Data (string_of_list_ascii (rev acc ++ list_ascii_of_string line)) rest.
Proof.
  induction line as [| c line IH]; intros acc H.
  - rewrite append_nil. now rewrite app_nil_r.
  - cbn [Text.all_chars] in H. apply andb_prop in H as [Hc H].
    unfold in_line in Hc. apply andb_prop in Hc as [Hlf Hcr].
    apply negb_true_iff in Hlf, Hcr.
    rewrite append_cons. cbn [receive_line]. rewrite Hlf, Hcr, IH by exact H.
    cbn [rev list_ascii_of_string]. now rewrite <- app_assoc.
Qed.

(** On a peer that closes its end a line read returns. *)
Lemma receive_line_returns inbound : forall acc, receive_line true acc inbound <> Waits.
Proof.
  induction inbound as [| c inbound IH]; intros acc; cbn [receive_line]; [discriminate |].
  destruct (Ascii.eqb c LF); [discriminate |]. destruct (Ascii.eqb c CR); apply IH.
Qed.

Lemma receive_first_line closes line rest :
  Text.all_chars in_line line = true ->
  receive_line closes [] (line +:+ crlf +:+ rest) = Data line rest.
Proof.
  intros H. rewrite receive_line_in_line by exact H.
  cbn [rev app]. now rewrite string_of_list_ascii_of_string.
Qed.

Lemma field_text_in_line f :
  field_ok f = true -> Text.all_chars in_line (fst f +:+ ": " +:+ snd f) = true.
Proof.
  unfold field_ok. intros H.
  apply andb_prop in H as [H _]. apply andb_prop in H as [H Hv].
  apply andb_prop in H as [_ Hn].
  now rewrite !DomFacts.all_chars_append, Hn, Hv.
Qed.

Lemma field_text_splits f :
  field_ok f = true ->
  find_anchored header_pattern (fst f +:+ ": " +:+ snd f) = Some [fst f; snd f].
Proof.
  unfold field_ok. intros H.
  apply andb_prop in H as [H Hs]. apply andb_prop in H as [H _].
  apply andb_prop in H as [Hc _]. apply negb_true_iff in Hc, Hs.
  exact (line_with_colon (fst f) " " (snd f) Hc eq_refl Hs).
Qed.

Lemma field_text_not_empty f : String.eqb (fst f +:+ ": " +:+ snd f) "" = false.
Proof. destruct (fst f); reflexivity. Qed.

Lemma header_block_cons f fields payload :
  response (f :: fields) payload
  = (fst f +:+ ": " +:+ snd f) +:+ crlf +:+ response fields payload.
Proof.
  unfold response, header_block, field_line. cbn [map Text.concat_all fold_right].
  now rewrite !append_assoc.
Qed.

(** The header loop over well-formed fields, entered the way [call] enters
    it: with the first line read. *)
Lemma read_headers_fields closes payload fields : forall fuel headers,
  forallb field_ok fields = true ->
  length fields < fuel ->
  match receive_line closes [] (response fields payload) with
  | Data line rest =>
      read_headers fuel closes headers line rest
      = Some (inr (table_into headers fields, payload))
  | _ => False
  end.
Proof.
  induction fields as [| f fields IH]; intros fuel headers Hok Hfuel.
  - unfold response, header_block. cbn [map Text.concat_all fold_right]. rewrite append_nil.
    change (crlf +:+ payload) with ("" +:+ crlf +:+ payload).
    rewrite receive_first_line by reflexivity.
    destruct fuel as [| fuel]; [cbn in Hfuel; lia | reflexivity].
  - cbn [forallb] in Hok. apply andb_prop in Hok as [Hf Hok].
    rewrite header_block_cons, receive_first_line by now apply field_text_in_line.
    destruct fuel as [| fuel]; [lia |]. cbn [length] in Hfuel.
    cbn [read_headers]. rewrite field_text_not_empty, field_text_splits by exact Hf.
    specialize (IH fuel (<[ lower (fst f) := snd f ]> headers) Hok ltac:(lia)).
    destruct (receive_line closes [] (response fields payload)) as [line rest | err |];
      [exact IH | destruct IH ..].
Qed.

(** *** Numbers in texts *)

Lemma digits_of_nat_acc d : forall acc,
  Text.digits_value acc (NilEmpty.string_of_uint d)
  = N.of_nat (Nat.of_uint_acc d (N.to_nat acc)).
Proof.
  induction d; intros acc;
    cbn [NilEmpty.string_of_uint Text.digits_value Nat.of_uint_acc];
    [now rewrite N2Nat.id | ..];
    rewrite IHd; do 2 f_equal; rewrite Nat.tail_mul_spec;
    rewrite N2Nat.inj_add, N2Nat.inj_mul, Nat2N.id;
    change (N.to_nat 10) with 10; unfold Text.code;
    match goal with
    | |- context [nat_of_ascii ?c - 48] =>
        let k := eval vm_compute in (nat_of_ascii c - 48) in
        change (nat_of_ascii c - 48) with k
    end; lia.
Qed.

Lemma digits_of_decimal n : Text.digits_value 0 (Text.decimal n) = N.of_nat n.
Proof.
  unfold Text.decimal, NilZero.string_of_uint.
  rewrite <- (DecimalNat.Unsigned.of_to n) at 2. unfold Nat.of_uint.
  destruct (Nat.to_uint n) eqn:E; try (rewrite <- E; apply digits_of_nat_acc).
  reflexivity.
Qed.

Lemma decimal_is_digits n : Text.is_digits (Text.decimal n) = true.
Proof.
  unfold Text.decimal, NilZero.string_of_uint.
  destruct (Nat.to_uint n) eqn:E; [reflexivity | ..];
    rewrite <- E; apply NumberFacts.uint_is_digits; congruence.
Qed.

Lemma decimal_number_digits s :
  Text.is_digits s = true ->
  decimal_number false s = Some (false, Text.digits_value 0 s, 0%Z).
Proof.
  unfold Text.is_digits. intros H. apply andb_prop in H as [Hne Hall].
  unfold decimal_number. rewrite NumberFacts.span_digits by exact Hall.
  rewrite append_empty. apply negb_true_iff in Hne. rewrite Hne. reflexivity.
Qed.

Lemma str2number_digits s :
  Text.is_digits s = true -> str2number s = Some (false, Text.digits_value 0 s, 0%Z).
Proof.
  intros H. pose proof H as H'. unfold Text.is_digits in H'.
  apply andb_prop in H' as [_ Hall].
  unfold str2number.
  rewrite NumberFacts.trim_inked
    by (apply (NumberFacts.all_chars_weaken Text.is_digit); [| exact Hall];
        intros c Hc; apply (NumberFacts.digit_plain c Hc)).
  rewrite <- (decimal_number_digits s H).
  destruct s as [| c r]; [reflexivity |].
  cbn [Text.all_chars] in Hall. apply andb_prop in Hall as [Hc Hr].
  destruct c as [[] [] [] [] [] [] [] []]; try discriminate Hc; try reflexivity.
  destruct r as [| x ds]; [reflexivity |].
  cbn [Text.all_chars] in Hr. apply andb_prop in Hr as [Hx _].
  destruct (NumberFacts.digit_plain x Hx) as (_ & _ & _ & _ & Hxx & _).
  now rewrite Hxx.
Qed.

Lemma receive_decimal closes n inbound :
  receive closes (Some (Text.decimal n)) inbound
  = Some (receive_bytes closes (N.of_nat n) inbound).
Proof.
  unfold receive. rewrite str2number_digits by apply decimal_is_digits.
  rewrite digits_of_decimal. unfold whole_part. cbn [andb Z.leb Z.to_N].
  cbn [fmap option_fmap option_map]. now rewrite N.pow_0_r, N.mul_1_r.
Qed.

(** *** The whole exchange *)

Lemma length_of_append s t : String.length (s +:+ t) = String.length s + String.length t.
Proof.
  induction s as [| a s IH]; [reflexivity |]. rewrite append_cons. cbn. now rewrite IH.
Qed.

Lemma fields_fit fields payload : length fields <= String.length (response fields payload).
Proof.
  unfold response. rewrite length_of_append.
  assert (H : length fields <= String.length (header_block fields)); [| lia].
  induction fields as [| f fields IH]; [cbn; lia |].
  change (header_block (f :: fields)) with (field_line f +:+ header_block fields).
  rewrite length_of_append. unfold field_line. rewrite !length_of_append.
  change (String.length crlf) with 2. cbn [length]. lia.
Qed.

(** What [call] does with a response of well-formed header lines: the
    request goes out and the table of the headers and the bytes behind the
    empty line reach the last step. *)
Lemma call_reads_fields closes w xml address port fields payload :
  resolve w = Some (address, port) ->
  peer w address port = Some (response fields payload) ->
  forallb field_ok fields = true ->
  call_on closes w (Some xml)
  = Some (Trace (finish closes (table_of fields) payload) [request xml]).
Proof.
  intros Hres Hpeer Hok. unfold call_on, call_with, turns. rewrite Hres, Hpeer.
  change (default "" (Some (response fields payload))) with (response fields payload).
  pose proof (read_headers_fields closes payload fields
                (S (String.length (response fields payload))) ∅ Hok
                ltac:(pose proof (fields_fit fields payload); lia)) as H.
  destruct (receive_line closes [] (response fields payload)) as [line rest | err |];
    [| destruct H ..].
  rewrite H. reflexivity.
Qed.

Lemma receive_bytes_of_nat closes n inbound :
  receive_bytes closes (N.of_nat n) inbound
  = if holds n inbound
    then Data (Text.take n inbound) (Text.drop n inbound)
    else drained closes.
Proof.
  unfold receive_bytes, holds. rewrite Nat2N.id.
  destruct inbound as [| c inbound]; [reflexivity |]. cbn [String.eqb negb andb].
  destruct (Nat.leb_spec n (String.length (String c inbound))) as [H | H];
    [rewrite (proj2 (N.leb_le _ _)) by lia | rewrite (proj2 (N.leb_gt _ _)) by lia];
    reflexivity.
Qed.

(** X18.  The exchange that goes well.  For a response of well-formed
    header lines whose status starts with 200 and whose [Content-Length] is
    the numeral of [n], the relay sends its one request and, when at least [n]
    bytes and at least one byte follow the empty line, returns the table that
    holds the first [n] of them under [xml] and nothing else, without exit
    code, whatever follows them.  When the bytes run out first, it returns
    the empty table if the peer closes its end, and never returns if the peer
    stays silent. *)
Theorem call_relays_the_body closes w xml address port fields payload reason n :
  resolve w = Some (address, port) ->
  peer w address port = Some (response fields payload) ->
  forallb field_ok fields = true ->
  table_of fields !! "status" = Some ("200" +:+ reason) ->
  table_of fields !! "content-length" = Some (Text.decimal n) ->
  call_on closes w (Some xml)
  = Some (Trace (if negb (String.eqb payload "") && (n <=? String.length payload)
                 then Returned {[ "xml" := Text.take n payload ]} None
                 else if closes then Returned ∅ None else Blocked)
                [request xml]).
Proof.
  intros Hres Hpeer Hok Hstatus Hlength.
  rewrite (call_reads_fields closes w xml address port fields payload Hres Hpeer Hok).
  do 2 f_equal. unfold finish.
  rewrite Hlength, receive_decimal, receive_bytes_of_nat, Hstatus.
  change (find_anchored status_pattern ("200" +:+ reason)) with (Some ["200"]).
  change (is_200 "200") with true. unfold holds.
  destruct (negb (String.eqb payload "") && (n <=? String.length payload));
    [reflexivity |].
  now destruct closes.
Qed.

Lemma call_relays_the_body_witness :
  call (daemon (response [("Status", "200 OK"); ("Content-Type", "text/xml");
                          ("Content-Length", "4")] "<r/>trailing"))
       (Some "<x/>")
  = Some (Trace (Returned {[ "xml" := "<r/>" ]} None) [request "<x/>"]).
Proof.
  exact (call_relays_the_body true
           (daemon (response [("Status", "200 OK"); ("Content-Type", "text/xml");
                              ("Content-Length", "4")] "<r/>trailing"))
           "<x/>" "127.0.0.1" "5000"
           [("Status", "200 OK"); ("Content-Type", "text/xml"); ("Content-Length", "4")]
           "<r/>trailing" " OK" 4 eq_refl eq_refl eq_refl eq_refl eq_refl).
Defined.







(** *** The configured address *)

Lemma single_inv cls k s st r :
  Pat.single cls k s st = Some r ->
  exists a s', s = String a s' /\ cls a = true /\ k s' (Pat.eat a st) = Some r.
Proof.
  unfold Pat.single. destruct s as [| a s']; [discriminate |].
  destruct (cls a) eqn:E; [eauto | discriminate].
Qed.

Lemma greedy_inv cls k s : forall st r,
  Pat.greedy cls k s st = Some r ->
  exists s1 s2,
    s = s1 +:+ s2 /\ Text.all_chars cls s1 = true /\ k s2 (eats s1 st) = Some r.
Proof.
  induction s as [| a s IH]; intros st r H; cbn [Pat.greedy] in H.
  - exists EmptyString, EmptyString. auto.
  - destruct (cls a) eqn:E.
    + destruct (Pat.greedy cls k s (Pat.eat a st)) as [r' |] eqn:G.
      * injection H as ->. destruct (IH _ _ G) as (s1 & s2 & -> & Hall & Hk).
        exists (String a s1), s2. cbn [Text.all_chars eats]. rewrite E, Hall. auto.
      * exists EmptyString, (String a s). auto.
    + exists EmptyString, (String a s). auto.
Qed.

Lemma search_inv p s : forall r,
  Pat.search p s = Some r -> exists s', Pat.match_here p s' = Some r.
Proof.
  induction s as [| a s IH]; intros r H; cbn [Pat.search] in H.
  - destruct (Pat.match_here p EmptyString) eqn:E; [| discriminate].
    injection H as ->. eauto.
  - destruct (Pat.match_here p (String a s)) eqn:E; [injection H as ->; eauto |].
    now apply IH.
Qed.

Lemma run_prefix pre rest : forall s st r,
  forallb plain_item pre = true ->
  Pat.run (pre ++ rest) s st = Some r ->
  exists s1 s2, s = s1 +:+ s2 /\ Pat.run rest s2 (eats s1 st) = Some r.
Proof.
  induction pre as [| i pre IH]; intros s st r Hpre H.
  - exists EmptyString, s. auto.
  - cbn [forallb] in Hpre. apply andb_prop in Hpre as [Hi Hpre].
    destruct i; try discriminate Hi; cbn [app Pat.run] in H.
    + apply single_inv in H as (a & s' & -> & _ & H).
      destruct (IH _ _ _ Hpre H) as (s1 & s2 & -> & Hk).
      exists (String a s1), s2. auto.
    + apply greedy_inv in H as (s1 & s2 & -> & _ & H).
      destruct (IH _ _ _ Hpre H) as (s3 & s4 & -> & Hk).
      exists (s1 +:+ s3), s4. rewrite append_assoc, eats_append. auto.
Qed.

Lemma scgi_port_pattern_parts : scgi_port_pattern = setting_prefix ++ setting_captures.
Proof. reflexivity. Qed.

Lemma captures_inv s cl us r :
  Pat.run setting_captures s (Pat.MState cl None us) = Some r ->
  exists a u d v,
    Pat.closed r = String d v :: String a u :: cl
    /\ Text.all_chars no_colon_char (String a u) = true
    /\ Text.all_chars Text.is_digit (String d v) = true.
Proof.
  unfold setting_captures. cbn [Pat.run]. unfold Pat.open_cap.
  cbn [Pat.closed Pat.opened Pat.used]. intros H.
  apply single_inv in H as (a & s1 & -> & Ha & H).
  apply greedy_inv in H as (u & s2 & -> & Hu & H).
  unfold Pat.eat in H. cbn [Pat.closed Pat.opened Pat.used fmap option_fmap option_map] in H.
  rewrite eats_state in H. unfold Pat.close_cap in H at 2.
  cbn [Pat.closed Pat.opened Pat.used fmap option_fmap option_map] in H.
  apply single_inv in H as (c & s3 & -> & _ & H).
  apply single_inv in H as (d & s4 & -> & Hd & H).
  apply greedy_inv in H as (v & s5 & -> & Hv & H).
  unfold Pat.eat in H. cbn [Pat.closed Pat.opened Pat.used fmap option_fmap option_map] in H.
  rewrite eats_state in H. unfold Pat.close_cap in H.
  cbn [Pat.closed Pat.opened Pat.used fmap option_fmap option_map] in H.
  injection H as <-. cbn [Pat.closed].
  exists a, u, d, v. split; [| split].
  - rewrite !rev_app_distr, !rev_involutive. cbn [rev app string_of_list_ascii].
    now rewrite !string_of_list_ascii_of_string.
  - cbn [Text.all_chars]. now rewrite Ha, Hu.
  - cbn [Text.all_chars]. now rewrite Hd, Hv.
Qed.

(** X20.  Whatever the configuration file holds, an address that the
    relay resolves is not empty and holds no colon, and the port is a
    non-empty run of digits. *)
Theorem resolve_gives_a_numeric_port w address port :
  resolve w = Some (address, port) ->
  address <> "" /\ Text.contains ":" address = false /\ Text.is_digits port = true.
Proof.
  unfold resolve, lua_match. intros H.
  destruct (Pat.search scgi_port_pattern (String LF (tostring (config w))))
    as [[n caps] |] eqn:E; [| discriminate H].
  cbn [fmap option_fmap option_map snd] in H.
  apply search_inv in E as [s' E]. unfold Pat.match_here in E.
  destruct (Pat.run scgi_port_pattern s' Pat.start) as [r |] eqn:R; [| discriminate E].
  cbn [fmap option_fmap option_map] in E. injection E as _ <-.
  rewrite scgi_port_pattern_parts in R.
  apply run_prefix in R as (s1 & s2 & _ & R); [| reflexivity].
  unfold Pat.start in R. rewrite eats_state in R.
  cbn [fmap option_fmap option_map] in R.
  apply captures_inv in R as (a & u & d & v & Hr & Hu & Hv).
  rewrite Hr in H. cbn [rev app] in H. injection H as <- <-.
  split; [discriminate |]. split.
  - clear -Hu. induction (String a u) as [| c s IH]; [reflexivity |].
    cbn [Text.all_chars Text.contains] in *. apply andb_prop in Hu as [Hc Hs].
    unfold no_colon_char in Hc. apply negb_true_iff in Hc. now rewrite Hc, IH.
  - unfold Text.is_digits. now rewrite Hv.
Qed.

Lemma resolve_gives_a_numeric_port_witness :
  "127.0.0.1" <> "" /\ Text.contains ":" "127.0.0.1" = false
  /\ Text.is_digits "5000" = true.
Proof.
  exact (resolve_gives_a_numeric_port (daemon "") "127.0.0.1" "5000" eq_refl).
Defined.

Lemma plus_captures cls k s t cl us :
  s <> "" ->
  Text.all_chars cls s = true ->
  starts_with cls t = false ->
  is_Some (k t (Pat.MState (s :: cl) None (String.length s + us))) ->
  Pat.single cls (Pat.greedy cls (fun s st => k s (Pat.close_cap st))) (s +:+ t)
    (Pat.MState cl (Some []) us)
  = k t (Pat.MState (s :: cl) None (String.length s + us)).
Proof.
  intros Hne Hs Ht Hk. destruct s as [| a s]; [congruence |].
  cbn [Text.all_chars] in Hs. apply andb_prop in Hs as [Ha Hs].
  rewrite append_cons. unfold Pat.single. rewrite Ha.
  assert (E : Pat.close_cap (eats s (Pat.eat a (Pat.MState cl (Some []) us)))
              = Pat.MState (String a s :: cl) None (String.length (String a s) + us)).
  { unfold Pat.eat. cbn [Pat.closed Pat.opened Pat.used fmap option_fmap option_map].
    rewrite eats_state. unfold Pat.close_cap.
    cbn [Pat.closed Pat.opened Pat.used fmap option_fmap option_map].
    rewrite rev_app_distr, rev_involutive. cbn [rev app string_of_list_ascii String.length].
    rewrite string_of_list_ascii_of_string. f_equal. lia. }
  rewrite greedy_stop; try assumption; rewrite E; [reflexivity | exact Hk].
Qed.

Lemma no_colon_chars s :
  Text.contains ":" s = false -> Text.all_chars no_colon_char s = true.
Proof.
  induction s as [| c s IH]; [reflexivity |].
  cbn [Text.all_chars Text.contains]. intros H. apply orb_false_iff in H as [Hc Hs].
  unfold no_colon_char at 1. rewrite Hc. exact (IH Hs).
Qed.

Lemma idle_eat a st : idle st -> idle (Pat.eat a st).
Proof. intros [Hc Ho]. split; cbn; [exact Hc | now rewrite Ho]. Qed.

Lemma idle_eats s : forall st, idle st -> idle (eats s st).
Proof.
  induction s as [| a s IH]; intros st H; [exact H |]. cbn [eats]. now apply IH, idle_eat.
Qed.

Lemma captures_run address port rest st :
  idle st ->
  address <> "" -> Text.contains ":" address = false ->
  Text.is_digits port = true -> starts_with Text.is_digit rest = false ->
  exists us',
    Pat.run setting_captures (address +:+ ":" +:+ port +:+ rest) st
    = Some (Pat.MState [port; address] None us').
Proof.
  intros [Hcl Hop] Ha Hc Hp Hr. destruct st as [cl op us]. cbn in Hcl, Hop. subst cl op.
  unfold Text.is_digits in Hp. apply andb_prop in Hp as [Hpn Hp].
  assert (Hpne : port <> "").
  { intros ->. discriminate Hpn. }
  pose proof (no_colon_chars address Hc) as Hnc.
  eexists. unfold setting_captures. cbn [Pat.run]. unfold Pat.open_cap at 1.
  cbn [Pat.closed Pat.opened Pat.used].
  set (k := fun (s : string) (st : Pat.mstate) =>
              Pat.single (Ascii.eqb ":")
                (fun s st =>
                   Pat.single Text.is_digit
                     (Pat.greedy Text.is_digit (fun _ st => Some (Pat.close_cap st)))
                     s (Pat.open_cap st)) s st).
  assert (Hk : forall us0,
             k (":" +:+ port +:+ rest)
               (Pat.MState [address] None us0)
             = Some (Pat.MState [port; address] None (String.length port + S us0))).
  { intros us0. unfold k. rewrite append_cons, append_nil. unfold Pat.single at 1.
    rewrite Ascii.eqb_refl. unfold Pat.eat, Pat.open_cap.
    cbn [Pat.closed Pat.opened Pat.used fmap option_fmap option_map].
    exact (plus_captures Text.is_digit (fun _ st => Some st) port rest [address] (S us0)
             Hpne Hp Hr ltac:(eauto)). }
  etransitivity.
  - apply (plus_captures no_colon_char k address (":" +:+ port +:+ rest) [] us Ha Hnc);
      [reflexivity | rewrite Hk; eauto].
  - apply Hk.
Qed.

Lemma step_lit c rest t st r :
  Pat.run rest t (Pat.eat c st) = Some r ->
  Pat.run (Pat.lit c :: rest) (String c t) st = Some r.
Proof. intros H. cbn [Pat.run Pat.lit]. unfold Pat.single. now rewrite Ascii.eqb_refl. Qed.

Lemma step_lits l rest t : forall st r,
  Pat.run rest t (eats l st) = Some r ->
  Pat.run (Pat.lits l ++ rest) (l +:+ t) st = Some r.
Proof.
  induction l as [| c l IH]; intros st r H; [exact H |].
  rewrite append_cons. apply step_lit. now apply IH.
Qed.

Lemma step_star cls rest s t st r :
  Text.all_chars cls s = true -> starts_with cls t = false ->
  Pat.run rest t (eats s st) = Some r ->
  Pat.run (Pat.Star cls :: rest) (s +:+ t) st = Some r.
Proof.
  intros Hs Ht H. cbn [Pat.run]. rewrite greedy_stop; try assumption. rewrite H. eauto.
Qed.

Lemma search_here p s r : Pat.match_here p s = Some r -> Pat.search p s = Some r.
Proof. intros H. destruct s; cbn [Pat.search]; now rewrite H. Qed.

(** X21.  A configuration whose first line sets [scgi_port] to
    [address:port] resolves to that address and port: white space before the
    name and around the [=] is skipped, the address is everything up to the
    first colon, and the port is the run of digits behind it. *)
Theorem resolve_reads_the_setting connect indent gap1 gap2 address port rest :
  Text.all_chars Text.is_space indent = true ->
  Text.all_chars Text.is_space gap1 = true ->
  Text.all_chars Text.is_space gap2 = true ->
  address <> "" -> starts_with Text.is_space address = false ->
  Text.contains ":" address = false ->
  Text.is_digits port = true -> starts_with Text.is_digit rest = false ->
  resolve (World (Some (indent +:+ "scgi_port" +:+ gap1 +:+ "=" +:+ gap2
                          +:+ address +:+ ":" +:+ port +:+ rest)) connect)
  = Some (address, port).
Proof.
  intros Hi Hg1 Hg2 Ha Has Hc Hp Hr.
  unfold resolve, lua_match. cbn [config].
  set (st := eats gap2 (Pat.eat "=" (eats gap1 (eats "scgi_port"
               (eats indent (Pat.eat LF Pat.start)))))).
  assert (Hst : idle st).
  { unfold st. apply idle_eats, idle_eat, idle_eats, idle_eats, idle_eats, idle_eat.
    now split. }
  destruct (captures_run address port rest st Hst Ha Hc Hp Hr) as [us Hrun].
  assert (Hstart : forall t, starts_with Text.is_space (address +:+ t) = false).
  { intros t. destruct address as [| c r]; [congruence | exact Has]. }
  assert (Hmatch : Pat.match_here scgi_port_pattern
                     (String LF (indent +:+ "scgi_port" +:+ gap1 +:+ "=" +:+ gap2
                                   +:+ address +:+ ":" +:+ port +:+ rest))
                   = Some (us, [address; port])).
  { unfold Pat.match_here.
    change scgi_port_pattern
      with (Pat.lit LF :: Pat.Star Text.is_space
              :: Pat.lits "scgi_port"
              ++ Pat.Star Text.is_space :: Pat.lit "=" :: Pat.Star Text.is_space
              :: setting_captures).
    rewrite (step_lit LF _ _ _ (Pat.MState [port; address] None us)); [reflexivity |].
    apply step_star; [exact Hi | reflexivity |].
    apply (step_lits "scgi_port").
    apply step_star; [exact Hg1 | reflexivity |].
    change ("=" +:+ ?t) with (String "=" t). apply step_lit.
    apply step_star; [exact Hg2 | apply Hstart |].
    exact Hrun. }
  apply search_here in Hmatch.
  change (indent +:+ "scgi_port" +:+ gap1 +:+ "=" +:+ gap2
            +:+ address +:+ ":" +:+ port +:+ rest)
    with (tostring (Some (indent +:+ "scgi_port" +:+ gap1 +:+ "=" +:+ gap2
                            +:+ address +:+ ":" +:+ port +:+ rest))) in Hmatch.
  now rewrite Hmatch.
Qed.

Lemma resolve_reads_the_setting_witness :
  resolve (World (Some ("  " +:+ "scgi_port" +:+ " " +:+ "=" +:+ " "
                          +:+ "localhost" +:+ ":" +:+ "5000" +:+ newline))
                 (fun _ _ => None))
  = Some ("localhost", "5000").
Proof.
  apply (resolve_reads_the_setting (fun _ _ => None) "  " " " " " "localhost" "5000" newline);
    try reflexivity. discriminate.
Defined.


(** *** What a call ends in *)

Lemma answer_failure message : answer (failure message).
Proof. left. eauto. Qed.

Lemma answer_finish closes headers rest : answer (finish closes headers rest).
Proof.
  unfold finish. destruct (receive closes _ rest) as [r |]; [| exact I].
  destruct r as [b rest' | err |]; [| | exact I];
    (destruct (headers !! "status") as [status |]; [| exact I];
     destruct (find_anchored status_pattern status) as [[| code [| ? ?]] |]; try exact I;
     destruct (is_200 code); [| apply answer_failure];
     right; split; [reflexivity |]; cbn; eauto).
Qed.

Lemma answer_read_headers closes fuel : forall headers line inbound stop,
  read_headers fuel closes headers line inbound = Some (inl stop) -> answer stop.
Proof.
  induction fuel as [| fuel IH]; intros headers line inbound stop H; [discriminate H |].
  cbn [read_headers] in H. destruct (String.eqb line ""); [discriminate H |].
  destruct (find_anchored header_pattern line) as [[| name [| value [| ? ?]]] |];
    try (injection H as <-; apply answer_failure).
  destruct (receive_line closes [] inbound) as [line' inbound' | err |];
    [now apply IH in H | injection H as <-; apply answer_failure
     | injection H as <-; exact I].
Qed.

(** Only a peer that stays silent makes a read wait. *)
Lemma receive_bytes_returns n inbound : receive_bytes true n inbound <> Waits.
Proof.
  unfold receive_bytes. destruct inbound; [discriminate |].
  destruct (n <=? _)%N; discriminate.
Qed.

Lemma receive_returns pattern inbound r :
  receive true pattern inbound = Some r -> r <> Waits.
Proof.
  unfold receive. destruct pattern as [p |].
  - destruct (str2number p) as [n |].
    + destruct (whole_part n) as [wanted |]; [| discriminate]. cbn. intros H.
      injection H as <-. apply receive_bytes_returns.
    + destruct (String.prefix "*l" p);
        [intros H; injection H as <-; apply receive_line_returns |].
      destruct (String.prefix "*a" p); [| discriminate].
      intros H. injection H as <-. unfold receive_all. now destruct inbound.
  - intros H. injection H as <-. apply receive_line_returns.
Qed.

Lemma finish_returns headers rest : finish true headers rest <> Blocked.
Proof.
  unfold finish. destruct (receive true _ rest) as [r |] eqn:E; [| discriminate].
  apply receive_returns in E.
  destruct r as [b rest' | err |]; [| | congruence];
    (destruct (headers !! "status") as [status |]; [| discriminate];
     destruct (find_anchored status_pattern status) as [[| code [| ? ?]] |];
       try discriminate;
     destruct (is_200 code); discriminate).
Qed.

Lemma read_headers_returns fuel : forall headers line inbound,
  read_headers fuel true headers line inbound <> Some (inl Blocked).
Proof.
  induction fuel as [| fuel IH]; intros headers line inbound; [discriminate |].
  cbn [read_headers]. destruct (String.eqb line ""); [discriminate |].
  destruct (find_anchored header_pattern line) as [[| name [| value [| ? ?]]] |];
    try discriminate.
  pose proof (receive_line_returns inbound []) as Hw.
  destruct (receive_line true [] inbound) as [line' inbound' | err |];
    [apply IH | discriminate | congruence].
Qed.

Lemma call_shape closes w args_xml r :
  call_on closes w args_xml = Some r ->
  answer (outcome_of r)
  /\ (sent r = [] \/ exists xml, args_xml = Some xml /\ sent r = [request xml])
  /\ (outcome_of r = Blocked ->
      closes = false /\ exists xml, args_xml = Some xml /\ sent r = [request xml]).
Proof.
  intros Hr. unfold call_on, call_with in Hr.
  destruct (resolve w) as [[address port] |];
    [| injection Hr as <-; split; [apply answer_failure | split; [now left | discriminate]]].
  destruct (peer w address port) as [inbound |];
    [| injection Hr as <-; split; [apply answer_failure | split; [now left | discriminate]]].
  destruct args_xml as [xml |];
    [| injection Hr as <-; split; [exact I | split; [now left | discriminate]]].
  pose proof (receive_line_returns inbound []) as Hline.
  destruct (receive_line closes [] inbound) as [line inbound' | err |] eqn:E.
  - pose proof (read_headers_returns (turns w) ∅ line inbound') as Hloop.
    pose proof (finish_returns) as Hfin.
    destruct (read_headers _ _ _ _ _) as [[stop | [headers rest]] |] eqn:R;
      [| | discriminate Hr]; injection Hr as <-; cbn [outcome_of sent].
    + split; [now apply answer_read_headers in R |]. split; [right; eauto |].
      intros ->. split; [| eauto]. destruct closes; [| reflexivity].
      exfalso. apply Hloop. exact R.
    + split; [apply answer_finish |]. split; [right; eauto |].
      intros Hb. split; [| eauto]. destruct closes; [| reflexivity].
      exfalso. exact (Hfin headers rest Hb).
  - injection Hr as <-. cbn [outcome_of sent].
    split; [apply answer_failure |]. split; [right; eauto | discriminate].
  - injection Hr as <-. cbn [outcome_of sent].
    split; [exact I |]. split; [right; eauto |].
    intros _. split; [| eauto]. destruct closes; [congruence | reflexivity].
Qed.

Lemma receive_line_waits inbound : forall acc,
  Text.contains LF inbound = false -> receive_line false acc inbound = Waits.
Proof.
  induction inbound as [| c inbound IH]; intros acc H; [reflexivity |].
  cbn [Text.contains] in H. apply orb_false_iff in H as [Hc H].
  cbn [receive_line]. rewrite Hc. destruct (Ascii.eqb c CR); now apply IH.
Qed.

(** X22.  Against a peer that writes finitely many bytes and then closes
    its end or stays silent: what a call returns is an error text together
    with the exit code 1, or the document, or an empty table, never an error
    and a document at once, and it sends nothing or the one request for the
    document that it was given.  When the peer closes its end the call
    returns or raises.  The call does not always come to an end: no timeout is
    set, so on a peer that stays silent with the connection open it can wait
    in a read forever, the request sent, and it does whenever the bytes that
    the peer wrote hold no line feed. *)
Theorem call_answers closes w args_xml :
  (exists r,
     call_on closes w args_xml = Some r
     /\ answer (outcome_of r)
     /\ (sent r = [] \/ exists xml, args_xml = Some xml /\ sent r = [request xml])
     /\ (outcome_of r = Blocked ->
         closes = false /\ exists xml, args_xml = Some xml /\ sent r = [request xml]))
  /\ forall xml address port inbound,
      resolve w = Some (address, port) ->
      peer w address port = Some inbound ->
      Text.contains LF inbound = false ->
      call_on false w (Some xml) = Some (Trace Blocked [request xml]).
Proof.
  split.
  - destruct (RelayFacts.call_on_total closes w args_xml) as [r Hr]. exists r.
    split; [exact Hr | exact (call_shape closes w args_xml r Hr)].
  - intros xml address port inbound Hres Hpeer Hlf.
    unfold call_on, call_with. rewrite Hres, Hpeer.
    now rewrite receive_line_waits.
Qed.

Lemma call_answers_witness :
  call_on false (daemon "Status: 200 OK") (Some "<x/>")
  = Some (Trace Blocked [request "<x/>"]).
Proof.
  exact (proj2 (call_answers false (daemon "Status: 200 OK") (Some "<x/>"))
           "<x/>" "127.0.0.1" "5000" "Status: 200 OK" eq_refl eq_refl eq_refl).
Defined.

End RelayMore.

(** ** The dispatcher *)

Module DispatchFacts.
Import Relay Dispatch.

Lemma refused_xml k v :
  refused {[ inl "xml" := VString "xml" ]} k v = false
  <-> k = inl "xml" /\ exists text, v = VString text.
Proof.
  unfold refused. destruct (decide (k = inl "xml")) as [-> | Hne].
  - rewrite lookup_singleton, decide_True by reflexivity. split.
    + intros H. split; [reflexivity |]. destruct v; try discriminate H. eauto.
    + intros [_ [text ->]]. reflexivity.
  - rewrite lookup_singleton_ne by congruence. split; [discriminate | tauto].
Qed.

Lemma none_refused margs (l : list (key * lval)) :
  existsb (fun kv => refused margs (fst kv) (snd kv)) l = false
  <-> forall k v, In (k, v) l -> refused margs k v = false.
Proof.
  induction l as [| [k v] l IH]; cbn [existsb fst snd].
  - split; [intros _ k v [] | reflexivity].
  - rewrite orb_false_iff, IH. split.
    + intros [Hk Hl] k' v' [E | Hin]; [injection E as <- <-; exact Hk | now apply Hl].
    + intros H. split; [apply H; now left | intros k' v' Hin; apply H; now right].
Qed.

Lemma validate_args_shape fields :
  (forall k v, fields !! k = Some v ->
     k = inl "ubus_rpc_session" \/ (k = inl "xml" /\ exists text, v = VString text)) ->
  validate_args (Some "rtorrent_rpc") (Table fields)
  = inr (delete (inl "ubus_rpc_session") fields).
Proof.
  intros Hall. unfold validate_args, method_args.
  change (String.eqb "rtorrent_rpc" "rtorrent_rpc") with true. cbn match.
  assert (F : existsb (fun kv => refused {[ inl "xml" := VString "xml" ]} (fst kv) (snd kv))
                (map_to_list (delete (inl "ubus_rpc_session") fields)) = false).
  { apply none_refused. intros k v Hin.
    apply list_elem_of_In, elem_of_map_to_list in Hin.
    apply lookup_delete_Some in Hin as [Hne Hk].
    apply refused_xml. destruct (Hall k v Hk) as [-> | H]; [congruence | exact H]. }
  now rewrite F.
Qed.

(** X23.  [validate_args] lets a call through exactly when the method is
    [rtorrent_rpc], the input is a table, and every field of it other than
    [ubus_rpc_session] is an [xml] that is a string.  The session field is
    dropped whatever its type, and [xml] itself may be missing. *)
Theorem validate_args_accepts func uargs args :
  validate_args func uargs = inr args
  <-> func = Some "rtorrent_rpc"
      /\ exists fields,
           uargs = Table fields
           /\ args = delete (inl "ubus_rpc_session") fields
           /\ forall k v, fields !! k = Some v ->
                k = inl "ubus_rpc_session"
                \/ (k = inl "xml" /\ exists text, v = VString text).
Proof.
  unfold validate_args, method_args. split.
  - destruct func as [name |]; [| discriminate].
    destruct (String.eqb name "rtorrent_rpc") eqn:E; [| discriminate].
    apply String.eqb_eq in E. subst name.
    destruct uargs as [fields |]; [| discriminate].
    destruct (existsb _ _) eqn:F; [discriminate |].
    intros H. injection H as <-. split; [reflexivity |].
    exists fields. split; [reflexivity |]. split; [reflexivity |].
    intros k v Hk. destruct (decide (k = inl "ubus_rpc_session")) as [-> | Hne]; [now left |].
    right. apply refused_xml. apply (proj1 (none_refused _ _) F).
    apply list_elem_of_In, elem_of_map_to_list. now rewrite lookup_delete_ne.
  - intros [-> [fields [-> [-> Hall]]]]. now apply validate_args_shape.
Qed.

Lemma validate_args_accepts_witness :
  validate_args (Some "rtorrent_rpc")
    (Table {[ inl "xml" := VString "<x/>"; inl "ubus_rpc_session" := VNumber ]})
  = inr (delete (inl "ubus_rpc_session")
           {[ inl "xml" := VString "<x/>"; inl "ubus_rpc_session" := VNumber ]}).
Proof.
  apply (proj2 (validate_args_accepts (Some "rtorrent_rpc")
                  (Table {[ inl "xml" := VString "<x/>";
                            inl "ubus_rpc_session" := VNumber ]}) _)).
  split; [reflexivity |]. eexists. split; [reflexivity |]. split; [reflexivity |].
  intros k v Hk.
  apply lookup_insert_Some in Hk as [[<- <-] | [Hne Hk]]; [right; eauto |].
  apply lookup_singleton_Some in Hk as [<- <-]. now left.
Defined.

(** X24.  A call without a document passes the validation, and the
    program then ends in an uncaught Lua error as soon as the daemon accepts
    the connection: nothing is sent and no error is printed.  Without a
    configured port it prints the error of that stage instead. *)
Theorem call_without_document w fields :
  (forall k v, fields !! k = Some v -> k = inl "ubus_rpc_session") ->
  run_call w (Some "rtorrent_rpc") (Table fields)
  = Some (match resolve w with
          | None => Printed {[ "error" := "No scgi port" ]} 1
          | Some (address, port) =>
              match peer w address port with
              | None => Printed {[ "error" := "Socket connect failed" ]} 1
              | Some _ => Uncaught "attempt to index field 'xml' (a nil value)"
              end
          end).
Proof.
  intros Hall. unfold run_call, run_call_on.
  assert (Hv : validate_args (Some "rtorrent_rpc") (Table fields)
               = inr (delete (inl "ubus_rpc_session") fields)).
  { apply validate_args_shape. intros k v Hk. left. exact (Hall k v Hk). }
  rewrite Hv.
  assert (Hx : xml_of (delete (inl "ubus_rpc_session") fields) = None).
  { unfold xml_of. rewrite lookup_delete_ne by discriminate.
    destruct (fields !! inl "xml") as [v |] eqn:E; [| reflexivity].
    specialize (Hall _ _ E). discriminate Hall. }
  rewrite Hx. unfold call_on, call_with.
  destruct (resolve w) as [[address port] |]; [| reflexivity].
  destruct (peer w address port); reflexivity.
Qed.

Lemma call_without_document_witness :
  run_call (daemon "") (Some "rtorrent_rpc") (Table {[ inl "ubus_rpc_session" := VString "s" ]})
  = Some (Uncaught "attempt to index field 'xml' (a nil value)").
Proof.
  apply (call_without_document (daemon "") {[ inl "ubus_rpc_session" := VString "s" ]}).
  intros k v Hk. now apply lookup_singleton_Some in Hk as [<- _].
Defined.

(** X25.  From the parsed input on (reading the input is not described),
    and against a peer that writes finitely many bytes and then closes its end
    or stays silent, the call branch goes one of three ways.  It prints a
    table and exits, and then the exit status tells what the table holds:
    status 1 goes with an error text and nothing else, status 0 with the
    document or with an empty table.  Or a Lua error goes uncaught.  Or it
    never ends, waiting in a read: that is left open for a peer that stays
    silent with the connection open, and excluded for one that closes its
    end. *)
Theorem run_call_endings closes w func uargs :
  exists e,
    run_call_on closes w func uargs = Some e
    /\ match e with
       | Printed table status =>
           (status = 1 /\ exists message, table = {[ "error" := message ]})
           \/ (status = 0 /\ (table = ∅ \/ exists body, table = {[ "xml" := body ]}))
       | Uncaught _ => True
       | Hangs => closes = false
       end.
Proof.
  unfold run_call_on. destruct (validate_args func uargs) as [message | args].
  - eexists. split; [reflexivity |]. left. eauto.
  - destruct (RelayFacts.call_on_total closes w (xml_of args)) as [r Hr]. rewrite Hr.
    destruct (RelayMore.call_shape closes w _ r Hr) as [Ha [_ Hb]].
    destruct r as [[result code | message |] out]; cbn [outcome_of] in Ha, Hb.
    + eexists. split; [reflexivity |].
      destruct Ha as [[-> Hm] | [-> Hx]]; [left | right]; auto.
    + eexists. split; [reflexivity | exact I].
    + eexists. split; [reflexivity | exact (proj1 (Hb eq_refl))].
Qed.

End DispatchFacts.
